(** * JITLink MachO/arm64: relocation parser, GOT and stubs builder, fixup applier

    A shallow embedding of [llvm/lib/ExecutionEngine/JITLink/MachO_arm64.cpp].

    - Fixed-width C++ integers are [Z] with the wrap-around written out
      ([u32], [u64], [s32], [s64]).
    - Block content and working memory are lists of bytes, read and written
      little-endian ([readLE], [writeLE]).
    - The link graph is a record of sections, blocks, external addressables
      and symbols; pointers are indices into these vectors, and in-place
      mutation ([addEdge], [setTarget], [setKind]) is a functional update at
      the index.
    - Fallible code returns an [Outcome]: a value, an [llvm::Error], or an
      abnormal end (failed [assert], [llvm_unreachable], fatal error, access
      outside a buffer, a call into code outside the file that does not
      return).
    - Functions that the file calls and does not define are parameters: the
      symbol lookups of the graph builder, and [getGenericEdgeKindName],
      which names the edge kinds that the file does not name when an error
      message is built. The output of [LLVM_DEBUG] is not modelled: debug
      output is taken to be switched off. *)

From Stdlib Require Import ZArith Lia.
From stdpp Require Import prelude gmap strings.
From coqutil Require Import Z.bitblast Z.PushPullMod.

Local Open Scope Z_scope.

(** ** Machine integers *)

Module Int.

Definition wrap (w : Z) (x : Z) : Z := x mod 2 ^ w.

(** Two's complement reading of the low [w] bits of [x]. *)
Definition signed (w : Z) (x : Z) : Z :=
  let u := wrap w x in
  if u <? 2 ^ (w - 1) then u else u - 2 ^ w.

Definition u8 := wrap 8.
Definition u32 := wrap 32.
Definition u64 := wrap 64.
Definition s32 := signed 32.
Definition s64 := signed 64.

End Int.
Export Int.

(** ** Little-endian memory access *)

Module Mem.

(** [n] bytes starting at [off], or [None] when the access leaves the
    buffer (undefined behaviour in the C++ code). *)
Definition slice (mem : list Z) (off : Z) (n : nat) : option (list Z) :=
  if (0 <=? off) && (off + Z.of_nat n <=? Z.of_nat (length mem))
  then Some (take n (drop (Z.to_nat off) mem))
  else None.

Fixpoint le_combine (bs : list Z) : Z :=
  match bs with
  | [] => 0
  | b :: bs' => Z.lor (u8 b) (Z.shiftl (le_combine bs') 8)
  end.

Fixpoint le_split (n : nat) (v : Z) : list Z :=
  match n with
  | O => []
  | S n' => u8 v :: le_split n' (Z.shiftr v 8)
  end.

(** An unsigned little-endian read of [n] bytes ([ulittle32_t], [ulittle64_t]). *)
Definition readLE (n : nat) (mem : list Z) (off : Z) : option Z :=
  le_combine <$> slice mem off n.

(** A signed little-endian read of [n] bytes ([little32_t], [little64_t]). *)
Definition readLEs (n : nat) (mem : list Z) (off : Z) : option Z :=
  signed (8 * Z.of_nat n) <$> readLE n mem off.

(** A little-endian store of the low [n] bytes of [v] (the stored bits are
    the same for the signed and the unsigned types). *)
Definition writeLE (n : nat) (mem : list Z) (off : Z) (v : Z) : option (list Z) :=
  if (0 <=? off) && (off + Z.of_nat n <=? Z.of_nat (length mem))
  then Some (take (Z.to_nat off) mem ++ le_split n v ++ drop (Z.to_nat off + n) mem)
  else None.

End Mem.
Export Mem.

(** ** Edge kinds ([MachO_arm64_Edges::MachOARM64RelocationKind]) *)

Inductive EdgeKind :=
| Branch26
| Pointer32
| Pointer64
| Pointer64Anon
| Page21
| PageOffset12
| GOTPage21
| GOTPageOffset12
| PointerToGOT
| PairedAddend
| LDRLiteral19
| Delta32
| Delta64
| NegDelta32
| NegDelta64.

#[global] Instance EdgeKind_eq_dec : EqDecision EdgeKind.
Proof. solve_decision. Defined.

(** ** Mach-O relocation records *)

Module MachO.

(** [MachO::relocation_info] (llvm/BinaryFormat/MachO.h):
    [int32_t r_address; uint32_t r_symbolnum : 24, r_pcrel : 1, r_length : 2,
    r_extern : 1, r_type : 4]. *)
Record relocation_info := mkRI {
  r_address : Z;
  r_symbolnum : Z;
  r_pcrel : bool;
  r_length : Z;
  r_extern : bool;
  r_type : Z
}.

(** [enum RelocationInfoType] for arm64; the values are those of section 6.1
    of the specification. *)
Definition ARM64_RELOC_UNSIGNED : Z := 0.
Definition ARM64_RELOC_SUBTRACTOR : Z := 1.
Definition ARM64_RELOC_BRANCH26 : Z := 2.
Definition ARM64_RELOC_PAGE21 : Z := 3.
Definition ARM64_RELOC_PAGEOFF12 : Z := 4.
Definition ARM64_RELOC_GOT_LOAD_PAGE21 : Z := 5.
Definition ARM64_RELOC_GOT_LOAD_PAGEOFF12 : Z := 6.
Definition ARM64_RELOC_POINTER_TO_GOT : Z := 7.
Definition ARM64_RELOC_ADDEND : Z := 10.

End MachO.
Export MachO.

(** ** The link graph *)

(** [Edge]: kind, offset in the source block ([uint32_t]), target symbol and
    addend ([int64_t]). The target is an index into the graph's symbols. *)
Record Edge := mkEdge {
  e_kind : EdgeKind;
  e_offset : Z;
  e_target : nat;
  e_addend : Z
}.

Definition setTarget (E : Edge) (T : nat) : Edge :=
  mkEdge (e_kind E) (e_offset E) T (e_addend E).

Definition setKind (E : Edge) (K : EdgeKind) : Edge :=
  mkEdge K (e_offset E) (e_target E) (e_addend E).

Definition setAddend (E : Edge) (A : Z) : Edge :=
  mkEdge (e_kind E) (e_offset E) (e_target E) A.

(** [sys::Memory::ProtectionFlags] (llvm/Support/Memory.h). *)
Definition MF_READ : Z := 0x1000000.
Definition MF_WRITE : Z := 0x2000000.
Definition MF_EXEC : Z := 0x4000000.

Record Section := mkSection {
  sec_name : string;
  sec_prot : Z
}.

(** [Block]: a defined addressable with content and outgoing edges. *)
Record Block := mkBlock {
  b_section : nat;
  b_content : list Z;
  b_address : Z;
  b_alignment : Z;
  b_alignmentOffset : Z;
  b_edges : list Edge
}.

(** The addressable a symbol is based on: a block, or the addressable of an
    external or absolute symbol (which has an address but is not defined). *)
Inductive Base :=
| InBlock (b : nat)
| External (x : nat).

#[global] Instance Base_eq_dec : EqDecision Base.
Proof. solve_decision. Defined.

Record Symbol := mkSymbol {
  s_name : option string;
  s_base : Base;
  s_offset : Z;
  s_size : Z;
  s_callable : bool;
  s_live : bool
}.

Record LinkGraph := mkGraph {
  sections : list Section;
  blocks : list Block;
  externals : list Z;
  symbols : list Symbol
}.

(** ** Errors and outcomes *)

(** One constructor per [make_error<JITLinkError>] site of the file, plus the
    errors of the symbol lookups of the base class. *)
Inductive JITLinkError :=
| UnsupportedRelocation (address symbolnum kind : Z) (pc_rel extern : bool) (length : Z)
| SubtractorWithoutUnsigned
| SubtractorDifferentAddresses
| SubtractorLengthMismatch
| SubtractorNotAOrB
| ContentPastEndOfBlock
| UnpairedAddend (FixupAddress : Z)
| InvalidAddendPair (KindName : string)
| PairedDifferentTarget
| Branch26NotBranch
| Page21NotADRP
| GOTPageOff12NotLDR
| NoSymbolForIndex (Index : Z)
| NoSymbolForAddress (Address : Z)
| Branch26Misaligned
| TargetOutOfRange (B : nat) (E : Edge)
| PageOff12Misaligned
| LDRLiteralMisaligned.

(** The error taxonomy of section 7 of the specification. *)
Inductive ErrorKind :=
| BadRelocation
| MissingSymbol
| BadInstr
| ExtentOverflow
| OutOfRange
| Misalignment.

Definition errorKind (e : JITLinkError) : ErrorKind :=
  match e with
  | UnsupportedRelocation _ _ _ _ _ _ => BadRelocation
  | SubtractorWithoutUnsigned => BadRelocation
  | SubtractorDifferentAddresses => BadRelocation
  | SubtractorLengthMismatch => BadRelocation
  | SubtractorNotAOrB => BadRelocation
  | ContentPastEndOfBlock => ExtentOverflow
  | UnpairedAddend _ => BadRelocation
  | InvalidAddendPair _ => BadRelocation
  | PairedDifferentTarget => BadRelocation
  | Branch26NotBranch => BadInstr
  | Page21NotADRP => BadInstr
  | GOTPageOff12NotLDR => BadInstr
  | NoSymbolForIndex _ => MissingSymbol
  | NoSymbolForAddress _ => MissingSymbol
  | Branch26Misaligned => Misalignment
  | TargetOutOfRange _ _ => OutOfRange
  | PageOff12Misaligned => Misalignment
  | LDRLiteralMisaligned => Misalignment
  end.

(** Ways in which the C++ code ends without returning; [NoReturn] is a call
    into code outside this file that does not return. *)
Inductive AbortReason :=
| AssertionFailed
| Unreachable
| MalformedObject
| BadAccess
| OutOfFuel
| NoReturn.

Inductive Outcome (A : Type) :=
| Success (a : A)
| Failure (e : JITLinkError)
| Abort (r : AbortReason).

Arguments Success {A} a.
Arguments Failure {A} e.
Arguments Abort {A} r.

#[global] Instance Outcome_ret : MRet Outcome := fun A a => Success a.

#[global] Instance Outcome_bind : MBind Outcome := fun A B k o =>
  match o with
  | Success a => k a
  | Failure e => Failure e
  | Abort r => Abort r
  end.

(** A memory access or pointer dereference that must stay inside its object. *)
Definition access {A : Type} (o : option A) : Outcome A :=
  match o with
  | Some a => Success a
  | None => Abort BadAccess
  end.

(** [assert(c)]: compiled out under [NDEBUG], otherwise ends the process when
    [c] is false. *)
Definition assert (NDEBUG : bool) (c : bool) : Outcome unit :=
  if NDEBUG || c then Success tt else Abort AssertionFailed.

(** ** Edge kind names *)

(** The result of a call into code that is not part of this file: the value
    that the call returns, or [None] when the call does not return. *)
Definition returned {A : Type} (r : option A) : Outcome A :=
  match r with
  | Some a => Success a
  | None => Abort NoReturn
  end.

Section KindNames.

(** [getGenericEdgeKindName] (JITLink.cpp) is asked for the name of the kinds
    that this file does not name. It is defined outside this file: it returns
    a name, or it does not return. *)
Variable getGenericEdgeKindName : EdgeKind -> option string.

Definition getMachOARM64RelocationKindName (R : EdgeKind) : Outcome string :=
  match R with
  | Branch26 => Success "Branch26"
  | Pointer64 => Success "Pointer64"
  | Pointer64Anon => Success "Pointer64Anon"
  | Page21 => Success "Page21"
  | PageOffset12 => Success "PageOffset12"
  | GOTPage21 => Success "GOTPage21"
  | GOTPageOffset12 => Success "GOTPageOffset12"
  | PointerToGOT => Success "PointerToGOT"
  | PairedAddend => Success "PairedAddend"
  | LDRLiteral19 => Success "LDRLiteral19"
  | Delta32 => Success "Delta32"
  | Delta64 => Success "Delta64"
  | NegDelta32 => Success "NegDelta32"
  | NegDelta64 => Success "NegDelta64"
  | _ => returned (getGenericEdgeKindName R)
  end.

End KindNames.

(** ** Relocation parser ([MachOLinkGraphBuilder_arm64]) *)

Definition unsupported {A : Type} (RI : relocation_info) : Outcome A :=
  Failure (UnsupportedRelocation (r_address RI) (r_symbolnum RI) (r_type RI)
                                 (r_pcrel RI) (r_extern RI) (r_length RI)).

Definition getRelocationKind (RI : relocation_info) : Outcome EdgeKind :=
  if r_type RI =? ARM64_RELOC_UNSIGNED then
    if negb (r_pcrel RI) then
      if r_length RI =? 3 then
        Success (if r_extern RI then Pointer64 else Pointer64Anon)
      else if r_length RI =? 2 then Success Pointer32
      else unsupported RI
    else unsupported RI
  else if r_type RI =? ARM64_RELOC_SUBTRACTOR then
    if negb (r_pcrel RI) && r_extern RI then
      if r_length RI =? 2 then Success Delta32
      else if r_length RI =? 3 then Success Delta64
      else unsupported RI
    else unsupported RI
  else if r_type RI =? ARM64_RELOC_BRANCH26 then
    if r_pcrel RI && r_extern RI && (r_length RI =? 2) then Success Branch26
    else unsupported RI
  else if r_type RI =? ARM64_RELOC_PAGE21 then
    if r_pcrel RI && r_extern RI && (r_length RI =? 2) then Success Page21
    else unsupported RI
  else if r_type RI =? ARM64_RELOC_PAGEOFF12 then
    if negb (r_pcrel RI) && r_extern RI && (r_length RI =? 2) then Success PageOffset12
    else unsupported RI
  else if r_type RI =? ARM64_RELOC_GOT_LOAD_PAGE21 then
    if r_pcrel RI && r_extern RI && (r_length RI =? 2) then Success GOTPage21
    else unsupported RI
  else if r_type RI =? ARM64_RELOC_GOT_LOAD_PAGEOFF12 then
    if negb (r_pcrel RI) && r_extern RI && (r_length RI =? 2) then Success GOTPageOffset12
    else unsupported RI
  else if r_type RI =? ARM64_RELOC_POINTER_TO_GOT then
    if r_pcrel RI && r_extern RI && (r_length RI =? 2) then Success PointerToGOT
    else unsupported RI
  else if r_type RI =? ARM64_RELOC_ADDEND then
    if negb (r_pcrel RI) && negb (r_extern RI) && (r_length RI =? 2) then Success PairedAddend
    else unsupported RI
  else unsupported RI.

(** The decoding table of section 6.1 of the specification, row by row:
    [(r_type, pcrel, extern, length, kind)], with [None] for the [*] in the
    extern column. *)
Definition decodingTable : list (Z * bool * option bool * Z * EdgeKind) :=
  [ (0, false, Some true, 3, Pointer64);
    (0, false, Some false, 3, Pointer64Anon);
    (0, false, None, 2, Pointer32);
    (1, false, Some true, 2, Delta32);
    (1, false, Some true, 3, Delta64);
    (2, true, Some true, 2, Branch26);
    (3, true, Some true, 2, Page21);
    (4, false, Some true, 2, PageOffset12);
    (5, true, Some true, 2, GOTPage21);
    (6, false, Some true, 2, GOTPageOffset12);
    (7, true, Some true, 2, PointerToGOT);
    (10, false, Some false, 2, PairedAddend) ].

Definition rowMatches (ty : Z) (pcrel extern : bool) (len : Z)
    (row : Z * bool * option bool * Z * EdgeKind) : bool :=
  let '(ty', pcrel', extern', len', _) := row in
  (ty =? ty') && bool_decide (pcrel = pcrel') &&
  match extern' with Some e => bool_decide (extern = e) | None => true end &&
  (len =? len').

Definition tableKind (ty : Z) (pcrel extern : bool) (len : Z) : option EdgeKind :=
  (fun row => snd row) <$> find (rowMatches ty pcrel extern len) decodingTable.

(** *** Graph accessors used by the parser and the applier *)

Definition isDefined (Sym : Symbol) : bool :=
  match s_base Sym with
  | InBlock _ => true
  | External _ => false
  end.

(** [Symbol::getAddress]: the address of the addressable plus the offset. *)
Definition getAddress (G : LinkGraph) (Sym : Symbol) : option Z :=
  match s_base Sym with
  | InBlock b => (fun B => u64 (b_address B + s_offset Sym)) <$> blocks G !! b
  | External x => (fun a => u64 (a + s_offset Sym)) <$> externals G !! x
  end.

Definition symbolAddress (G : LinkGraph) (s : nat) : option Z :=
  symbols G !! s ≫= getAddress G.

Definition pushEdge (E : Edge) (B : Block) : Block :=
  mkBlock (b_section B) (b_content B) (b_address B) (b_alignment B)
          (b_alignmentOffset B) (b_edges B ++ [E]).

(** [Block::addEdge(K, Offset, Target, Addend)] on block [b] of the graph. *)
Definition addEdge (G : LinkGraph) (b : nat) (K : EdgeKind) (Offset : Z)
    (Target : nat) (Addend : Z) : LinkGraph :=
  mkGraph (sections G)
          (alter (pushEdge (mkEdge K (u32 Offset) Target (s64 Addend))) b (blocks G))
          (externals G) (symbols G).

(** A section of the object file as the parser sees it: its address, the
    number of its relocation records ([relocation_end] is the iterator at
    index [nreloc]) and [reloc_data], the 8-byte records that
    [MachOObjectFile::getRelocation] can read from the section's relocation
    offset up to the end of the object buffer. The first [nreloc] of them are
    the section's own. *)
Record ObjSection := mkObjSection {
  os_address : Z;
  nreloc : nat;
  reloc_data : list relocation_info
}.

Section Parser.

(** The naming of the edge kinds that this file does not name. *)
Variable getGenericEdgeKindName : EdgeKind -> option string.

(** Assertions are compiled out when [NDEBUG] is true. *)
Variable NDEBUG : bool.

(** The symbol lookups of the base class [MachOLinkGraphBuilder]: by symbol
    table index and by address. *)
Variable findSymbolByIndex : Z -> option nat.
Variable findSymbolByAddress : Z -> option nat.

Definition symbolByIndex (Index : Z) : Outcome nat :=
  match findSymbolByIndex Index with
  | Some s => Success s
  | None => Failure (NoSymbolForIndex Index)
  end.

Definition symbolByAddress (Address : Z) : Outcome nat :=
  match findSymbolByAddress Address with
  | Some s => Success s
  | None => Failure (NoSymbolForAddress Address)
  end.

(** [getRelocationInfo]: the record under the iterator; a read outside the
    object buffer is a fatal error of the object-file reader. *)
Definition getRelocationInfo (Sec : ObjSection) (RelItr : nat) : Outcome relocation_info :=
  match reloc_data Sec !! RelItr with
  | Some RI => Success RI
  | None => Abort MalformedObject
  end.

(** [Symbol::getBlock] asserts that the symbol's addressable is a block. *)
Definition getBlock (Sym : Symbol) : Outcome nat :=
  match s_base Sym with
  | InBlock b => Success b
  | External _ => Abort (if NDEBUG then BadAccess else AssertionFailed)
  end.

(** Parses paired SUBTRACTOR/UNSIGNED relocations and, on success, returns
    the edge kind, the target symbol and the addend to be used.
    [FixupContent] is the content of the block to fix with the offset of the
    fixup in it. *)
Definition parsePairRelocation (G : LinkGraph) (BlockToFix : nat)
    (SubtractorKind : EdgeKind) (SubRI : relocation_info) (FixupAddress : Z)
    (FixupContent : list Z * Z) (Sec : ObjSection) (UnsignedRelItr RelEnd : nat)
    : Outcome (EdgeKind * nat * Z) :=
  _ ← assert NDEBUG
        (bool_decide (SubtractorKind = Delta32) && (r_length SubRI =? 2) ||
         bool_decide (SubtractorKind = Delta64) && (r_length SubRI =? 3));
  _ ← assert NDEBUG (r_extern SubRI);
  _ ← assert NDEBUG (negb (r_pcrel SubRI));
  if (UnsignedRelItr =? RelEnd)%nat then Failure SubtractorWithoutUnsigned else
  UnsignedRI ← getRelocationInfo Sec UnsignedRelItr;
  if negb (r_address SubRI =? r_address UnsignedRI) then
    Failure SubtractorDifferentAddresses
  else if negb (r_length SubRI =? r_length UnsignedRI) then
    Failure SubtractorLengthMismatch
  else
  from ← symbolByIndex (r_symbolnum SubRI);
  FromSymbol ← access (symbols G !! from);
  (* Read the current fixup value. *)
  FixupValue ← access
    (u64 <$> (if r_length SubRI =? 3
              then readLEs 8 FixupContent.1 FixupContent.2
              else readLEs 4 FixupContent.1 FixupContent.2));
  (* Find 'ToSymbol' using symbol number or address, depending on whether
     the paired UNSIGNED relocation is extern. *)
  '(to, FixupValue) ←
    (if r_extern UnsignedRI then
       to ← symbolByIndex (r_symbolnum UnsignedRI);
       Success (to, FixupValue)
     else
       to ← symbolByAddress FixupValue;
       ToAddress ← access (symbolAddress G to);
       Success (to, u64 (FixupValue - ToAddress)));
  ToSymbol ← access (symbols G !! to);
  if bool_decide (InBlock BlockToFix = s_base FromSymbol) then
    FromAddress ← access (getAddress G FromSymbol);
    Success (if r_length SubRI =? 3 then Delta64 else Delta32, to,
             u64 (FixupValue + u64 (FixupAddress - FromAddress)))
  else if bool_decide (InBlock BlockToFix = s_base ToSymbol) then
    ToAddress ← access (getAddress G ToSymbol);
    Success (if r_length SubRI =? 3 then NegDelta64 else NegDelta32, from,
             u64 (FixupValue - u64 (FixupAddress - ToAddress)))
  else
    (* BlockToFix was neither FromSymbol nor ToSymbol. *)
    Failure SubtractorNotAOrB.

(** The body of the loop over the relocations of a section. It returns the
    graph with the new edge and the iterator as the body leaves it (the
    [++RelItr] of the [for] statement is applied by [relocationLoop]). The
    message of the invalid-pair error is built from the name of the kind of
    the second record. *)
Definition processRelocation (Sec : ObjSection) (RelEnd : nat) (G : LinkGraph)
    (RelItr : nat) : Outcome (LinkGraph * nat) :=
  let SectionAddress := os_address Sec in
  RI ← getRelocationInfo Sec RelItr;
  (* Sanity check the relocation kind. *)
  Kind ← getRelocationKind RI;
  (* Find the address of the value to fix up. *)
  let FixupAddress := u64 (SectionAddress + u32 (r_address RI)) in
  (* Find the block that the fixup points to. *)
  SymbolToFix ← symbolByAddress FixupAddress;
  SymbolToFix' ← access (symbols G !! SymbolToFix);
  BlockToFix ← getBlock SymbolToFix';
  Block' ← access (blocks G !! BlockToFix);
  if u64 (FixupAddress + u64 (Z.shiftl 1 (r_length RI))) >?
     u64 (b_address Block' + Z.of_nat (length (b_content Block')))
  then Failure ContentPastEndOfBlock else
  (* Get a pointer to the fixup content. *)
  let FixupContent := (b_content Block', u64 (FixupAddress - b_address Block')) in
  '(RI, Kind, RelItr, Addend) ←
    (if bool_decide (Kind = PairedAddend) then
       (* If this is an Addend relocation then process it and move to the
          paired reloc. *)
       let Addend := r_symbolnum RI in
       if (RelItr =? RelEnd)%nat then Failure (UnpairedAddend FixupAddress) else
       let RelItr := S RelItr in
       RI ← getRelocationInfo Sec RelItr;
       Kind ← getRelocationKind RI;
       if negb (bool_decide (Kind = Branch26)) && negb (bool_decide (Kind = Page21)) &&
          negb (bool_decide (Kind = PageOffset12))
       then
         KindName ← getMachOARM64RelocationKindName getGenericEdgeKindName Kind;
         Failure (InvalidAddendPair KindName)
       else
       let PairedFixupAddress := u64 (SectionAddress + u32 (r_address RI)) in
       if negb (PairedFixupAddress =? FixupAddress) then Failure PairedDifferentTarget
       else Success (RI, Kind, RelItr, Addend)
     else Success (RI, Kind, RelItr, 0));
  '(Kind, TargetSymbol, Addend, RelItr) ←
    match Kind with
    | Branch26 =>
        TargetSymbol ← symbolByIndex (r_symbolnum RI);
        Instr ← access (readLE 4 FixupContent.1 FixupContent.2);
        if negb (Z.land Instr 0x7fffffff =? 0x14000000) then Failure Branch26NotBranch
        else Success (Kind, TargetSymbol, Addend, RelItr)
    | Pointer32 =>
        TargetSymbol ← symbolByIndex (r_symbolnum RI);
        Addend ← access (readLE 4 FixupContent.1 FixupContent.2);
        Success (Kind, TargetSymbol, Addend, RelItr)
    | Pointer64 =>
        TargetSymbol ← symbolByIndex (r_symbolnum RI);
        Addend ← access (readLE 8 FixupContent.1 FixupContent.2);
        Success (Kind, TargetSymbol, Addend, RelItr)
    | Pointer64Anon =>
        TargetAddress ← access (readLE 8 FixupContent.1 FixupContent.2);
        TargetSymbol ← symbolByAddress TargetAddress;
        SymbolAddress ← access (symbolAddress G TargetSymbol);
        Success (Kind, TargetSymbol, u64 (TargetAddress - SymbolAddress), RelItr)
    | Page21 | GOTPage21 =>
        TargetSymbol ← symbolByIndex (r_symbolnum RI);
        Instr ← access (readLE 4 FixupContent.1 FixupContent.2);
        if negb (Z.land Instr 0xffffffe0 =? 0x90000000) then Failure Page21NotADRP
        else Success (Kind, TargetSymbol, Addend, RelItr)
    | PageOffset12 =>
        TargetSymbol ← symbolByIndex (r_symbolnum RI);
        Success (Kind, TargetSymbol, Addend, RelItr)
    | GOTPageOffset12 =>
        TargetSymbol ← symbolByIndex (r_symbolnum RI);
        Instr ← access (readLE 4 FixupContent.1 FixupContent.2);
        if negb (Z.land Instr 0xfffffc00 =? 0xf9400000) then Failure GOTPageOff12NotLDR
        else Success (Kind, TargetSymbol, Addend, RelItr)
    | PointerToGOT =>
        TargetSymbol ← symbolByIndex (r_symbolnum RI);
        Success (Kind, TargetSymbol, Addend, RelItr)
    | Delta32 | Delta64 =>
        (* We use Delta32/Delta64 to represent SUBTRACTOR relocations.
           parsePairRelocation handles the paired reloc, and returns the
           edge kind to be used along with the addend. *)
        let RelItr := S RelItr in
        '(Kind, TargetSymbol, Addend) ←
          parsePairRelocation G BlockToFix Kind RI FixupAddress FixupContent
                              Sec RelItr RelEnd;
        Success (Kind, TargetSymbol, Addend, RelItr)
    | _ => Abort Unreachable
    end;
  Success (addEdge G BlockToFix Kind (u64 (FixupAddress - b_address Block'))
                   TargetSymbol Addend, RelItr).

(** [for (RelItr = S.relocation_begin(); RelItr != RelEnd; ++RelItr)]. Every
    turn reads the record under the iterator, so [fuel] beyond the number of
    readable records is never used up. *)
Fixpoint relocationLoop (fuel : nat) (Sec : ObjSection) (RelEnd : nat)
    (G : LinkGraph) (RelItr : nat) : Outcome LinkGraph :=
  if (RelItr =? RelEnd)%nat then Success G else
  match fuel with
  | O => Abort OutOfFuel
  | S fuel' =>
      '(G', RelItr') ← processRelocation Sec RelEnd G RelItr;
      relocationLoop fuel' Sec RelEnd G' (S RelItr')
  end.

Definition addSectionRelocations (Sec : ObjSection) (G : LinkGraph) : Outcome LinkGraph :=
  relocationLoop (S (length (reloc_data Sec))) Sec (nreloc Sec) G 0.

(** [addRelocations]: the loop over the sections of the object. *)
Fixpoint addRelocations (Obj : list ObjSection) (G : LinkGraph) : Outcome LinkGraph :=
  match Obj with
  | [] => Success G
  | Sec :: Obj' => G' ← addSectionRelocations Sec G; addRelocations Obj' G'
  end.

End Parser.

(** ** GOT and stubs builder ([MachO_arm64_GOTAndStubsBuilder]) *)

(** *** Graph factories ([LinkGraph], JITLink.h) *)

Definition createSection (G : LinkGraph) (Name : string) (Prot : Z) : LinkGraph * nat :=
  (mkGraph (sections G ++ [mkSection Name Prot]) (blocks G) (externals G) (symbols G),
   length (sections G)).

Definition createContentBlock (G : LinkGraph) (Parent : nat) (Content : list Z)
    (Address Alignment AlignmentOffset : Z) : LinkGraph * nat :=
  (mkGraph (sections G)
           (blocks G ++ [mkBlock Parent Content Address Alignment AlignmentOffset []])
           (externals G) (symbols G),
   length (blocks G)).

Definition addAnonymousSymbol (G : LinkGraph) (Content : nat) (Offset Size : Z)
    (IsCallable IsLive : bool) : LinkGraph * nat :=
  (mkGraph (sections G) (blocks G) (externals G)
           (symbols G ++ [mkSymbol None (InBlock Content) Offset Size IsCallable IsLive]),
   length (symbols G)).

Definition getEdge (G : LinkGraph) (b j : nat) : option Edge :=
  blocks G !! b ≫= fun B => b_edges B !! j.

Definition replaceEdge (j : nat) (E : Edge) (B : Block) : Block :=
  mkBlock (b_section B) (b_content B) (b_address B) (b_alignment B)
          (b_alignmentOffset B) (<[j := E]> (b_edges B)).

(** The in-place update of edge [j] of block [b] ([E.setTarget], [E.setKind]
    through the reference held by the loop over the block's edges). *)
Definition setEdge (G : LinkGraph) (b j : nat) (E : Edge) : LinkGraph :=
  mkGraph (sections G) (alter (replaceEdge j E) b (blocks G)) (externals G) (symbols G).

Definition NullGOTEntryContent : list Z :=
  [0x00; 0x00; 0x00; 0x00; 0x00; 0x00; 0x00; 0x00].

Definition StubContent : list Z :=
  [0x10; 0x00; 0x00; 0x58;  (* LDR x16, <literal> *)
   0x00; 0x02; 0x1f; 0xd6]. (* BR  x16 *)

(** The builder: the graph it works on, its two lazily created sections and
    the per-target caches of the base class. *)
Record Builder := mkBuilder {
  graph : LinkGraph;
  GOTSection : option nat;
  StubsSection : option nat;
  GOTEntries : gmap nat nat;
  Stubs : gmap nat nat
}.

Definition newBuilder (G : LinkGraph) : Builder := mkBuilder G None None ∅ ∅.

Definition withGraph (st : Builder) (G : LinkGraph) : Builder :=
  mkBuilder G (GOTSection st) (StubsSection st) (GOTEntries st) (Stubs st).

Definition isGOTEdge (E : Edge) : bool :=
  bool_decide (e_kind E = GOTPage21) || bool_decide (e_kind E = GOTPageOffset12) ||
  bool_decide (e_kind E = PointerToGOT).

Definition getGOTSection (st : Builder) : Builder * nat :=
  match GOTSection st with
  | Some sec => (st, sec)
  | None =>
      let '(G, sec) := createSection (graph st) "$__GOT" MF_READ in
      (mkBuilder G (Some sec) (StubsSection st) (GOTEntries st) (Stubs st), sec)
  end.

Definition getStubsSection (st : Builder) : Builder * nat :=
  match StubsSection st with
  | Some sec => (st, sec)
  | None =>
      let StubsProt := Z.lor MF_READ MF_EXEC in
      let '(G, sec) := createSection (graph st) "$__STUBS" StubsProt in
      (mkBuilder G (GOTSection st) (Some sec) (GOTEntries st) (Stubs st), sec)
  end.

Definition createGOTEntry (st : Builder) (Target : nat) : Builder * nat :=
  let '(st, sec) := getGOTSection st in
  let '(G, GOTEntryBlock) := createContentBlock (graph st) sec NullGOTEntryContent 0 8 0 in
  let G := addEdge G GOTEntryBlock Pointer64 0 Target 0 in
  let '(G, sym) := addAnonymousSymbol G GOTEntryBlock 0 8 false false in
  (withGraph st G, sym).

Definition fixGOTEdge (E : Edge) (GOTEntry : nat) : Outcome Edge :=
  if bool_decide (e_kind E = GOTPage21) || bool_decide (e_kind E = GOTPageOffset12) then
    (* Update the target, but leave the edge addend as-is. *)
    Success (setTarget E GOTEntry)
  else if bool_decide (e_kind E = PointerToGOT) then
    Success (setKind (setTarget E GOTEntry) Delta32)
  else Abort Unreachable.

Definition isExternalBranchEdge (G : LinkGraph) (E : Edge) : Outcome bool :=
  if bool_decide (e_kind E = Branch26) then
    Target ← access (symbols G !! e_target E);
    Success (negb (isDefined Target))
  else Success false.

(** Modelled from the spec: [getGOTEntrySymbol] of the base class
    [BasicGOTAndStubsBuilder] (BasicGOTAndStubsBuilder.h), which is not part
    of this file. Section 4.2: the builder "maintains a per-target cache:
    target-symbol -> GOT-entry-symbol" and for each GOT edge does
    "obtain-or-create a GOT entry". *)
Definition getGOTEntrySymbol (st : Builder) (Target : nat) : Builder * nat :=
  match GOTEntries st !! Target with
  | Some GOTEntry => (st, GOTEntry)
  | None =>
      let '(st, GOTEntry) := createGOTEntry st Target in
      (mkBuilder (graph st) (GOTSection st) (StubsSection st)
                 (<[Target := GOTEntry]> (GOTEntries st)) (Stubs st),
       GOTEntry)
  end.

Definition createStub (st : Builder) (Target : nat) : Builder * nat :=
  let '(st, sec) := getStubsSection st in
  let '(G, StubContentBlock) := createContentBlock (graph st) sec StubContent 0 1 0 in
  let st := withGraph st G in
  (* Re-use GOT entries for stub targets. *)
  let '(st, GOTEntrySymbol) := getGOTEntrySymbol st Target in
  let G := addEdge (graph st) StubContentBlock LDRLiteral19 0 GOTEntrySymbol 0 in
  let '(G, sym) := addAnonymousSymbol G StubContentBlock 0 8 true false in
  (withGraph st G, sym).

Section BuilderRun.

Variable NDEBUG : bool.

Definition fixExternalBranchEdge (E : Edge) (Stub : nat) : Outcome Edge :=
  _ ← assert NDEBUG (bool_decide (e_kind E = Branch26));
  _ ← assert NDEBUG (e_addend E =? 0);
  Success (setTarget E Stub).

(** Modelled from the spec: [getStubSymbol] of the base class
    [BasicGOTAndStubsBuilder]. Section 4.2: a per-target cache
    "target-symbol -> stub-symbol"; for each external branch,
    "obtain-or-create a stub". *)
Definition getStubSymbol (st : Builder) (Target : nat) : Builder * nat :=
  match Stubs st !! Target with
  | Some Stub => (st, Stub)
  | None =>
      let '(st, Stub) := createStub st Target in
      (mkBuilder (graph st) (GOTSection st) (StubsSection st)
                 (GOTEntries st) (<[Target := Stub]> (Stubs st)),
       Stub)
  end.

(** Modelled from the spec: what [BasicGOTAndStubsBuilder::run] does with
    edge [j] of block [b]. Section 4.2: a GOT edge is retargeted to the GOT
    entry of its target, an external branch to the stub of its target. *)
Definition fixEdge (b j : nat) (st : Builder) : Outcome Builder :=
  E ← access (getEdge (graph st) b j);
  if isGOTEdge E then
    let '(st, GOTEntry) := getGOTEntrySymbol st (e_target E) in
    E' ← fixGOTEdge E GOTEntry;
    Success (withGraph st (setEdge (graph st) b j E'))
  else
    ext ← isExternalBranchEdge (graph st) E;
    if ext : bool then
      let '(st, Stub) := getStubSymbol st (e_target E) in
      E' ← fixExternalBranchEdge E Stub;
      Success (withGraph st (setEdge (graph st) b j E'))
    else Success st.

Fixpoint forEach {A : Type} (f : A -> Builder -> Outcome Builder) (l : list A)
    (st : Builder) : Outcome Builder :=
  match l with
  | [] => Success st
  | a :: l' => st' ← f a st; forEach f l' st'
  end.

(** Modelled from the spec: the inner loop of [BasicGOTAndStubsBuilder::run]
    over the edges of block [b]. *)
Definition fixBlock (b : nat) (st : Builder) : Outcome Builder :=
  B ← access (blocks (graph st) !! b);
  forEach (fixEdge b) (seq 0 (length (b_edges B))) st.

(** Modelled from the spec: [BasicGOTAndStubsBuilder::run]. Section 4.2:
    "Scans every edge of every block." The blocks scanned are those present
    when the pass starts; the blocks the pass creates carry only [Pointer64]
    and [LDRLiteral19] edges, which are neither GOT edges nor branches. *)
Definition run (st : Builder) : Outcome Builder :=
  forEach fixBlock (seq 0 (length (blocks (graph st)))) st.

(** The pass that [jitLink_MachO_arm64] installs in the post-prune stage. *)
Definition GOTAndStubsPass (G : LinkGraph) : Outcome LinkGraph :=
  st ← run (newBuilder G); Success (graph st).

End BuilderRun.

(** *** What the pass creates *)

(** The anonymous symbols that [createGOTEntry] and [createStub] add for
    block [k], and the blocks themselves once their edge has been added. *)
Definition GOTEntrySymbol (k : nat) : Symbol := mkSymbol None (InBlock k) 0 8 false false.
Definition StubSymbol (k : nat) : Symbol := mkSymbol None (InBlock k) 0 8 true false.
Definition GOTEntryBlock (sec Target : nat) : Block :=
  mkBlock sec NullGOTEntryContent 0 8 0 [mkEdge Pointer64 0 Target 0].
Definition StubBlock (sec GOTEntry : nat) : Block :=
  mkBlock sec StubContent 0 1 0 [mkEdge LDRLiteral19 0 GOTEntry 0].

(** The sections that [getGOTSection] and [getStubsSection] create. *)
Definition GOTSectionDecl : Section := mkSection "$__GOT" MF_READ.
Definition StubsSectionDecl : Section := mkSection "$__STUBS" (Z.lor MF_READ MF_EXEC).

(** The indices held by the graph are in range: the section of every block,
    the target of every edge and the addressable of every symbol exist. In
    the C++ code these are references to live objects. *)
Definition wellFormed (G : LinkGraph) : bool :=
  forallb (fun B =>
             (b_section B <? length (sections G))%nat &&
             forallb (fun E => (e_target E <? length (symbols G))%nat) (b_edges B))
          (blocks G) &&
  forallb (fun Sym =>
             match s_base Sym with
             | InBlock b => (b <? length (blocks G))%nat
             | External x => (x <? length (externals G))%nat
             end)
          (symbols G).

(** Every [Branch26] edge to an undefined symbol (the edges that the pass
    hands to [fixExternalBranchEdge]) has the zero addend that the function
    asserts. *)
Definition externalBranchAddendsZero (G : LinkGraph) : bool :=
  forallb (fun B =>
             forallb (fun E =>
                        match isExternalBranchEdge G E with
                        | Success true => e_addend E =? 0
                        | _ => true
                        end)
                     (b_edges B))
          (blocks G).

(** A GOT entry block for [Target]: a block of the builder's [$__GOT]
    section with eight zero bytes and a single [Pointer64] edge at offset 0,
    addend 0, to [Target]. *)
Definition isGOTEntryBlock (st : Builder) (k Target : nat) : Prop :=
  exists sec, GOTSection st = Some sec /\
    sections (graph st) !! sec = Some GOTSectionDecl /\
    blocks (graph st) !! k = Some (GOTEntryBlock sec Target).

(** A GOT entry for [Target]: the anonymous symbol of a GOT entry block. *)
Definition isGOTEntry (st : Builder) (entry Target : nat) : Prop :=
  exists k, symbols (graph st) !! entry = Some (GOTEntrySymbol k) /\
            isGOTEntryBlock st k Target.

(** A stub for [Target]: the anonymous symbol of a block of the builder's
    [$__STUBS] section that holds [StubContent] and has a single
    [LDRLiteral19] edge at offset 0, addend 0, to a GOT entry for [Target]. *)
Definition isStub (st : Builder) (stub Target : nat) : Prop :=
  exists k sec entry, StubsSection st = Some sec /\
    sections (graph st) !! sec = Some StubsSectionDecl /\
    symbols (graph st) !! stub = Some (StubSymbol k) /\
    blocks (graph st) !! k = Some (StubBlock sec entry) /\
    isGOTEntry st entry Target.

(** *** The invariant of the pass *)

Section BuilderInvariant.

Variable G0 : LinkGraph.

(** The cache maps target [t] to the entry symbol [ge] of the GOT entry
    block [k], both made by the builder. *)
Definition GOTSlot (st : Builder) (t ge k : nat) : Prop :=
  GOTEntries st !! t = Some ge /\
  symbols (graph st) !! ge = Some (GOTEntrySymbol k) /\
  (exists sec, GOTSection st = Some sec /\
               blocks (graph st) !! k = Some (GOTEntryBlock sec t)) /\
  (length (blocks G0) <= k)%nat /\ (length (symbols G0) <= ge)%nat.

(** The cache maps target [t] to the symbol [s] of the stub block [k], whose
    edge goes to the cached GOT entry of [t]. *)
Definition StubSlot (st : Builder) (t s k : nat) : Prop :=
  Stubs st !! t = Some s /\
  symbols (graph st) !! s = Some (StubSymbol k) /\
  (exists sec ge, StubsSection st = Some sec /\ GOTEntries st !! t = Some ge /\
                  blocks (graph st) !! k = Some (StubBlock sec ge)) /\
  (length (blocks G0) <= k)%nat /\ (length (symbols G0) <= s)%nat.

(** The invariant of the builder; [pending] is the stub block that
    [createStub] has created and not yet given its edge and symbol. *)
Record BuilderInv (pending : option nat) (st : Builder) : Prop := {
  inv_got_section : forall sec, GOTSection st = Some sec ->
    (length (sections G0) <= sec)%nat /\ sections (graph st) !! sec = Some GOTSectionDecl;
  inv_stubs_section : forall sec, StubsSection st = Some sec ->
    (length (sections G0) <= sec)%nat /\ sections (graph st) !! sec = Some StubsSectionDecl;
  inv_sections_len : (length (sections G0) <= length (sections (graph st)))%nat;
  inv_blocks_len : (length (blocks G0) <= length (blocks (graph st)))%nat;
  inv_symbols_len : (length (symbols G0) <= length (symbols (graph st)))%nat;
  inv_symbols_old : forall i, (i < length (symbols G0))%nat ->
    symbols (graph st) !! i = symbols G0 !! i;
  inv_blocks_old : forall b B0, blocks G0 !! b = Some B0 ->
    exists B, blocks (graph st) !! b = Some B /\ b_section B = b_section B0 /\
              length (b_edges B) = length (b_edges B0);
  inv_externals : externals (graph st) = externals G0;
  inv_got : forall t ge, GOTEntries st !! t = Some ge -> exists k, GOTSlot st t ge k;
  inv_stubs : forall t s, Stubs st !! t = Some s -> exists k, StubSlot st t s k;
  inv_blocks_new : forall k, (length (blocks G0) <= k < length (blocks (graph st)))%nat ->
    pending = Some k \/ (exists t ge, GOTSlot st t ge k) \/ (exists t s, StubSlot st t s k);
  inv_symbols_new : forall i, (length (symbols G0) <= i < length (symbols (graph st)))%nat ->
    (exists t k, GOTSlot st t i k) \/ (exists t k, StubSlot st t i k)
}.

(** What the pass makes of the edge [E0] of the input graph. *)
Definition finalEdge (st : Builder) (E0 E : Edge) : Prop :=
  if isGOTEdge E0 then
    exists ge, GOTEntries st !! e_target E0 = Some ge /\
      E = mkEdge (if bool_decide (e_kind E0 = PointerToGOT) then Delta32 else e_kind E0)
                 (e_offset E0) ge (e_addend E0)
  else
    match isExternalBranchEdge G0 E0 with
    | Success true => exists s, Stubs st !! e_target E0 = Some s /\ E = setTarget E0 s
    | _ => E = E0
    end.

(** Edge [j'] of block [b'] comes before edge [j] of block [b] in the scan. *)
Definition doneBefore (b j b' j' : nat) : bool :=
  (b' <? b)%nat || ((b' =? b)%nat && (j' <? j)%nat).

(** The edges of the input graph when the scan stands at edge [j] of block
    [b]: those before it are final, the others are as they were. *)
Definition EdgesInv (b j : nat) (st : Builder) : Prop :=
  forall b' j' E0, getEdge G0 b' j' = Some E0 ->
    exists E, getEdge (graph st) b' j' = Some E /\
              if doneBefore b j b' j' then finalEdge st E0 E else E = E0.

(** [st'] keeps the caches, the sections, the symbols and the blocks made by
    the builder that [st] has, except perhaps block [x]. *)
Definition extends (x : option nat) (st st' : Builder) : Prop :=
  (forall t ge, GOTEntries st !! t = Some ge -> GOTEntries st' !! t = Some ge) /\
  (forall t s, Stubs st !! t = Some s -> Stubs st' !! t = Some s) /\
  (forall sec, GOTSection st = Some sec -> GOTSection st' = Some sec) /\
  (forall sec, StubsSection st = Some sec -> StubsSection st' = Some sec) /\
  (forall sec S, sections (graph st) !! sec = Some S -> sections (graph st') !! sec = Some S) /\
  (forall k B, (length (blocks G0) <= k)%nat -> x <> Some k ->
     blocks (graph st) !! k = Some B -> blocks (graph st') !! k = Some B) /\
  (forall i S, symbols (graph st) !! i = Some S -> symbols (graph st') !! i = Some S).

End BuilderInvariant.

(** ** Fixup applier ([MachOJITLinker_arm64]) *)

Definition getPageOffset12Shift (Instr : Z) : Z :=
  let LDRLiteralMask := 0x3ffffc00 in
  (* Check for a GPR LDR immediate with a zero embedded literal.
     If found, the top two bits contain the shift. *)
  if Z.land Instr LDRLiteralMask =? 0x39400000 then Z.shiftr Instr 30
  (* Check for a Neon LDR immediate of size 64-bit or less with a zero
     embedded literal. If found, the top two bits contain the shift. *)
  else if Z.land Instr LDRLiteralMask =? 0x3d400000 then Z.shiftr Instr 30
  else
    (* Check for a Neon LDR immediate of size 128-bit with a zero embedded
       literal. *)
    let SizeBitsMask := 0xc0000000 in
    if Z.land Instr (Z.lor LDRLiteralMask SizeBitsMask) =? 0x3dc00000 then 4
    else 0.

Section Applier.

Variable getGenericEdgeKindName : EdgeKind -> option string.
Variable NDEBUG : bool.

(** [targetOutOfRangeError(B, E)]: the message prints the edge of the block
    with the name of its kind. *)
Definition targetOutOfRangeError {A : Type} (b : nat) (E : Edge) : Outcome A :=
  _ ← getMachOARM64RelocationKindName getGenericEdgeKindName (e_kind E);
  Failure (TargetOutOfRange b E).

(** [applyFixup(B, E, BlockWorkingMem)] for the block with index [b] of the
    graph; the result is the working memory after the store. *)
Definition applyFixup (G : LinkGraph) (b : nat) (E : Edge)
    (BlockWorkingMem : list Z) : Outcome (list Z) :=
  B ← access (blocks G !! b);
  let FixupPtr := e_offset E in
  let FixupAddress := u64 (b_address B + e_offset E) in
  let TargetAddress := access (symbolAddress G (e_target E)) in
  match e_kind E with
  | Branch26 =>
      _ ← assert NDEBUG (Z.land FixupAddress 0x3 =? 0);
      T ← TargetAddress;
      let Value := s64 (T - FixupAddress + e_addend E) in
      if negb (Z.land (u64 Value) 0x3 =? 0) then Failure Branch26Misaligned else
      if (Value <? - Z.shiftl 1 27) || (Value >? Z.shiftl 1 27 - 1)
      then targetOutOfRangeError b E else
      RawInstr ← access (u32 <$> readLEs 4 BlockWorkingMem FixupPtr);
      _ ← assert NDEBUG (Z.land RawInstr 0x7fffffff =? 0x14000000);
      let Imm := Z.shiftr (Z.land (u32 Value) (Z.shiftl 1 28 - 1)) 2 in
      let FixedInstr := Z.lor RawInstr Imm in
      access (writeLE 4 BlockWorkingMem FixupPtr FixedInstr)
  | Pointer32 =>
      T ← TargetAddress;
      let Value := u64 (T + e_addend E) in
      if Value >? 0xffffffff then targetOutOfRangeError b E else
      access (writeLE 4 BlockWorkingMem FixupPtr Value)
  | Pointer64 =>
      T ← TargetAddress;
      let Value := u64 (T + e_addend E) in
      access (writeLE 8 BlockWorkingMem FixupPtr Value)
  | Page21 | GOTPage21 =>
      _ ← assert NDEBUG (e_addend E =? 0);
      T ← TargetAddress;
      let TargetPage := Z.land T (u64 (Z.lnot (4096 - 1))) in
      let PCPage := Z.land (b_address B) (u64 (Z.lnot (4096 - 1))) in
      let PageDelta := s64 (TargetPage - PCPage) in
      if (PageDelta <? - Z.shiftl 1 30) || (PageDelta >? Z.shiftl 1 30 - 1)
      then targetOutOfRangeError b E else
      RawInstr ← access (readLE 4 BlockWorkingMem FixupPtr);
      _ ← assert NDEBUG (Z.land RawInstr 0xffffffe0 =? 0x90000000);
      let ImmLo := u32 (Z.land (Z.shiftr (u64 PageDelta) 12) 0x3) in
      let ImmHi := u32 (Z.land (Z.shiftr (u64 PageDelta) 14) 0x7ffff) in
      let FixedInstr :=
        Z.lor (Z.lor RawInstr (u32 (Z.shiftl ImmLo 29))) (u32 (Z.shiftl ImmHi 5)) in
      access (writeLE 4 BlockWorkingMem FixupPtr FixedInstr)
  | PageOffset12 =>
      _ ← assert NDEBUG (e_addend E =? 0);
      T ← TargetAddress;
      let TargetOffset := Z.land T 0xfff in
      RawInstr ← access (readLE 4 BlockWorkingMem FixupPtr);
      let ImmShift := getPageOffset12Shift RawInstr in
      if negb (Z.land TargetOffset (Z.shiftl 1 ImmShift - 1) =? 0)
      then Failure PageOff12Misaligned else
      let EncodedImm := u32 (Z.shiftl (Z.shiftr TargetOffset ImmShift) 10) in
      let FixedInstr := Z.lor RawInstr EncodedImm in
      access (writeLE 4 BlockWorkingMem FixupPtr FixedInstr)
  | GOTPageOffset12 =>
      _ ← assert NDEBUG (e_addend E =? 0);
      T ← TargetAddress;
      let TargetOffset := Z.land T 0xfff in
      RawInstr ← access (readLE 4 BlockWorkingMem FixupPtr);
      _ ← assert NDEBUG (Z.land RawInstr 0xfffffc00 =? 0xf9400000);
      let FixedInstr := u32 (Z.lor RawInstr (u64 (Z.shiftl TargetOffset 10))) in
      access (writeLE 4 BlockWorkingMem FixupPtr FixedInstr)
  | LDRLiteral19 =>
      _ ← assert NDEBUG (Z.land FixupAddress 0x3 =? 0);
      _ ← assert NDEBUG (e_addend E =? 0);
      RawInstr ← access (readLE 4 BlockWorkingMem FixupPtr);
      _ ← assert NDEBUG (RawInstr =? 0x58000010);
      T ← TargetAddress;
      let Delta := s64 (T - FixupAddress) in
      if negb (Z.land Delta 0x3 =? 0) then Failure LDRLiteralMisaligned else
      if (Delta <? - Z.shiftl 1 20) || (Delta >? Z.shiftl 1 20 - 1)
      then targetOutOfRangeError b E else
      let EncodedImm := u32 (Z.shiftl (Z.shiftr (u32 Delta) 2) 5) in
      let FixedInstr := Z.lor RawInstr EncodedImm in
      access (writeLE 4 BlockWorkingMem FixupPtr FixedInstr)
  | Delta32 | Delta64 | NegDelta32 | NegDelta64 =>
      T ← TargetAddress;
      let Value :=
        if bool_decide (e_kind E = Delta32) || bool_decide (e_kind E = Delta64)
        then s64 (T - FixupAddress + e_addend E)
        else s64 (FixupAddress - T + e_addend E) in
      if bool_decide (e_kind E = Delta32) || bool_decide (e_kind E = NegDelta32) then
        if (Value <? - 2 ^ 31) || (Value >? 2 ^ 31 - 1)
        then targetOutOfRangeError b E
        else access (writeLE 4 BlockWorkingMem FixupPtr Value)
      else access (writeLE 8 BlockWorkingMem FixupPtr Value)
  | _ => Abort Unreachable
  end.

End Applier.

(** *** How a run can stop *)

(** [o] is a value, an error that satisfies [P], or an abnormal end that
    satisfies [Q]. *)
Definition stopsOnly {A : Type} (P : JITLinkError -> Prop) (Q : AbortReason -> Prop)
    (o : Outcome A) : Prop :=
  match o with
  | Success _ => True
  | Failure e => P e
  | Abort r => Q r
  end.

Definition notUnpairedAddend (e : JITLinkError) : Prop :=
  match e with
  | UnpairedAddend _ => False
  | _ => True
  end.

Definition notOutOfFuel (r : AbortReason) : Prop :=
  match r with
  | OutOfFuel => False
  | _ => True
  end.

Definition notBadInstr (e : JITLinkError) : Prop :=
  match errorKind e with
  | BadInstr => False
  | _ => True
  end.

(** *** Comparing two runs of the applier *)

(** Two outcomes have the same effect when both store the same bytes, or
    both fail with an error of the same kind (the message of a range error
    prints the edge), or both end abnormally in the same way. *)
Definition sameEffect (o1 o2 : Outcome (list Z)) : Prop :=
  match o1, o2 with
  | Success m1, Success m2 => m1 = m2
  | Failure e1, Failure e2 => errorKind e1 = errorKind e2
  | Abort r1, Abort r2 => r1 = r2
  | _, _ => False
  end.

(** The word that [applyFixup] stores for the page kinds, read off its
    [Page21]/[GOTPage21], [PageOffset12] and [GOTPageOffset12] cases as a
    function of the target address, the address of the source block and the
    instruction word; [None] where the applier returns an error. *)
Definition pageFixupWord (K : EdgeKind) (T BlockAddress I : Z) : option Z :=
  match K with
  | Page21 | GOTPage21 =>
      let PageDelta :=
        s64 (Z.land T (u64 (Z.lnot (4096 - 1))) -
             Z.land BlockAddress (u64 (Z.lnot (4096 - 1)))) in
      if (PageDelta <? - Z.shiftl 1 30) || (PageDelta >? Z.shiftl 1 30 - 1) then None
      else
        let ImmLo := u32 (Z.land (Z.shiftr (u64 PageDelta) 12) 0x3) in
        let ImmHi := u32 (Z.land (Z.shiftr (u64 PageDelta) 14) 0x7ffff) in
        Some (Z.lor (Z.lor I (u32 (Z.shiftl ImmLo 29))) (u32 (Z.shiftl ImmHi 5)))
  | PageOffset12 =>
      let TargetOffset := Z.land T 0xfff in
      let ImmShift := getPageOffset12Shift I in
      if negb (Z.land TargetOffset (Z.shiftl 1 ImmShift - 1) =? 0) then None
      else Some (Z.lor I (u32 (Z.shiftl (Z.shiftr TargetOffset ImmShift) 10)))
  | GOTPageOffset12 =>
      Some (u32 (Z.lor I (u64 (Z.shiftl (Z.land T 0xfff) 10))))
  | _ => None
  end.

Definition isDeltaKind (K : EdgeKind) : bool :=
  bool_decide (K = Delta32) || bool_decide (K = Delta64) ||
  bool_decide (K = NegDelta32) || bool_decide (K = NegDelta64).

Definition isPageKind (K : EdgeKind) : bool :=
  bool_decide (K = Page21) || bool_decide (K = GOTPage21) ||
  bool_decide (K = PageOffset12) || bool_decide (K = GOTPageOffset12).

(** ** What a run of the parser changes *)

(** [B'] is [B] with edges added at the end. *)
Definition keepsBlock (B B' : Block) : Prop :=
  b_section B' = b_section B /\ b_content B' = b_content B /\
  b_address B' = b_address B /\ b_alignment B' = b_alignment B /\
  b_alignmentOffset B' = b_alignmentOffset B /\
  exists new, b_edges B' = b_edges B ++ new.

(** [G'] is [G] with edges added to some of its blocks. *)
Definition addsEdgesOnly (G G' : LinkGraph) : Prop :=
  sections G' = sections G /\ externals G' = externals G /\ symbols G' = symbols G /\
  length (blocks G') = length (blocks G) /\
  forall b B, blocks G !! b = Some B ->
    exists B', blocks G' !! b = Some B' /\ keepsBlock B B'.

(** The number of edges of the graph. *)
Definition edgeCount (G : LinkGraph) : nat :=
  foldr (fun B n => (length (b_edges B) + n)%nat) 0%nat (blocks G).

(** The section with the records between [relocation_begin] and
    [relocation_end] only. *)
Definition ownRecords (Sec : ObjSection) : ObjSection :=
  mkObjSection (os_address Sec) (nreloc Sec) (take (nreloc Sec) (reloc_data Sec)).

(** The kinds whose relocation takes a second record: an ADDEND and the two
    kinds that stand for a SUBTRACTOR. *)
Definition takesTwoRecords (K : EdgeKind) : bool :=
  bool_decide (K = PairedAddend) || bool_decide (K = Delta32) || bool_decide (K = Delta64).

(** The number of bytes of a fixup of kind [K]: [1 << r_length] of the
    records that [getRelocationKind] maps to [K], and the width of the store
    of [applyFixup] for [K]. *)
Definition fixupSize (K : EdgeKind) : Z :=
  match K with
  | Pointer64 | Pointer64Anon | Delta64 | NegDelta64 => 8
  | _ => 4
  end.

(** What the parser relies on from the symbol lookups of the base class
    ([MachOLinkGraphBuilder]): a symbol found by index is a symbol of the
    graph with an address; a symbol found by address is defined, and the
    address lies in its block. *)
Definition soundLookups (fbi fba : Z -> option nat) (G : LinkGraph) : Prop :=
  (forall i s, fbi i = Some s -> is_Some (symbolAddress G s)) /\
  (forall a s, fba a = Some s ->
     exists Sym b B, symbols G !! s = Some Sym /\ s_base Sym = InBlock b /\
       blocks G !! b = Some B /\
       b_address B <= a < b_address B + Z.of_nat (length (b_content B))).

(** The block lies in the 64-bit address space, with room for the eight
    bytes that the test of the fixup extent adds to an address in it, and
    its content is shorter than [2^32] bytes (edge offsets are [uint32_t]). *)
Definition blockFits (B : Block) : bool :=
  (0 <=? b_address B) &&
  (b_address B + Z.of_nat (length (b_content B)) + 8 <=? 2 ^ 64) &&
  (Z.of_nat (length (b_content B)) <? 2 ^ 32).

Definition blocksFit (G : LinkGraph) : bool := forallb blockFits (blocks G).

(** The fixup of edge [E] lies inside the content of block [B]. *)
Definition edgeFits (B : Block) (E : Edge) : bool :=
  (0 <=? e_offset E) &&
  (e_offset E + fixupSize (e_kind E) <=? Z.of_nat (length (b_content B))).

Definition edgesFit (G : LinkGraph) : bool :=
  forallb (fun B => forallb (edgeFits B) (b_edges B)) (blocks G).

(** ** A small object used to exercise the definitions *)

Module Example.

(** Block 0 at [0x1000] holds four instructions: [BL] (0x94000000), [ADRP]
    (0x90000000), a 64-bit [LDR] immediate (0xf9400000) and an [LDR] literal
    (0x58000010). Blocks 1 to 4 are data; symbol 5 is external. *)
Definition text : list Z :=
  [0x00; 0x00; 0x00; 0x94;
   0x00; 0x00; 0x00; 0x90;
   0x00; 0x00; 0x40; 0xf9;
   0x10; 0x00; 0x00; 0x58].

Definition G : LinkGraph :=
  mkGraph
    [mkSection "__text" (Z.lor MF_READ MF_EXEC); mkSection "__data" (Z.lor MF_READ MF_WRITE)]
    [mkBlock 0 text 0x1000 4 0 [];
     mkBlock 1 [0; 0; 0; 0; 0; 0; 0; 0] 0x1100 8 0 [];
     mkBlock 1 [0; 0; 0; 0; 0; 0; 0; 0; 0; 0; 0; 0; 0; 0; 0; 0] 0x3ff0 8 0 [];
     mkBlock 1 [0; 0; 0; 0] 0x8000fff 1 0 [];
     mkBlock 1 [4; 0; 0; 0; 0; 0; 0; 0] 0x1040 8 0 []]
    [0]
    [mkSymbol (Some "f") (InBlock 0) 0 16 true true;
     mkSymbol (Some "a") (InBlock 1) 0 8 false true;
     mkSymbol (Some "d") (InBlock 2) 9 7 false true;
     mkSymbol (Some "far") (InBlock 3) 0 4 false true;
     mkSymbol (Some "b") (InBlock 4) 0 8 false true;
     mkSymbol (Some "bar") (External 0) 0 0 false true].

(** The generic naming of the examples has no name for a relocation kind. *)
Definition getGenericEdgeKindName (K : EdgeKind) : option string := None.

Definition findSymbolByIndex (Index : Z) : option nat :=
  if (0 <=? Index) && (Index <? 6) then Some (Z.to_nat Index) else None.

Definition findSymbolByAddress (Address : Z) : option nat :=
  if (0x1000 <=? Address) && (Address <? 0x1010) then Some 0%nat
  else if (0x1100 <=? Address) && (Address <? 0x1108) then Some 1%nat
  else if (0x3ff9 <=? Address) && (Address <? 0x4000) then Some 2%nat
  else if (0x8000fff <=? Address) && (Address <? 0x8001003) then Some 3%nat
  else if (0x1040 <=? Address) && (Address <? 0x1048) then Some 4%nat
  else None.

(** Relocation records: [ADDEND] with addend 0x10, [BRANCH26], [PAGE21] and
    [PAGEOFF12] against symbol 1, [SUBTRACTOR] against symbol 0 and
    [UNSIGNED] against symbol 4. *)
Definition addendAt (address : Z) : relocation_info :=
  mkRI address 0x10 false 2 false ARM64_RELOC_ADDEND.
Definition branch26At (address : Z) : relocation_info :=
  mkRI address 1 true 2 true ARM64_RELOC_BRANCH26.
Definition page21At (address : Z) : relocation_info :=
  mkRI address 1 true 2 true ARM64_RELOC_PAGE21.
Definition pageoff12At (address : Z) : relocation_info :=
  mkRI address 1 false 2 true ARM64_RELOC_PAGEOFF12.
Definition subtractorAt (address len : Z) : relocation_info :=
  mkRI address 0 false len true ARM64_RELOC_SUBTRACTOR.
Definition unsignedAt (address len : Z) : relocation_info :=
  mkRI address 4 false len true ARM64_RELOC_UNSIGNED.

(** A section at [0x1040] (block 4) with a SUBTRACTOR/UNSIGNED pair of
    length 2 at its start: [b - f] with the addend 4 in the content. *)
Definition pairSection : ObjSection :=
  mkObjSection 0x1040 2 [subtractorAt 0 2; unsignedAt 0 2].

(** A section at [0x1000] (block 0) whose only relocation record is an
    ADDEND; the record that follows it in the object buffer belongs to the
    next section. *)
Definition loneAddendSection : ObjSection :=
  mkObjSection 0x1000 1 [addendAt 0; branch26At 0].

(** The graph after [ADDEND] + [PAGE21] at offset 4: a [Page21] edge that
    carries the addend 0x10. *)
Definition Gpage : LinkGraph := addEdge G 0 Page21 4 1 0x10.

(** The graph with a branch to the external symbol 5, a [GOTPage21] and a
    [GOTPageOffset12] edge to it, and a [PointerToGOT] edge to symbol 1. *)
Definition Gpass : LinkGraph :=
  addEdge
    (addEdge (addEdge (addEdge G 0 Branch26 0 5 0) 0 GOTPage21 4 5 0)
             0 GOTPageOffset12 8 5 0)
    1 PointerToGOT 0 1 0.

End Example.

Module PointerExample.

(** The example graph with the address of [d + 2] ([0x3ffb]) stored in
    block 1. *)
Definition Gptr : LinkGraph :=
  mkGraph (sections Example.G)
          (<[1%nat := mkBlock 1 [0xfb; 0x3f; 0; 0; 0; 0; 0; 0] 0x1100 8 0 []]>
             (blocks Example.G))
          (externals Example.G) (symbols Example.G).

(** An [UNSIGNED] record of length 3 at [address]: extern against symbol 1,
    or not extern. *)
Definition pointer64At (address : Z) : relocation_info :=
  mkRI address 1 false 3 true ARM64_RELOC_UNSIGNED.
Definition pointer64AnonAt (address : Z) : relocation_info :=
  mkRI address 0 false 3 false ARM64_RELOC_UNSIGNED.

End PointerExample.

(** * Properties *)

(** ** Machine integers and memory *)

Section IntFacts.

Lemma wrap_range w x : 0 <= w -> 0 <= wrap w x < 2 ^ w.
Proof. intros Hw. unfold wrap. apply Z.mod_pos_bound. apply Z.pow_pos_nonneg; lia. Qed.

Lemma wrap_small w x : 0 <= x < 2 ^ w -> wrap w x = x.
Proof. intros H. unfold wrap. apply Z.mod_small. exact H. Qed.

Lemma wrap_land w x : 0 <= w -> wrap w x = Z.land x (Z.ones w).
Proof. intros Hw. unfold wrap. rewrite Z.land_ones by lia. reflexivity. Qed.

Lemma signed_eqm w x : 0 < w -> wrap w (signed w x) = wrap w x.
Proof.
  intros Hw. unfold signed.
  destruct (wrap w x <? 2 ^ (w - 1)).
  - unfold wrap. apply Zmod_mod.
  - unfold wrap. rewrite Zminus_mod, Z_mod_same_full, Z.sub_0_r, !Zmod_mod. reflexivity.
Qed.

Lemma signed_range w x : 0 < w -> - 2 ^ (w - 1) <= signed w x < 2 ^ (w - 1).
Proof.
  intros Hw. unfold signed.
  pose proof (wrap_range w x ltac:(lia)) as Hr.
  assert (2 ^ w = 2 * 2 ^ (w - 1)) as Hp.
  { replace w with (1 + (w - 1)) at 1 by lia. rewrite Z.pow_add_r by lia. reflexivity. }
  destruct (Z.ltb_spec (wrap w x) (2 ^ (w - 1))); lia.
Qed.

Lemma signed_small w x : 0 < w -> - 2 ^ (w - 1) <= x < 2 ^ (w - 1) -> signed w x = x.
Proof.
  intros Hw Hx. unfold signed, wrap.
  assert (2 ^ w = 2 * 2 ^ (w - 1)) as Hp.
  { replace w with (1 + (w - 1)) at 1 by lia. rewrite Z.pow_add_r by lia. reflexivity. }
  destruct (Z.lt_ge_cases x 0) as [Hneg|Hpos].
  - replace (x mod 2 ^ w) with (x + 2 ^ w).
    + destruct (Z.ltb_spec (x + 2 ^ w) (2 ^ (w - 1))); lia.
    + apply Z.mod_unique with (q := -1); lia.
  - rewrite Z.mod_small by lia.
    destruct (Z.ltb_spec x (2 ^ (w - 1))); lia.
Qed.

Lemma u64_s64 x : u64 (s64 x) = u64 x.
Proof. apply signed_eqm. lia. Qed.

Lemma u32_s32 x : u32 (s32 x) = u32 x.
Proof. apply signed_eqm. lia. Qed.

Lemma s64_u64 x : s64 (u64 x) = s64 x.
Proof. unfold s64, signed, u64, wrap. rewrite Zmod_mod. reflexivity. Qed.

Lemma u64_range x : 0 <= u64 x < 2 ^ 64.
Proof. apply wrap_range. lia. Qed.

Lemma u32_range x : 0 <= u32 x < 2 ^ 32.
Proof. apply wrap_range. lia. Qed.

End IntFacts.

Section MemFacts.

Lemma length_le_split n : forall v, length (le_split n v) = n.
Proof. induction n as [|n IH]; intros v; cbn; [reflexivity | rewrite IH; reflexivity]. Qed.

Lemma le_combine_split n : forall v, le_combine (le_split n v) = v mod 2 ^ (8 * Z.of_nat n).
Proof.
  induction n as [|n IH]; intros v.
  - cbn. rewrite Z.mod_1_r. reflexivity.
  - cbn [le_split le_combine]. rewrite IH.
    unfold u8, wrap. rewrite Zmod_mod.
    replace (8 * Z.of_nat (S n)) with (8 + 8 * Z.of_nat n) by lia.
    rewrite <- !Z.land_ones by lia.
    Z.bitblast.
Qed.

Lemma le_combine_range bs : 0 <= le_combine bs < 2 ^ (8 * Z.of_nat (length bs)).
Proof.
  induction bs as [|b bs IH]; cbn [le_combine length].
  - cbn. lia.
  - pose proof (wrap_range 8 b ltac:(lia)) as Hb. fold u8 in Hb.
    replace (8 * Z.of_nat (S (length bs))) with (8 + 8 * Z.of_nat (length bs)) by lia.
    rewrite Z.pow_add_r by lia.
    rewrite Z.or_to_plus.
    + rewrite Z.shiftl_mul_pow2 by lia. lia.
    + unfold u8, wrap. rewrite <- Z.land_ones by lia. Z.bitblast.
      rewrite (Z.testbit_neg_r _ l) by lia. apply andb_false_r.
Qed.

Lemma slice_length mem off n bs : slice mem off n = Some bs -> length bs = n.
Proof.
  unfold slice. intros H.
  destruct (Z.leb_spec 0 off), (Z.leb_spec (off + Z.of_nat n) (Z.of_nat (length mem)));
    cbn in H; try discriminate.
  inversion H; subst. rewrite length_take, length_drop. lia.
Qed.

Lemma readLE_range n mem off v : readLE n mem off = Some v -> 0 <= v < 2 ^ (8 * Z.of_nat n).
Proof.
  unfold readLE. intros H.
  destruct (slice mem off n) as [bs|] eqn:Hs; [|discriminate].
  cbn in H. inversion H; subst.
  apply slice_length in Hs. rewrite <- Hs. apply le_combine_range.
Qed.

Lemma readLE_in_bounds n mem off v :
  readLE n mem off = Some v -> 0 <= off /\ off + Z.of_nat n <= Z.of_nat (length mem).
Proof.
  unfold readLE, slice. intros H.
  destruct (Z.leb_spec 0 off), (Z.leb_spec (off + Z.of_nat n) (Z.of_nat (length mem)));
    cbn in H; try discriminate.
  lia.
Qed.

Lemma writeLE_in_bounds n mem off v :
  0 <= off -> off + Z.of_nat n <= Z.of_nat (length mem) ->
  writeLE n mem off v =
    Some (take (Z.to_nat off) mem ++ le_split n v ++ drop (Z.to_nat off + n) mem).
Proof.
  intros H1 H2. unfold writeLE.
  destruct (Z.leb_spec 0 off), (Z.leb_spec (off + Z.of_nat n) (Z.of_nat (length mem)));
    try lia.
  reflexivity.
Qed.

Lemma writeLE_length n mem off v mem' :
  writeLE n mem off v = Some mem' -> length mem' = length mem.
Proof.
  unfold writeLE. intros H.
  destruct (Z.leb_spec 0 off), (Z.leb_spec (off + Z.of_nat n) (Z.of_nat (length mem)));
    cbn in H; try discriminate.
  inversion H; subst.
  rewrite !length_app, length_take, length_le_split, length_drop. lia.
Qed.

(** A store followed by a load of the same width at the same place gives
    back the low [n] bytes of the stored value. *)
Lemma readLE_writeLE n mem off v mem' :
  writeLE n mem off v = Some mem' ->
  readLE n mem' off = Some (v mod 2 ^ (8 * Z.of_nat n)).
Proof.
  intros H. pose proof (writeLE_length _ _ _ _ _ H) as Hlen.
  unfold writeLE in H. unfold readLE, slice. rewrite Hlen.
  destruct (Z.leb_spec 0 off), (Z.leb_spec (off + Z.of_nat n) (Z.of_nat (length mem)));
    cbn in H; try discriminate.
  inversion H; subst. cbn.
  rewrite drop_app_length'; [|rewrite length_take; lia].
  rewrite take_app_length'; [|symmetry; apply length_le_split].
  rewrite le_combine_split. reflexivity.
Qed.

(** A load succeeds exactly where a store of the same width does. *)
Lemma readLE_writeLE_defined n mem off v w :
  readLE n mem off = Some v -> exists mem', writeLE n mem off w = Some mem'.
Proof.
  intros H. apply readLE_in_bounds in H as [H1 H2].
  eexists. apply writeLE_in_bounds; assumption.
Qed.

End MemFacts.

(** ** Relocation decoding *)

(** C1. [getRelocationKind] maps the quadruple
    [(r_type, r_pcrel, r_extern, r_length)] of every relocation record to the
    kind given by the table of section 6.1, and for every quadruple outside
    the table it fails with an error of kind [BadRelocation] that carries the
    raw quadruple (next to the record's address and symbol number). *)
Theorem getRelocationKind_table (RI : relocation_info) :
  getRelocationKind RI =
    match tableKind (r_type RI) (r_pcrel RI) (r_extern RI) (r_length RI) with
    | Some K => Success K
    | None =>
        Failure (UnsupportedRelocation (r_address RI) (r_symbolnum RI) (r_type RI)
                                       (r_pcrel RI) (r_extern RI) (r_length RI))
    end
  /\ (forall e, getRelocationKind RI = Failure e -> errorKind e = BadRelocation).
Proof.
  destruct RI as [addr sym pcrel len ext ty].
  unfold getRelocationKind, tableKind, unsupported; cbn [r_type r_pcrel r_extern r_length r_address r_symbolnum].
  unfold ARM64_RELOC_UNSIGNED, ARM64_RELOC_SUBTRACTOR, ARM64_RELOC_BRANCH26,
    ARM64_RELOC_PAGE21, ARM64_RELOC_PAGEOFF12, ARM64_RELOC_GOT_LOAD_PAGE21,
    ARM64_RELOC_GOT_LOAD_PAGEOFF12, ARM64_RELOC_POINTER_TO_GOT, ARM64_RELOC_ADDEND.
  cbn [decodingTable find rowMatches].
  repeat match goal with
  | |- context [?a =? ?b] =>
      let H := fresh in destruct (Z.eqb_spec a b) as [H|H]; [try subst; try discriminate|]
  end;
  destruct pcrel, ext; cbn; split; try reflexivity; intros e He; inversion He; reflexivity.
Qed.

(** ** Fixup applier *)

Section ApplierFacts.

Lemma mask_ones n : Z.shiftl 1 n - 1 = Z.ones n.
Proof. unfold Z.ones. lia. Qed.

Lemma lor_range n a b : 0 <= n -> 0 <= a < 2 ^ n -> 0 <= b < 2 ^ n -> 0 <= Z.lor a b < 2 ^ n.
Proof.
  intros Hn Ha Hb.
  rewrite <- (Z.mod_small a (2 ^ n)), <- (Z.mod_small b (2 ^ n)) by assumption.
  replace (Z.lor (a mod 2 ^ n) (b mod 2 ^ n)) with (Z.lor a b mod 2 ^ n).
  - apply Z.mod_pos_bound. apply Z.pow_pos_nonneg; lia.
  - rewrite <- !Z.land_ones by assumption. Z.bitblast.
Qed.

Lemma getPageOffset12Shift_range I : 0 <= I < 2 ^ 32 -> 0 <= getPageOffset12Shift I <= 4.
Proof.
  intros HI. unfold getPageOffset12Shift.
  assert (0 <= Z.shiftr I 30 < 4) as Hs.
  { rewrite Z.shiftr_div_pow2 by lia. split.
    - apply Z.div_pos; lia.
    - apply Z.div_lt_upper_bound; lia. }
  repeat match goal with |- context [if ?c then _ else _] => destruct c end; lia.
Qed.

End ApplierFacts.

(** C5. For a [PageOffset12] edge the shift is derived from the instruction
    word [I] as the specification says (the top two bits for the GPR and the
    Neon up-to-64-bit LDR immediate patterns, 4 for the Neon 128-bit pattern,
    0 otherwise); the applier fails with a Misalignment error exactly when
    the page offset of the target is not a multiple of [1 << shift], and
    otherwise stores [I | (((T & 0xfff) >> shift) << 10)] as a 32-bit
    little-endian word. The addend assertion is assumed to hold in a build
    with assertions. *)
Theorem applyFixup_PageOffset12 (genericName : EdgeKind -> option string)
    (NDEBUG : bool) (G : LinkGraph) (b : nat) (B : Block)
    (E : Edge) (mem : list Z) (T I : Z) :
  e_kind E = PageOffset12 ->
  blocks G !! b = Some B ->
  symbolAddress G (e_target E) = Some T ->
  readLE 4 mem (e_offset E) = Some I ->
  NDEBUG = true \/ e_addend E = 0 ->
  let shift :=
    if Z.land I 0x3ffffc00 =? 0x39400000 then Z.shiftr I 30
    else if Z.land I 0x3ffffc00 =? 0x3d400000 then Z.shiftr I 30
    else if Z.land I 0xfffffc00 =? 0x3dc00000 then 4
    else 0 in
  let off := Z.land T 0xfff in
  let word := Z.lor I (Z.shiftl (Z.shiftr off shift) 10) in
  getPageOffset12Shift I = shift /\
  ((exists e, applyFixup genericName NDEBUG G b E mem = Failure e /\ errorKind e = Misalignment)
   <-> off mod Z.shiftl 1 shift <> 0) /\
  (off mod Z.shiftl 1 shift = 0 ->
   exists mem',
     applyFixup genericName NDEBUG G b E mem = Success mem' /\
     writeLE 4 mem (e_offset E) word = Some mem' /\
     readLE 4 mem' (e_offset E) = Some word).
Proof.
  intros HK HB HT HI Hassert shift off word.
  assert (getPageOffset12Shift I = shift) as Hshift by reflexivity.
  pose proof (readLE_range _ _ _ _ HI) as HIr. change (8 * Z.of_nat 4) with 32 in HIr.
  pose proof (getPageOffset12Shift_range I HIr) as Hsr. rewrite Hshift in Hsr.
  assert (0 <= off < 2 ^ 12) as Hoff.
  { unfold off. change 0xfff with (Z.ones 12). rewrite Z.land_ones by lia.
    apply Z.mod_pos_bound. lia. }
  assert (0 <= Z.shiftl (Z.shiftr off shift) 10 < 2 ^ 32) as Henc.
  { rewrite Z.shiftl_mul_pow2, Z.shiftr_div_pow2 by lia.
    assert (0 < 2 ^ shift) by (apply Z.pow_pos_nonneg; lia).
    assert (0 <= off / 2 ^ shift <= off).
    { split; [apply Z.div_pos; lia|]. apply Z.div_le_upper_bound; nia. }
    change (2 ^ 10) with 1024. change (2 ^ 12) with 4096 in Hoff. lia. }
  assert (applyFixup genericName NDEBUG G b E mem =
          if negb (Z.land off (Z.shiftl 1 shift - 1) =? 0)
          then Failure PageOff12Misaligned
          else access (writeLE 4 mem (e_offset E) word)) as Hrun.
  { unfold applyFixup, targetOutOfRangeError. rewrite HB, HK, HT, HI. cbn.
    assert (assert NDEBUG (e_addend E =? 0) = Success tt) as ->.
    { unfold assert. destruct Hassert as [->| ->]; [reflexivity|].
      rewrite Z.eqb_refl, orb_true_r. reflexivity. }
    cbn. fold off. rewrite Hshift.
    destruct (Z.land off (Z.shiftl 1 shift - 1) =? 0); cbn; [|reflexivity].
    unfold u32. rewrite wrap_small by exact Henc. reflexivity. }
  assert (Z.land off (Z.shiftl 1 shift - 1) = off mod Z.shiftl 1 shift) as Hmask.
  { rewrite mask_ones, Z.land_ones, Z.shiftl_1_l by lia. reflexivity. }
  split; [exact Hshift|]. split.
  - rewrite Hrun, Hmask. split.
    + intros [e [He _]] Hz. rewrite Hz in He. cbn in He.
      destruct (writeLE 4 mem (e_offset E) word); discriminate.
    + intros Hnz. exists PageOff12Misaligned.
      destruct (Z.eqb_spec (off mod Z.shiftl 1 shift) 0); [contradiction|].
      cbn. split; reflexivity.
  - intros Hz. rewrite Hrun, Hmask, Hz. cbn.
    destruct (readLE_writeLE_defined 4 mem (e_offset E) I word HI) as [mem' Hw].
    exists mem'. rewrite Hw. cbn. split; [reflexivity|]. split; [reflexivity|].
    rewrite (readLE_writeLE _ _ _ _ _ Hw). f_equal.
    apply Z.mod_small. change (8 * Z.of_nat 4) with 32.
    apply lor_range; [lia | exact HIr | exact Henc].
Qed.

(** Case analysis on the outcomes in a goal or in the hypotheses. *)
Ltac outcome_cases :=
  repeat split; intros;
  repeat match goal with
  | H : exists _, _ |- _ => destruct H
  | H : _ /\ _ |- _ => destruct H
  | H : Success _ = Success _ |- _ => inversion H; subst; clear H
  | H : Failure _ = Failure _ |- _ => inversion H; subst; clear H
  end;
  try discriminate; try contradiction; try lia; try assumption.

Section Branch26Facts.

Lemma land3_u64 V : Z.land (u64 V) 0x3 = Z.land V 3.
Proof.
  unfold u64, wrap. rewrite <- Z.land_ones by lia.
  change 3 with (Z.ones 2). Z.bitblast.
Qed.

Lemma land3_mod4 V : Z.land V 3 = V mod 4.
Proof. change 3 with (Z.ones 2). rewrite Z.land_ones by lia. reflexivity. Qed.

(** A B or BL word with a zero immediate has only its top six bits set. *)
Lemma branch_word_top I :
  0 <= I < 2 ^ 32 -> Z.land I 0x7fffffff = 0x14000000 -> Z.land I 0xfc000000 = I.
Proof.
  intros HI H.
  assert (Z.land I (Z.ones 26) = 0) as Hlow.
  { replace (Z.ones 26) with (Z.land 0x7fffffff (Z.ones 26)) by reflexivity.
    rewrite Z.land_assoc, H. reflexivity. }
  rewrite <- (Z.mod_small I (2 ^ 32)) at 2 by exact HI.
  rewrite <- Z.land_ones by lia.
  replace (Z.ones 32) with (Z.lor 0xfc000000 (Z.ones 26)) by reflexivity.
  rewrite Z.land_lor_distr_r, Hlow, Z.lor_0_r. reflexivity.
Qed.

Lemma branch_imm V :
  Z.shiftr (Z.land (u32 V) (Z.shiftl 1 28 - 1)) 2 = Z.land (Z.shiftr V 2) 0x3ffffff.
Proof.
  unfold u32, wrap. rewrite <- Z.land_ones by lia.
  change (Z.shiftl 1 28 - 1) with (Z.ones 28). change 0x3ffffff with (Z.ones 26).
  Z.bitblast.
Qed.

Lemma readLEs_u32 mem off I :
  readLE 4 mem off = Some I -> u32 <$> readLEs 4 mem off = Some I.
Proof.
  intros H. unfold readLEs. rewrite H. cbn. f_equal.
  change (8 * 4) with 32. fold s32. rewrite u32_s32.
  apply wrap_small. apply (readLE_range 4 mem off I H).
Qed.

End Branch26Facts.

(** C4 (amended). For a [Branch26] edge with
    [V = target.address - (block.address + offset) + addend], on a B or BL
    word with a zero immediate: the applier fails with a Misalignment error
    whenever [V & 3 != 0] (also when [V] is out of range, the alignment test
    comes first); it fails with an OutOfRange error exactly when [V] is a
    multiple of 4 outside [-2^27, 2^27); it succeeds exactly when [V] is a
    multiple of 4 with [-2^27 <= V <= 2^27 - 4], and then stores the word
    with the top six bits of the instruction and
    [imm26 = (V >> 2) & 0x3ffffff], 32-bit little-endian. *)
Theorem applyFixup_Branch26 (genericName : EdgeKind -> option string)
    (NDEBUG : bool) (G : LinkGraph) (b : nat) (B : Block)
    (E : Edge) (mem : list Z) (T I : Z) :
  e_kind E = Branch26 ->
  blocks G !! b = Some B ->
  symbolAddress G (e_target E) = Some T ->
  readLE 4 mem (e_offset E) = Some I ->
  Z.land I 0x7fffffff = 0x14000000 ->
  NDEBUG = true \/ Z.land (u64 (b_address B + e_offset E)) 3 = 0 ->
  let V := s64 (T - u64 (b_address B + e_offset E) + e_addend E) in
  let word := Z.lor (Z.land I 0xfc000000) (Z.land (Z.shiftr V 2) 0x3ffffff) in
  (Z.land V 3 <> 0 -> applyFixup genericName NDEBUG G b E mem = Failure Branch26Misaligned) /\
  ((exists e, applyFixup genericName NDEBUG G b E mem = Failure e /\ errorKind e = Misalignment)
   <-> Z.land V 3 <> 0) /\
  ((exists e, applyFixup genericName NDEBUG G b E mem = Failure e /\ errorKind e = OutOfRange)
   <-> Z.land V 3 = 0 /\ ~ (- 2 ^ 27 <= V < 2 ^ 27)) /\
  ((exists mem', applyFixup genericName NDEBUG G b E mem = Success mem')
   <-> Z.land V 3 = 0 /\ - 2 ^ 27 <= V <= 2 ^ 27 - 4) /\
  (forall mem', applyFixup genericName NDEBUG G b E mem = Success mem' ->
     writeLE 4 mem (e_offset E) word = Some mem' /\
     readLE 4 mem' (e_offset E) = Some word).
Proof.
  intros HK HB HT HI Hinstr Hassert V word.
  pose proof (readLE_range _ _ _ _ HI) as HIr. change (8 * Z.of_nat 4) with 32 in HIr.
  destruct (readLE_writeLE_defined 4 mem (e_offset E) I word HI) as [mem1 Hw].
  assert (readLE 4 mem1 (e_offset E) = Some word) as Hr.
  { rewrite (readLE_writeLE _ _ _ _ _ Hw). f_equal.
    apply Z.mod_small. change (8 * Z.of_nat 4) with 32.
    apply lor_range; [lia| |].
    - rewrite branch_word_top by assumption. exact HIr.
    - change 0x3ffffff with (Z.ones 26). rewrite Z.land_ones by lia.
      pose proof (Z.mod_pos_bound (Z.shiftr V 2) (2 ^ 26) ltac:(lia)). lia. }
  assert (applyFixup genericName NDEBUG G b E mem =
          if negb (Z.land V 3 =? 0) then Failure Branch26Misaligned
          else if (V <? - 2 ^ 27) || (V >? 2 ^ 27 - 1) then Failure (TargetOutOfRange b E)
          else Success mem1) as Hrun.
  { unfold applyFixup, targetOutOfRangeError. rewrite HB, HK, HT. cbn.
    assert (assert NDEBUG (Z.land (u64 (b_address B + e_offset E)) 3 =? 0) = Success tt) as ->.
    { unfold assert. destruct Hassert as [->| ->]; [reflexivity|].
      rewrite orb_true_r. reflexivity. }
    cbn. fold V. rewrite land3_u64.
    destruct (Z.land V 3 =? 0); cbn; [|reflexivity].
    change (- Z.shiftl 1 27) with (- 2 ^ 27). change (Z.shiftl 1 27 - 1) with (2 ^ 27 - 1).
    destruct ((V <? - 2 ^ 27) || (V >? 2 ^ 27 - 1)); [reflexivity|].
    rewrite (readLEs_u32 _ _ _ HI). cbn.
    assert (assert NDEBUG (Z.land I 2147483647 =? 335544320) = Success tt) as ->.
    { unfold assert. rewrite Hinstr. cbn. rewrite orb_true_r. reflexivity. }
    cbn. rewrite branch_imm. rewrite <- (branch_word_top I HIr Hinstr) at 1.
    fold word. rewrite Hw. reflexivity. }
  assert (Z.land V 3 = 0 -> V <= 2 ^ 27 - 1 -> V <= 2 ^ 27 - 4) as Halign.
  { rewrite land3_mod4. intros Hm Hle.
    pose proof (Z.div_mod V 4 ltac:(lia)). lia. }
  rewrite Z.gtb_ltb in Hrun. rewrite Hrun.
  destruct (Z.eqb_spec (Z.land V 3) 0) as [Hz|Hnz],
    (Z.ltb_spec V (- 2 ^ 27)) as [Hlo|Hlo],
    (Z.ltb_spec (2 ^ 27 - 1) V) as [Hhi|Hhi]; cbn [negb orb];
    outcome_cases.
  all: try (exists Branch26Misaligned; split; reflexivity).
  all: try (eexists; split; reflexivity).
Qed.

Section LDRLiteral19Facts.

Lemma ldr_imm V :
  0 <= V < 2 ^ 20 ->
  u32 (Z.shiftl (Z.shiftr (u32 V) 2) 5) = Z.shiftl (Z.land (Z.shiftr V 2) 0x7ffff) 5.
Proof.
  intros HV. unfold u32. rewrite (wrap_small 32 V) by lia.
  assert (0 <= Z.shiftr V 2 < 2 ^ 18) as Hs.
  { rewrite Z.shiftr_div_pow2 by lia. split.
    - apply Z.div_pos; lia.
    - apply Z.div_lt_upper_bound; lia. }
  change 0x7ffff with (Z.ones 19). rewrite Z.land_ones by lia.
  rewrite (Z.mod_small (Z.shiftr V 2)) by lia.
  apply wrap_small. rewrite Z.shiftl_mul_pow2 by lia. lia.
Qed.

End LDRLiteral19Facts.

(** C9 (amended). The applier makes no run-time test of the instruction word
    of an [LDRLiteral19] edge and never fails with a BadInstr error (the
    comparison with [0x58000010] is an assertion). With
    [V = target.address - fixup address], and with assertions compiled out or
    holding, it fails with a Misalignment error if [V & 3 != 0], with an
    OutOfRange error if [V] is a multiple of 4 outside [-2^20, 2^20), and for
    an aligned [0 <= V < 2^20] it stores
    [I | (((V >> 2) & 0x7ffff) << 5)], 32-bit little-endian, which for
    [I = 0x58000010] is the word of the claim. *)
Theorem applyFixup_LDRLiteral19 (genericName : EdgeKind -> option string)
    (NDEBUG : bool) (G : LinkGraph) (b : nat) (B : Block)
    (E : Edge) (mem : list Z) (T I : Z) :
  e_kind E = LDRLiteral19 ->
  blocks G !! b = Some B ->
  symbolAddress G (e_target E) = Some T ->
  readLE 4 mem (e_offset E) = Some I ->
  NDEBUG = true \/
    (Z.land (u64 (b_address B + e_offset E)) 3 = 0 /\ e_addend E = 0 /\ I = 0x58000010) ->
  let V := s64 (T - u64 (b_address B + e_offset E)) in
  let word := Z.lor I (Z.shiftl (Z.land (Z.shiftr V 2) 0x7ffff) 5) in
  (forall e, applyFixup genericName NDEBUG G b E mem = Failure e -> errorKind e <> BadInstr) /\
  (Z.land V 3 <> 0 -> applyFixup genericName NDEBUG G b E mem = Failure LDRLiteralMisaligned) /\
  (Z.land V 3 = 0 -> ~ (- 2 ^ 20 <= V < 2 ^ 20) ->
   applyFixup genericName NDEBUG G b E mem = Failure (TargetOutOfRange b E)) /\
  (Z.land V 3 = 0 -> 0 <= V < 2 ^ 20 ->
   exists mem',
     applyFixup genericName NDEBUG G b E mem = Success mem' /\
     writeLE 4 mem (e_offset E) word = Some mem' /\
     readLE 4 mem' (e_offset E) = Some word).
Proof.
  intros HK HB HT HI Hassert V word.
  pose proof (readLE_range _ _ _ _ HI) as HIr. change (8 * Z.of_nat 4) with 32 in HIr.
  assert (applyFixup genericName NDEBUG G b E mem =
          if negb (Z.land V 3 =? 0) then Failure LDRLiteralMisaligned
          else if (V <? - 2 ^ 20) || (V >? 2 ^ 20 - 1) then Failure (TargetOutOfRange b E)
          else access (writeLE 4 mem (e_offset E)
                         (Z.lor I (u32 (Z.shiftl (Z.shiftr (u32 V) 2) 5))))) as Hrun.
  { unfold applyFixup, targetOutOfRangeError. rewrite HB, HK, HT, HI. cbn.
    assert (assert NDEBUG (Z.land (u64 (b_address B + e_offset E)) 3 =? 0) = Success tt) as ->.
    { unfold assert. destruct Hassert as [->|[-> _]]; [reflexivity|].
      rewrite orb_true_r. reflexivity. }
    cbn.
    assert (assert NDEBUG (e_addend E =? 0) = Success tt) as ->.
    { unfold assert. destruct Hassert as [->|[_ [-> _]]]; [reflexivity|].
      rewrite orb_true_r. reflexivity. }
    cbn.
    assert (assert NDEBUG (I =? 1476395024) = Success tt) as ->.
    { unfold assert. destruct Hassert as [->|[_ [_ ->]]]; [reflexivity|].
      rewrite orb_true_r. reflexivity. }
    cbn. reflexivity. }
  rewrite Z.gtb_ltb in Hrun. rewrite Hrun.
  destruct (Z.eqb_spec (Z.land V 3) 0) as [Hz|Hnz],
    (Z.ltb_spec V (- 2 ^ 20)) as [Hlo|Hlo],
    (Z.ltb_spec (2 ^ 20 - 1) V) as [Hhi|Hhi]; cbn [negb orb];
    outcome_cases.
  all: try (cbn; discriminate).
  all: try (destruct (writeLE 4 mem (e_offset E) _); discriminate).
  assert (0 <= I < 2 ^ 32) as HIr by lia.
  rewrite ldr_imm by lia. fold word.
  destruct (readLE_writeLE_defined 4 mem (e_offset E) I word HI) as [mem1 Hw].
  exists mem1. rewrite Hw. repeat split.
  rewrite (readLE_writeLE _ _ _ _ _ Hw). f_equal.
  apply Z.mod_small. change (8 * Z.of_nat 4) with 32.
  apply lor_range; [lia|exact HIr|].
  rewrite Z.shiftl_mul_pow2 by lia.
  change 0x7ffff with (Z.ones 19). rewrite Z.land_ones by lia.
  pose proof (Z.mod_pos_bound (Z.shiftr V 2) (2 ^ 19) ltac:(lia)). lia.
Qed.

Section PageKindFacts.

Lemma lookup_blocks_setEdge G b j E k :
  blocks (setEdge G b j E) !! k =
    (if decide (b = k) then replaceEdge j E else id) <$> blocks G !! k.
Proof.
  unfold setEdge; cbn [blocks].
  destruct (decide (b = k)) as [->|Hne].
  - apply list_lookup_alter_eq.
  - rewrite list_lookup_alter_ne by exact Hne. destruct (blocks G !! k); reflexivity.
Qed.

Lemma getAddress_setEdge G b j E Sym :
  getAddress (setEdge G b j E) Sym = getAddress G Sym.
Proof.
  unfold getAddress. destruct (s_base Sym) as [k|x]; [|reflexivity].
  rewrite lookup_blocks_setEdge.
  destruct (blocks G !! k); [|reflexivity]. cbn.
  destruct (decide (b = k)); reflexivity.
Qed.

Lemma symbolAddress_setEdge G b j E s :
  symbolAddress (setEdge G b j E) s = symbolAddress G s.
Proof.
  unfold symbolAddress. cbn [symbols setEdge].
  destruct (symbols G !! s); [|reflexivity]. cbn. apply getAddress_setEdge.
Qed.

(** In a build without assertions the applier, on a page kind, stores
    [pageFixupWord] of the target address, the block address and the
    instruction word, whatever the addend. *)
Lemma applyFixup_page_word genericName G b B E mem T I m :
  isPageKind (e_kind E) = true ->
  blocks G !! b = Some B ->
  symbolAddress G (e_target E) = Some T ->
  readLE 4 mem (e_offset E) = Some I ->
  applyFixup genericName true G b E mem = Success m <->
  exists w,
    pageFixupWord (e_kind E) T (b_address B) I = Some w /\
    writeLE 4 mem (e_offset E) w = Some m.
Proof.
  intros HK HB HT HI. unfold applyFixup, targetOutOfRangeError, pageFixupWord.
  rewrite HB, HT, HI. cbn.
  destruct (e_kind E); cbn in HK; try discriminate; cbn;
    repeat match goal with
    | |- context [if ?c then _ else _] => destruct c; cbn
    end;
    try (split; [done | intros (? & ? & _); done]);
    (split;
     [ intros H; eexists; split; [reflexivity|];
       destruct (writeLE 4 mem (e_offset E) _); cbn in H; simplify_eq; reflexivity
     | intros (? & ? & Hw); simplify_eq; rewrite Hw; reflexivity ]).
Qed.

Lemma applyFixup_setAddend_release genericName G b j E a mem :
  isPageKind (e_kind E) = true ->
  sameEffect (applyFixup genericName true G b E mem)
             (applyFixup genericName true (setEdge G b j (setAddend E a)) b (setAddend E a) mem).
Proof.
  intros HK. unfold applyFixup, targetOutOfRangeError.
  rewrite lookup_blocks_setEdge, symbolAddress_setEdge.
  destruct (blocks G !! b) as [B|]; cbn; [|reflexivity].
  rewrite decide_True by reflexivity. cbn.
  destruct (e_kind E); cbn in HK; try discriminate; cbn;
    repeat match goal with
    | |- context [access ?o] => destruct o; cbn
    | |- context [if ?c then _ else _] => destruct c; cbn
    end; reflexivity.
Qed.

Lemma applyFixup_setAddend_success genericName NDEBUG G b j E a mem m m' :
  isPageKind (e_kind E) = true ->
  applyFixup genericName NDEBUG G b E mem = Success m ->
  applyFixup genericName NDEBUG (setEdge G b j (setAddend E a)) b (setAddend E a) mem = Success m' ->
  m = m'.
Proof.
  intros HK. unfold applyFixup, targetOutOfRangeError.
  rewrite lookup_blocks_setEdge, symbolAddress_setEdge.
  destruct (blocks G !! b) as [B|]; cbn; [|discriminate].
  rewrite decide_True by reflexivity. cbn.
  destruct (e_kind E); cbn in HK; try discriminate; cbn;
    repeat match goal with
    | |- context [assert ?n ?c] => destruct (assert n c) as [[]| |]; cbn
    | |- context [access ?o] => destruct o; cbn
    | |- context [if ?c then _ else _] => destruct c; cbn
    end; intros; simplify_eq; try reflexivity; try discriminate.
Qed.

End PageKindFacts.

(** C10. For an edge of kind [Page21], [GOTPage21], [PageOffset12] or
    [GOTPageOffset12] the bytes stored by the applier do not depend on the
    addend: two graphs that differ only in the addend of such an edge get the
    same patched bytes (and, without assertions, the same kind of failure
    otherwise), and the stored word is [pageFixupWord] of the target address,
    the address of the source block and the instruction word alone. *)
Theorem applyFixup_page_kinds_ignore_addend (genericName : EdgeKind -> option string) (G : LinkGraph) (b j : nat) (E : Edge)
    (a : Z) (mem : list Z) :
  isPageKind (e_kind E) = true ->
  getEdge G b j = Some E ->
  let E' := setAddend E a in
  let G' := setEdge G b j E' in
  sameEffect (applyFixup genericName true G b E mem) (applyFixup genericName true G' b E' mem) /\
  (forall NDEBUG m m',
     applyFixup genericName NDEBUG G b E mem = Success m ->
     applyFixup genericName NDEBUG G' b E' mem = Success m' -> m = m') /\
  (forall B T I m,
     blocks G !! b = Some B ->
     symbolAddress G (e_target E) = Some T ->
     readLE 4 mem (e_offset E) = Some I ->
     (applyFixup genericName true G b E mem = Success m <->
      exists w, pageFixupWord (e_kind E) T (b_address B) I = Some w /\
                writeLE 4 mem (e_offset E) w = Some m)).
Proof.
  intros HK _ E' G'. split; [|split].
  - apply applyFixup_setAddend_release. exact HK.
  - intros NDEBUG m m'. apply applyFixup_setAddend_success. exact HK.
  - intros B T I m HB HT HI. apply applyFixup_page_word; assumption.
Qed.

(** ** The applier on the example object *)

(** Scenario 1 of the specification: a [BL] at [0x1000] to a symbol at
    [0x1100] becomes [0x94000040]. *)
Lemma applyFixup_Branch26_witness :
  exists mem',
    applyFixup Example.getGenericEdgeKindName
        false Example.G 0 (mkEdge Branch26 0 1 0) Example.text = Success mem' /\
    readLE 4 mem' 0 = Some 0x94000040.
Proof.
  destruct (applyFixup_Branch26 Example.getGenericEdgeKindName false Example.G 0
              (mkBlock 0 Example.text 0x1000 4 0 [])
              (mkEdge Branch26 0 1 0) Example.text 0x1100 0x94000000
              eq_refl eq_refl eq_refl eq_refl eq_refl (or_intror eq_refl))
    as (_ & _ & _ & [_ Hok] & Hword).
  destruct Hok as [mem' Hrun].
  - vm_compute. split; [reflexivity|]. split; discriminate.
  - exists mem'. split; [exact Hrun|].
    destruct (Hword mem' Hrun) as [_ Hread]. exact Hread.
Defined.

(** A branch over [2^27 - 1] bytes passes the range test but not the
    alignment test, which comes first: it is not accepted. *)
Lemma applyFixup_Branch26_counterexample :
  s64 (0x8000fff - u64 (0x1000 + 0) + 0) = 2 ^ 27 - 1 /\
  symbolAddress Example.G 3 = Some 0x8000fff /\
  applyFixup Example.getGenericEdgeKindName true Example.G 0 (mkEdge Branch26 0 3 0) Example.text
    = Failure Branch26Misaligned /\
  applyFixup Example.getGenericEdgeKindName false Example.G 0 (mkEdge Branch26 0 3 0) Example.text
    = Failure Branch26Misaligned.
Proof. repeat split; reflexivity. Qed.

(** The example of the specification: a 64-bit [LDR] (shift 3) against a
    target with page offset [0xff9] fails with a Misalignment error. *)
Lemma applyFixup_PageOffset12_witness :
  symbolAddress Example.G 2 = Some 0x3ff9 /\
  getPageOffset12Shift 0xf9400000 = 3 /\
  exists e,
    applyFixup Example.getGenericEdgeKindName
        false Example.G 0 (mkEdge PageOffset12 8 2 0) Example.text = Failure e /\
    errorKind e = Misalignment.
Proof.
  split; [reflexivity|]. split; [reflexivity|].
  destruct (applyFixup_PageOffset12 Example.getGenericEdgeKindName false Example.G 0
              (mkBlock 0 Example.text 0x1000 4 0 [])
              (mkEdge PageOffset12 8 2 0) Example.text 0x3ff9 0xf9400000
              eq_refl eq_refl eq_refl eq_refl (or_intror eq_refl))
    as (_ & [_ Hfail] & _).
  apply Hfail. vm_compute. discriminate.
Defined.

(** An [LDR] literal at [0x100c] against a symbol at [0x1100]. *)
Lemma applyFixup_LDRLiteral19_witness :
  exists mem',
    applyFixup Example.getGenericEdgeKindName
        false Example.G 0 (mkEdge LDRLiteral19 12 1 0) Example.text = Success mem' /\
    readLE 4 mem' 12 = Some (Z.lor 0x58000010 (Z.shiftl (Z.land (Z.shiftr 0xf4 2) 0x7ffff) 5)).
Proof.
  destruct (applyFixup_LDRLiteral19 Example.getGenericEdgeKindName false Example.G 0
              (mkBlock 0 Example.text 0x1000 4 0 [])
              (mkEdge LDRLiteral19 12 1 0) Example.text 0x1100 0x58000010
              eq_refl eq_refl eq_refl eq_refl
              (or_intror (conj eq_refl (conj eq_refl eq_refl))))
    as (_ & _ & _ & Hok).
  destruct Hok as (mem' & Hrun & _ & Hread).
  - reflexivity.
  - vm_compute. split; [discriminate|reflexivity].
  - exists mem'. split; [exact Hrun | exact Hread].
Defined.

(** An [LDRLiteral19] edge on a word other than [0x58000010] (here the [BL]
    at offset 0): without assertions the applier patches the word as it is,
    with assertions the process stops; no BadInstr error is returned. *)
Lemma applyFixup_LDRLiteral19_counterexample :
  readLE 4 Example.text 0 = Some 0x94000000 /\
  applyFixup Example.getGenericEdgeKindName
      true Example.G 0 (mkEdge LDRLiteral19 0 1 0) Example.text
    = Success [0x00; 0x08; 0x00; 0x94; 0; 0; 0; 0x90; 0; 0; 0x40; 0xf9; 0x10; 0; 0; 0x58] /\
  applyFixup Example.getGenericEdgeKindName
      false Example.G 0 (mkEdge LDRLiteral19 0 1 0) Example.text
    = Abort AssertionFailed.
Proof. repeat split; reflexivity. Qed.

(** The mask of the immediate is missing in the [LDRLiteral19] case: for a
    target 4 bytes before the fixup the stored word is [0xfffffff0], whose
    opcode bits are no longer those of [0x58000010]. *)
Example applyFixup_LDRLiteral19_negative_delta :
  symbolAddress Example.G 1 = Some 0x1100 /\
  applyFixup Example.getGenericEdgeKindName
      true Example.G 1 (mkEdge LDRLiteral19 4 1 0) [0; 0; 0; 0; 0x10; 0x00; 0x00; 0x58]
    = Success [0; 0; 0; 0; 0xf0; 0xff; 0xff; 0xff].
Proof. repeat split; reflexivity. Qed.

(** The parser attaches the addend of an [ADDEND] record to the [Page21]
    edge of the paired [PAGE21] record. *)
Example addRelocations_addend_page21 :
  addSectionRelocations Example.getGenericEdgeKindName
      false Example.findSymbolByIndex Example.findSymbolByAddress
    (mkObjSection 0x1000 2 [Example.addendAt 4; Example.page21At 4]) Example.G
  = Success Example.Gpage.
Proof. reflexivity. Qed.

Lemma applyFixup_page_kinds_ignore_addend_witness :
  getEdge Example.Gpage 0 0 = Some (mkEdge Page21 4 1 0x10) /\
  sameEffect
    (applyFixup Example.getGenericEdgeKindName
        true Example.Gpage 0 (mkEdge Page21 4 1 0x10) Example.text)
    (applyFixup Example.getGenericEdgeKindName
        true (setEdge Example.Gpage 0 0 (mkEdge Page21 4 1 0)) 0
                (mkEdge Page21 4 1 0) Example.text).
Proof.
  split; [reflexivity|].
  exact (proj1 (applyFixup_page_kinds_ignore_addend Example.getGenericEdgeKindName Example.Gpage 0 0
                  (mkEdge Page21 4 1 0x10) 0 Example.text eq_refl eq_refl)).
Defined.

(** ** The graph after [addEdge] *)

Lemma lookup_blocks_addEdge G b K Off T A k :
  blocks (addEdge G b K Off T A) !! k =
    (if decide (b = k) then pushEdge (mkEdge K (u32 Off) T (s64 A)) else id) <$> blocks G !! k.
Proof.
  unfold addEdge; cbn [blocks].
  destruct (decide (b = k)) as [->|Hne].
  - apply list_lookup_alter_eq.
  - rewrite list_lookup_alter_ne by exact Hne. destruct (blocks G !! k); reflexivity.
Qed.

(** [addEdge] puts the edge at the end of the edges of the block and changes
    nothing else. *)
Lemma addEdge_block G b B K Off T A :
  blocks G !! b = Some B ->
  blocks (addEdge G b K Off T A) !! b =
    Some (mkBlock (b_section B) (b_content B) (b_address B) (b_alignment B)
                  (b_alignmentOffset B) (b_edges B ++ [mkEdge K (u32 Off) T (s64 A)])) /\
  (forall k, k <> b -> blocks (addEdge G b K Off T A) !! k = blocks G !! k) /\
  sections (addEdge G b K Off T A) = sections G /\
  externals (addEdge G b K Off T A) = externals G /\
  symbols (addEdge G b K Off T A) = symbols G.
Proof.
  intros HB. split; [|split; [|repeat split]].
  - rewrite lookup_blocks_addEdge, HB, decide_True by reflexivity. reflexivity.
  - intros k Hk. rewrite lookup_blocks_addEdge, decide_False by congruence.
    destruct (blocks G !! k); reflexivity.
Qed.

(** ** Relocation parser: SUBTRACTOR pairs *)

Section SubtractorFacts.

Lemma getRelocationKind_subtractor RI :
  r_type RI = ARM64_RELOC_SUBTRACTOR -> r_pcrel RI = false -> r_extern RI = true ->
  r_length RI = 2 \/ r_length RI = 3 ->
  getRelocationKind RI = Success (if r_length RI =? 3 then Delta64 else Delta32).
Proof.
  intros Ht Hp He Hl. unfold getRelocationKind. rewrite Ht, Hp, He.
  destruct Hl as [-> | ->]; reflexivity.
Qed.


Lemma assert_true NDEBUG c : c = true -> assert NDEBUG c = Success tt.
Proof. intros ->. unfold assert. rewrite orb_true_r. reflexivity. Qed.

Lemma parsePairRelocation_result
    (NDEBUG : bool) (fbi fba : Z -> option nat) (Sec : ObjSection) (RelEnd : nat)
    (G : LinkGraph) (UnsignedRelItr : nat) (SubRI UnsignedRI : relocation_info)
    (b : nat) (Content : list Z) (Offset FixupAddress : Z)
    (from to : nat) (FromSymbol ToSymbol : Symbol) (raw FromAddress ToAddress : Z) :
  let width := if r_length SubRI =? 3 then 8%nat else 4%nat in
  r_pcrel SubRI = false ->
  r_extern SubRI = true ->
  r_length SubRI = 2 \/ r_length SubRI = 3 ->
  UnsignedRelItr <> RelEnd ->
  reloc_data Sec !! UnsignedRelItr = Some UnsignedRI ->
  r_address UnsignedRI = r_address SubRI ->
  r_length UnsignedRI = r_length SubRI ->
  fbi (r_symbolnum SubRI) = Some from ->
  symbols G !! from = Some FromSymbol ->
  getAddress G FromSymbol = Some FromAddress ->
  readLEs width Content Offset = Some raw ->
  (if r_extern UnsignedRI then fbi (r_symbolnum UnsignedRI) else fba (u64 raw)) = Some to ->
  symbols G !! to = Some ToSymbol ->
  getAddress G ToSymbol = Some ToAddress ->
  let FixupValue := if r_extern UnsignedRI then u64 raw else u64 (u64 raw - ToAddress) in
  parsePairRelocation NDEBUG fbi fba G b (if r_length SubRI =? 3 then Delta64 else Delta32)
                      SubRI FixupAddress (Content, Offset) Sec UnsignedRelItr RelEnd =
    if decide (s_base FromSymbol = InBlock b) then
      Success (if r_length SubRI =? 3 then Delta64 else Delta32, to,
               u64 (FixupValue + u64 (FixupAddress - FromAddress)))
    else if decide (s_base ToSymbol = InBlock b) then
      Success (if r_length SubRI =? 3 then NegDelta64 else NegDelta32, from,
               u64 (FixupValue - u64 (FixupAddress - ToAddress)))
    else Failure SubtractorNotAOrB.
Proof.
  intros width Hpc Hex Hlen Hend HUns Haddr Hlen' Hfrom HFrom HFromA Hraw Hto HTo HToA
    FixupValue.
  unfold parsePairRelocation.
  rewrite !assert_true;
    [| destruct Hlen as [-> | ->]; reflexivity | exact Hex | rewrite Hpc; reflexivity ].
  cbn [mbind Outcome_bind].
  rewrite (proj2 (Nat.eqb_neq _ _) Hend).
  unfold getRelocationInfo. rewrite HUns. cbn [mbind Outcome_bind].
  rewrite Haddr, Hlen', !Z.eqb_refl. cbn [negb].
  assert (symbolByIndex fbi (r_symbolnum SubRI) = Success from) as ->.
  { unfold symbolByIndex. rewrite Hfrom. reflexivity. }
  cbn [mbind Outcome_bind].
  rewrite HFrom. cbn [access mbind Outcome_bind fst snd].
  fold width in Hraw |- *.
  assert ((if r_length SubRI =? 3 then readLEs 8 Content Offset else readLEs 4 Content Offset)
          = Some raw) as ->.
  { rewrite <- Hraw. unfold width. destruct (r_length SubRI =? 3); reflexivity. }
  cbn [fmap option_fmap option_map access mbind Outcome_bind].
  assert (symbolAddress G to = Some ToAddress) as HToA'.
  { unfold symbolAddress. rewrite HTo. exact HToA. }
  assert ((if r_extern UnsignedRI
           then symbolByIndex fbi (r_symbolnum UnsignedRI) ≫= λ to0 : nat, Success (to0, u64 raw)
           else symbolByAddress fba (u64 raw) ≫= λ to0 : nat,
                access (symbolAddress G to0) ≫= λ ToAddress0 : Z,
                Success (to0, u64 (u64 raw - ToAddress0)))
          = Success (to, FixupValue)) as ->.
  { unfold FixupValue, symbolByIndex, symbolByAddress.
    destruct (r_extern UnsignedRI); rewrite Hto; cbn [mbind Outcome_bind]; [reflexivity|].
    rewrite HToA'. reflexivity. }
  cbn [mbind Outcome_bind]. rewrite HTo. cbn [access mbind Outcome_bind].
  rewrite HFromA, HToA. cbn [access mbind Outcome_bind].
  destruct (decide (s_base FromSymbol = InBlock b)) as [He|Hne].
  - rewrite bool_decide_true by (symmetry; exact He). reflexivity.
  - rewrite bool_decide_false by (intros He; apply Hne; symmetry; exact He).
    destruct (decide (s_base ToSymbol = InBlock b)) as [He'|Hne'].
    + rewrite bool_decide_true by (symmetry; exact He'). reflexivity.
    + rewrite bool_decide_false by (intros He; apply Hne'; symmetry; exact He).
      reflexivity.
Qed.

End SubtractorFacts.

(** What the parser makes of a SUBTRACTOR record and the record that follows
    it. *)
Lemma processRelocation_subtractor_pair
    (genericName : EdgeKind -> option string)
    (NDEBUG : bool) (fbi fba : Z -> option nat) (Sec : ObjSection) (RelEnd : nat)
    (G : LinkGraph) (RelItr : nat) (SubRI UnsignedRI : relocation_info)
    (fixsym b : nat) (SymbolToFix : Symbol) (B : Block)
    (from to : nat) (FromSymbol ToSymbol : Symbol) (raw FromAddress ToAddress : Z) :
  let FixupAddress := u64 (os_address Sec + u32 (r_address SubRI)) in
  let Offset := u64 (FixupAddress - b_address B) in
  let width := if r_length SubRI =? 3 then 8%nat else 4%nat in
  reloc_data Sec !! RelItr = Some SubRI ->
  r_type SubRI = ARM64_RELOC_SUBTRACTOR ->
  r_pcrel SubRI = false ->
  r_extern SubRI = true ->
  r_length SubRI = 2 \/ r_length SubRI = 3 ->
  fba FixupAddress = Some fixsym ->
  symbols G !! fixsym = Some SymbolToFix ->
  s_base SymbolToFix = InBlock b ->
  blocks G !! b = Some B ->
  u64 (FixupAddress + u64 (Z.shiftl 1 (r_length SubRI))) <=
    u64 (b_address B + Z.of_nat (length (b_content B))) ->
  S RelItr <> RelEnd ->
  reloc_data Sec !! S RelItr = Some UnsignedRI ->
  r_address UnsignedRI = r_address SubRI ->
  r_length UnsignedRI = r_length SubRI ->
  fbi (r_symbolnum SubRI) = Some from ->
  symbols G !! from = Some FromSymbol ->
  getAddress G FromSymbol = Some FromAddress ->
  readLEs width (b_content B) Offset = Some raw ->
  (if r_extern UnsignedRI then fbi (r_symbolnum UnsignedRI) else fba (u64 raw)) = Some to ->
  symbols G !! to = Some ToSymbol ->
  getAddress G ToSymbol = Some ToAddress ->
  let FixupValue := if r_extern UnsignedRI then u64 raw else u64 (u64 raw - ToAddress) in
  processRelocation genericName NDEBUG fbi fba Sec RelEnd G RelItr =
    (if decide (s_base FromSymbol = InBlock b) then
      Success (addEdge G b (if r_length SubRI =? 3 then Delta64 else Delta32) Offset to
                       (u64 (FixupValue + u64 (FixupAddress - FromAddress))),
               S RelItr)
    else if decide (s_base ToSymbol = InBlock b) then
      Success (addEdge G b (if r_length SubRI =? 3 then NegDelta64 else NegDelta32) Offset from
                       (u64 (FixupValue - u64 (FixupAddress - ToAddress))),
               S RelItr)
    else Failure SubtractorNotAOrB).
Proof.
  intros FixupAddress Offset width HSub Hty Hpc Hex Hlen Hfix Hsym Hbase HB Hext Hend
    HUns Haddr Hlen' Hfrom HFrom HFromA Hraw Hto HTo HToA FixupValue.
  pose proof (getRelocationKind_subtractor SubRI Hty Hpc Hex Hlen) as Hkind.
  assert (getRelocationInfo Sec RelItr = Success SubRI) as HgetSub.
  { unfold getRelocationInfo. rewrite HSub. reflexivity. }
  assert (getRelocationInfo Sec (S RelItr) = Success UnsignedRI) as HgetUns.
  { unfold getRelocationInfo. rewrite HUns. reflexivity. }
  assert (symbolByAddress fba FixupAddress = Success fixsym) as HsymFix.
  { unfold symbolByAddress. rewrite Hfix. reflexivity. }
  assert (symbolByIndex fbi (r_symbolnum SubRI) = Success from) as HsymFrom.
  { unfold symbolByIndex. rewrite Hfrom. reflexivity. }
  unfold processRelocation.
  rewrite HgetSub. cbn [mbind Outcome_bind].
  rewrite Hkind. cbn [mbind Outcome_bind].
  fold FixupAddress. rewrite HsymFix. cbn [mbind Outcome_bind].
  rewrite Hsym. cbn [access mbind Outcome_bind].
  unfold getBlock. rewrite Hbase. cbn [mbind Outcome_bind].
  rewrite HB. cbn [access mbind Outcome_bind].
  destruct (Z.gtb_spec (u64 (FixupAddress + u64 (1 ≪ r_length SubRI)))
              (u64 (b_address B + Z.of_nat (length (b_content B))))) as [Hgt|_]; [lia|].
  fold Offset.
  assert (bool_decide ((if r_length SubRI =? 3 then Delta64 else Delta32) = PairedAddend) = false) as ->.
  { destruct (r_length SubRI =? 3); reflexivity. }
  cbn [mbind Outcome_bind].
  rewrite (parsePairRelocation_result NDEBUG fbi fba Sec RelEnd G (S RelItr) SubRI UnsignedRI
             b (b_content B) Offset FixupAddress from to FromSymbol ToSymbol raw
             FromAddress ToAddress Hpc Hex Hlen Hend HUns Haddr Hlen' Hfrom HFrom HFromA
             Hraw Hto HTo HToA)
    by (destruct (r_length SubRI =? 3); reflexivity).
  fold FixupValue.
  destruct (r_length SubRI =? 3);
    destruct (decide (s_base FromSymbol = InBlock b));
    try destruct (decide (s_base ToSymbol = InBlock b)); reflexivity.
Qed.

(** C2. A SUBTRACTOR record followed by a record with the same [r_address]
    and [r_length] (the UNSIGNED of the pair), with [FromSymbol] found by the
    SUBTRACTOR's symbol index and [ToSymbol] found by the second record's
    symbol index when it is extern, else by the address read from the fixup
    bytes (and then [ToSymbol]'s address is subtracted from the value read):
    if the block to fix is [FromSymbol]'s addressable the parser adds an edge
    [Delta32]/[Delta64] to [ToSymbol] with addend
    [FixupValue + (FixupAddress - FromSymbol.address)]; else if it is
    [ToSymbol]'s addressable it adds an edge [NegDelta32]/[NegDelta64] to
    [FromSymbol] with addend
    [FixupValue - (FixupAddress - ToSymbol.address)]; otherwise it fails
    with an error of kind BadRelocation. Adding the edge means: the run
    succeeds with the iterator on the second record, and in the resulting
    graph the block to fix is the block it was with that one edge after
    its edges (at the offset of the fixup as [uint32_t], the addend as
    [int64_t]), while every other block and the sections, externals and
    symbols are as before. *)
Theorem parse_subtractor_pair
    (genericName : EdgeKind -> option string)
    (NDEBUG : bool) (fbi fba : Z -> option nat) (Sec : ObjSection) (RelEnd : nat)
    (G : LinkGraph) (RelItr : nat) (SubRI UnsignedRI : relocation_info)
    (fixsym b : nat) (SymbolToFix : Symbol) (B : Block)
    (from to : nat) (FromSymbol ToSymbol : Symbol) (raw FromAddress ToAddress : Z) :
  let FixupAddress := u64 (os_address Sec + u32 (r_address SubRI)) in
  let Offset := u64 (FixupAddress - b_address B) in
  let width := if r_length SubRI =? 3 then 8%nat else 4%nat in
  reloc_data Sec !! RelItr = Some SubRI ->
  r_type SubRI = ARM64_RELOC_SUBTRACTOR ->
  r_pcrel SubRI = false ->
  r_extern SubRI = true ->
  r_length SubRI = 2 \/ r_length SubRI = 3 ->
  fba FixupAddress = Some fixsym ->
  symbols G !! fixsym = Some SymbolToFix ->
  s_base SymbolToFix = InBlock b ->
  blocks G !! b = Some B ->
  u64 (FixupAddress + u64 (Z.shiftl 1 (r_length SubRI))) <=
    u64 (b_address B + Z.of_nat (length (b_content B))) ->
  S RelItr <> RelEnd ->
  reloc_data Sec !! S RelItr = Some UnsignedRI ->
  r_address UnsignedRI = r_address SubRI ->
  r_length UnsignedRI = r_length SubRI ->
  fbi (r_symbolnum SubRI) = Some from ->
  symbols G !! from = Some FromSymbol ->
  getAddress G FromSymbol = Some FromAddress ->
  readLEs width (b_content B) Offset = Some raw ->
  (if r_extern UnsignedRI then fbi (r_symbolnum UnsignedRI) else fba (u64 raw)) = Some to ->
  symbols G !! to = Some ToSymbol ->
  getAddress G ToSymbol = Some ToAddress ->
  let FixupValue := if r_extern UnsignedRI then u64 raw else u64 (u64 raw - ToAddress) in
  let result := processRelocation genericName NDEBUG fbi fba Sec RelEnd G RelItr in
  let emits (Kind : EdgeKind) (Target : nat) (Addend : Z) : Prop :=
    exists G1,
      result = Success (G1, S RelItr) /\
      blocks G1 !! b =
        Some (mkBlock (b_section B) (b_content B) (b_address B) (b_alignment B)
                      (b_alignmentOffset B)
                      (b_edges B ++ [mkEdge Kind (u32 Offset) Target (s64 Addend)])) /\
      (forall k, k <> b -> blocks G1 !! k = blocks G !! k) /\
      sections G1 = sections G /\ externals G1 = externals G /\ symbols G1 = symbols G in
  (if decide (s_base FromSymbol = InBlock b) then
     emits (if r_length SubRI =? 3 then Delta64 else Delta32) to
           (u64 (FixupValue + u64 (FixupAddress - FromAddress)))
   else if decide (s_base ToSymbol = InBlock b) then
     emits (if r_length SubRI =? 3 then NegDelta64 else NegDelta32) from
           (u64 (FixupValue - u64 (FixupAddress - ToAddress)))
   else result = Failure SubtractorNotAOrB) /\
  errorKind SubtractorNotAOrB = BadRelocation.
Proof.
  intros FixupAddress Offset width HSub Hty Hpc Hex Hlen Hfix Hsym Hbase HB Hext Hend
    HUns Haddr Hlen' Hfrom HFrom HFromA Hraw Hto HTo HToA FixupValue result emits.
  split; [|reflexivity].
  pose proof (processRelocation_subtractor_pair genericName NDEBUG fbi fba Sec RelEnd G RelItr
                SubRI UnsignedRI fixsym b SymbolToFix B from to FromSymbol ToSymbol raw
                FromAddress ToAddress
                HSub Hty Hpc Hex Hlen Hfix Hsym Hbase HB Hext Hend HUns Haddr Hlen' Hfrom
                HFrom HFromA Hraw Hto HTo HToA) as Hparse.
  cbv zeta in Hparse.
  destruct (decide (s_base FromSymbol = InBlock b));
    [|destruct (decide (s_base ToSymbol = InBlock b))].
  - eexists. split; [exact Hparse|]. apply addEdge_block. exact HB.
  - eexists. split; [exact Hparse|]. apply addEdge_block. exact HB.
  - exact Hparse.
Qed.

(** ** Parse, then fix up: SUBTRACTOR pairs *)

Section RoundTripFacts.

Lemma s64_eqm x y : u64 x = u64 y -> s64 x = s64 y.
Proof. intros H. rewrite <- (s64_u64 x), <- (s64_u64 y), H. reflexivity. Qed.

Lemma readLEs_in_bounds n mem off v :
  readLEs n mem off = Some v -> 0 <= off /\ off + Z.of_nat n <= Z.of_nat (length mem).
Proof.
  unfold readLEs. destruct (readLE n mem off) as [w|] eqn:H; [|discriminate].
  intros _. exact (readLE_in_bounds _ _ _ _ H).
Qed.

Lemma u64_add_s64 a b : u64 (a + s64 b) = u64 (a + b).
Proof.
  pose proof (u64_s64 b) as H. unfold u64, wrap in *.
  rewrite <- Zplus_mod_idemp_r, H, Zplus_mod_idemp_r. reflexivity.
Qed.

(** The value computed by the applier for an edge made from a pair. *)
Lemma delta_value Baddr Baddr' FA foff toff FixupValue :
  let Offset := u64 (FA - Baddr) in
  s64 (u64 (Baddr' + toff) - u64 (Baddr' + Offset) +
       s64 (u64 (FixupValue + u64 (FA - u64 (Baddr + foff))))) =
  s64 (u64 (Baddr' + toff) - u64 (Baddr' + foff) + FixupValue).
Proof.
  intros Offset. apply s64_eqm. unfold Offset.
  rewrite u64_add_s64. unfold u64, wrap. Z.mod_equality.
Qed.

Lemma negdelta_value Baddr Baddr' FA toff FromAddress' FixupValue :
  let Offset := u64 (FA - Baddr) in
  s64 (u64 (Baddr' + Offset) - FromAddress' +
       s64 (u64 (FixupValue - u64 (FA - u64 (Baddr + toff))))) =
  s64 (u64 (Baddr' + toff) - FromAddress' + FixupValue).
Proof.
  intros Offset. apply s64_eqm. unfold Offset.
  rewrite u64_add_s64. unfold u64, wrap. Z.mod_equality.
Qed.

Lemma getAddress_InBlock G Sym b B :
  s_base Sym = InBlock b -> blocks G !! b = Some B ->
  getAddress G Sym = Some (u64 (b_address B + s_offset Sym)).
Proof. intros Hb HB. unfold getAddress. rewrite Hb, HB. reflexivity. Qed.

(** The applier on the four delta kinds. *)
Lemma applyFixup_delta genericName NDEBUG G b B E mem T :
  blocks G !! b = Some B ->
  symbolAddress G (e_target E) = Some T ->
  isDeltaKind (e_kind E) = true ->
  applyFixup genericName NDEBUG G b E mem =
    let FixupAddress := u64 (b_address B + e_offset E) in
    let Value :=
      if bool_decide (e_kind E = Delta32) || bool_decide (e_kind E = Delta64)
      then s64 (T - FixupAddress + e_addend E)
      else s64 (FixupAddress - T + e_addend E) in
    if bool_decide (e_kind E = Delta32) || bool_decide (e_kind E = NegDelta32) then
      if (Value <? - 2 ^ 31) || (Value >? 2 ^ 31 - 1)
      then Failure (TargetOutOfRange b E)
      else access (writeLE 4 mem (e_offset E) Value)
    else access (writeLE 8 mem (e_offset E) Value).
Proof.
  intros HB HT HK. unfold applyFixup, targetOutOfRangeError. rewrite HB, HT. cbn [access mbind Outcome_bind].
  destruct (e_kind E); cbn in HK; try discriminate; reflexivity.
Qed.

(** What the store of a delta value [V] leaves in memory. *)
Lemma delta_store genericName NDEBUG G b B E mem T (len V : Z) :
  blocks G !! b = Some B ->
  symbolAddress G (e_target E) = Some T ->
  len = 2 \/ len = 3 ->
  (e_kind E = (if len =? 3 then Delta64 else Delta32) /\
   s64 (T - u64 (b_address B + e_offset E) + e_addend E) = V) \/
  (e_kind E = (if len =? 3 then NegDelta64 else NegDelta32) /\
   s64 (u64 (b_address B + e_offset E) - T + e_addend E) = V) ->
  0 <= e_offset E ->
  e_offset E + Z.of_nat (if len =? 3 then 8 else 4) <= Z.of_nat (length mem) ->
  if len =? 3 then
    exists mem', applyFixup genericName NDEBUG G b E mem = Success mem' /\
                 readLE 8 mem' (e_offset E) = Some (u64 V)
  else if (- 2 ^ 31 <=? V) && (V <? 2 ^ 31) then
    exists mem', applyFixup genericName NDEBUG G b E mem = Success mem' /\
                 readLE 4 mem' (e_offset E) = Some (u32 V)
  else applyFixup genericName NDEBUG G b E mem = Failure (TargetOutOfRange b E).
Proof.
  intros HB HT Hlen HK Hlo Hhi.
  assert (isDeltaKind (e_kind E) = true) as HD.
  { destruct HK as [[-> _]|[-> _]], Hlen as [-> | ->]; reflexivity. }
  rewrite (applyFixup_delta genericName NDEBUG G b B E mem T HB HT HD). cbv zeta.
  destruct Hlen as [-> | ->]; cbn [Z.eqb Pos.eqb] in *.
  - (* 32 bits *)
    assert ((if bool_decide (e_kind E = Delta32) || bool_decide (e_kind E = Delta64)
             then s64 (T - u64 (b_address B + e_offset E) + e_addend E)
             else s64 (u64 (b_address B + e_offset E) - T + e_addend E)) = V) as ->.
    { destruct HK as [[-> <-]|[-> <-]]; reflexivity. }
    assert (bool_decide (e_kind E = Delta32) || bool_decide (e_kind E = NegDelta32) = true) as ->.
    { destruct HK as [[-> _]|[-> _]]; reflexivity. }
    rewrite Z.gtb_ltb.
    destruct (Z.leb_spec (- 2 ^ 31) V), (Z.ltb_spec V (2 ^ 31)),
      (Z.ltb_spec V (- 2 ^ 31)), (Z.ltb_spec (2 ^ 31 - 1) V); try lia; cbn [andb orb];
      try reflexivity.
    rewrite (writeLE_in_bounds 4 mem (e_offset E) V Hlo Hhi).
    eexists. split; [reflexivity|].
    erewrite readLE_writeLE by (apply writeLE_in_bounds; assumption). reflexivity.
  - (* 64 bits *)
    assert ((if bool_decide (e_kind E = Delta32) || bool_decide (e_kind E = Delta64)
             then s64 (T - u64 (b_address B + e_offset E) + e_addend E)
             else s64 (u64 (b_address B + e_offset E) - T + e_addend E)) = V) as ->.
    { destruct HK as [[-> <-]|[-> <-]]; reflexivity. }
    assert (bool_decide (e_kind E = Delta32) || bool_decide (e_kind E = NegDelta32) = false) as ->.
    { destruct HK as [[-> _]|[-> _]]; reflexivity. }
    rewrite (writeLE_in_bounds 8 mem (e_offset E) V Hlo Hhi).
    eexists. split; [reflexivity|].
    erewrite readLE_writeLE by (apply writeLE_in_bounds; assumption). reflexivity.
Qed.

End RoundTripFacts.

(** C3 (amended). For a SUBTRACTOR/UNSIGNED pair whose symbol B ([ToSymbol])
    lies in the block to fix, the parser followed by the applier, run on the
    graph with arbitrary final addresses, stores
    [B.address - A.address + FixupValue], where [FixupValue] is the addend read
    from the original fixup bytes (less [ToSymbol]'s original address when the
    UNSIGNED record is not extern): as a 64-bit little-endian two's complement
    value for [r_length] 3, and as a 32-bit one for [r_length] 2 when it lies in
    [-2^31, 2^31) (else the applier fails with an OutOfRange error). With zero
    [FixupValue] this is [B.address - A.address]. The fixup lies at an offset
    below [2^32] in its block (edge offsets are [uint32_t]) and the working
    memory has the size of the block content. *)
Theorem subtractor_pair_roundtrip
    (genericName : EdgeKind -> option string)
    (NDEBUG NDEBUG' : bool) (fbi fba : Z -> option nat) (Sec : ObjSection) (RelEnd : nat)
    (G : LinkGraph) (RelItr : nat) (SubRI UnsignedRI : relocation_info)
    (fixsym b : nat) (SymbolToFix : Symbol) (B : Block)
    (from to : nat) (FromSymbol ToSymbol : Symbol) (raw FromAddress ToAddress : Z)
    (G' : LinkGraph) (B' : Block) (FromAddress' ToAddress' : Z) (mem : list Z) :
  let FixupAddress := u64 (os_address Sec + u32 (r_address SubRI)) in
  let Offset := u64 (FixupAddress - b_address B) in
  let width := if r_length SubRI =? 3 then 8%nat else 4%nat in
  reloc_data Sec !! RelItr = Some SubRI ->
  r_type SubRI = ARM64_RELOC_SUBTRACTOR ->
  r_pcrel SubRI = false ->
  r_extern SubRI = true ->
  r_length SubRI = 2 \/ r_length SubRI = 3 ->
  fba FixupAddress = Some fixsym ->
  symbols G !! fixsym = Some SymbolToFix ->
  s_base SymbolToFix = InBlock b ->
  blocks G !! b = Some B ->
  u64 (FixupAddress + u64 (Z.shiftl 1 (r_length SubRI))) <=
    u64 (b_address B + Z.of_nat (length (b_content B))) ->
  S RelItr <> RelEnd ->
  reloc_data Sec !! S RelItr = Some UnsignedRI ->
  r_address UnsignedRI = r_address SubRI ->
  r_length UnsignedRI = r_length SubRI ->
  fbi (r_symbolnum SubRI) = Some from ->
  symbols G !! from = Some FromSymbol ->
  getAddress G FromSymbol = Some FromAddress ->
  readLEs width (b_content B) Offset = Some raw ->
  (if r_extern UnsignedRI then fbi (r_symbolnum UnsignedRI) else fba (u64 raw)) = Some to ->
  symbols G !! to = Some ToSymbol ->
  getAddress G ToSymbol = Some ToAddress ->
  let FixupValue := if r_extern UnsignedRI then u64 raw else u64 (u64 raw - ToAddress) in
  s_base ToSymbol = InBlock b ->
  Offset < 2 ^ 32 ->
  blocks G' !! b = Some B' ->
  symbols G' !! from = Some FromSymbol ->
  symbols G' !! to = Some ToSymbol ->
  getAddress G' FromSymbol = Some FromAddress' ->
  getAddress G' ToSymbol = Some ToAddress' ->
  length mem = length (b_content B) ->
  let V := s64 (ToAddress' - FromAddress' + FixupValue) in
  exists G1 E,
    processRelocation genericName NDEBUG fbi fba Sec RelEnd G RelItr = Success (G1, S RelItr) /\
    b_edges <$> blocks G1 !! b = Some (b_edges B ++ [E]) /\
    e_offset E = Offset /\
    if r_length SubRI =? 3 then
      exists mem', applyFixup genericName NDEBUG' G' b E mem = Success mem' /\
                   readLE 8 mem' Offset = Some (u64 V)
    else if (- 2 ^ 31 <=? V) && (V <? 2 ^ 31) then
      exists mem', applyFixup genericName NDEBUG' G' b E mem = Success mem' /\
                   readLE 4 mem' Offset = Some (u32 V)
    else applyFixup genericName NDEBUG' G' b E mem = Failure (TargetOutOfRange b E).
Proof.
  intros FixupAddress Offset width HSub Hty Hpc Hex Hlen Hfix Hsym Hbase HB Hext Hend
    HUns Haddr Hlen' Hfrom HFrom HFromA Hraw Hto HTo HToA FixupValue
    HToB Hoff HB' HFrom' HTo' HFromA' HToA' Hmem V.
  pose proof (processRelocation_subtractor_pair genericName NDEBUG fbi fba Sec RelEnd G RelItr SubRI
              UnsignedRI fixsym b SymbolToFix B from to FromSymbol ToSymbol raw FromAddress
              ToAddress HSub Hty Hpc Hex Hlen Hfix Hsym Hbase HB Hext Hend HUns Haddr Hlen'
              Hfrom HFrom HFromA Hraw Hto HTo HToA) as Hparse.
  cbv zeta in Hparse. fold FixupAddress Offset FixupValue in Hparse.
  pose proof (readLEs_in_bounds _ _ _ _ Hraw) as [Hlo Hhi]. rewrite <- Hmem in Hhi.
  assert (u32 Offset = Offset) as Hu32.
  { apply wrap_small. pose proof (u64_range (FixupAddress - b_address B)). unfold Offset. lia. }
  rewrite (getAddress_InBlock G ToSymbol b B HToB HB) in HToA.
  rewrite (getAddress_InBlock G' ToSymbol b B' HToB HB') in HToA'.
  injection HToA as HToA. injection HToA' as HToA'.
  assert (forall K T A,
            b_edges <$> blocks (addEdge G b K Offset T A) !! b =
            Some (b_edges B ++ [mkEdge K Offset T (s64 A)])) as Hedges.
  { intros K T A. rewrite lookup_blocks_addEdge, HB, decide_True by reflexivity.
    cbn. rewrite Hu32. reflexivity. }
  assert (symbolAddress G' to = Some ToAddress') as HsymTo.
  { unfold symbolAddress. rewrite HTo'. cbn. rewrite <- HToA'.
    exact (getAddress_InBlock G' ToSymbol b B' HToB HB'). }
  assert (symbolAddress G' from = Some FromAddress') as HsymFrom.
  { unfold symbolAddress. rewrite HFrom'. exact HFromA'. }
  assert (Z.of_nat width = Z.of_nat (if r_length SubRI =? 3 then 8 else 4)) as Hwidth.
  { unfold width. destruct (r_length SubRI =? 3); reflexivity. }
  destruct (decide (s_base FromSymbol = InBlock b)) as [HFromB|HFromB].
  - (* both symbols are in the block to fix: a Delta edge to ToSymbol *)
    rewrite (getAddress_InBlock G FromSymbol b B HFromB HB) in HFromA.
    rewrite (getAddress_InBlock G' FromSymbol b B' HFromB HB') in HFromA'.
    injection HFromA as HFromA. injection HFromA' as HFromA'.
    set (E := mkEdge (if r_length SubRI =? 3 then Delta64 else Delta32) Offset to
                     (s64 (u64 (FixupValue + u64 (FixupAddress - FromAddress))))).
    eexists. exists E.
    split; [exact Hparse|]. split; [apply Hedges|]. split; [reflexivity|].
    apply (delta_store genericName NDEBUG' G' b B' E mem ToAddress' (r_length SubRI) V HB' HsymTo Hlen);
      unfold E; cbn [e_kind e_offset e_addend e_target]; [|exact Hlo|lia].
    left. split; [reflexivity|].
    subst FromAddress FromAddress' ToAddress'.
    apply (delta_value (b_address B) (b_address B') FixupAddress (s_offset FromSymbol)
             (s_offset ToSymbol) FixupValue).
  - (* only ToSymbol is in the block to fix: a NegDelta edge to FromSymbol *)
    rewrite decide_True in Hparse by exact HToB.
    set (E := mkEdge (if r_length SubRI =? 3 then NegDelta64 else NegDelta32) Offset from
                     (s64 (u64 (FixupValue - u64 (FixupAddress - ToAddress))))).
    eexists. exists E.
    split; [exact Hparse|]. split; [apply Hedges|]. split; [reflexivity|].
    apply (delta_store genericName NDEBUG' G' b B' E mem FromAddress' (r_length SubRI) V HB' HsymFrom Hlen);
      unfold E; cbn [e_kind e_offset e_addend e_target]; [|exact Hlo|lia].
    right. split; [reflexivity|].
    subst ToAddress'. rewrite <- HToA.
    apply (negdelta_value (b_address B) (b_address B') FixupAddress (s_offset ToSymbol)
             FromAddress' FixupValue).
Qed.

(** ** Relocation parser: the loop over the records *)

(** Inversion of a successful run through binds and tests. *)
Ltac inv_success :=
  repeat match goal with
  | H : mbind _ ?o = Success _ |- _ =>
      destruct o eqn:?; cbn [mbind Outcome_bind] in H; try discriminate H
  | H : (if ?c then _ else _) = Success _ |- _ => destruct c eqn:?; try discriminate H
  | H : (match ?x with _ => _ end) = Success _ |- _ => destruct x eqn:?; try discriminate H
  | H : Success _ = Success _ |- _ => inversion H; subst; clear H
  end.

Section StopsOnly.
Context {A B : Type} (P : JITLinkError -> Prop) (Q : AbortReason -> Prop).

Lemma stopsOnly_bind (o : Outcome A) (k : A -> Outcome B) :
  stopsOnly P Q o -> (forall a, stopsOnly P Q (k a)) -> stopsOnly P Q (o ≫= k).
Proof. intros Ho Hk. destruct o as [a|e|r]; cbn in *; [apply Hk | exact Ho | exact Ho]. Qed.

Lemma stopsOnly_access (o : option A) : Q BadAccess -> stopsOnly P Q (access o).
Proof. intros HQ. destruct o; cbn; [exact I | exact HQ]. Qed.

End StopsOnly.

Lemma stopsOnly_assert P (Q : AbortReason -> Prop) NDEBUG c :
  Q AssertionFailed -> stopsOnly P Q (assert NDEBUG c).
Proof. intros HQ. unfold assert. destruct (NDEBUG || c); cbn; [exact I | exact HQ]. Qed.

Lemma stopsOnly_kind_name P (Q : AbortReason -> Prop) genericName K :
  Q NoReturn -> stopsOnly P Q (getMachOARM64RelocationKindName genericName K).
Proof.
  intros HQ. destruct K; cbn; try exact I.
  destruct (genericName Pointer32); cbn; [exact I | exact HQ].
Qed.

Ltac stops_only_step :=
  first
  [ apply stopsOnly_access; exact I
  | apply stopsOnly_assert; exact I
  | apply stopsOnly_kind_name; exact I
  | apply stopsOnly_bind; [|intros]
  | match goal with
    | |- stopsOnly _ _ (Success _) => exact I
    | |- stopsOnly _ _ (Failure _) => exact I
    | |- stopsOnly _ _ (Abort _) => exact I
    | |- stopsOnly _ _ (Abort (if ?c then _ else _)) => destruct c; exact I
    | |- stopsOnly _ _ (if ?c then _ else _) => destruct c eqn:?
    | |- stopsOnly _ _ (match ?x with _ => _ end) => destruct x eqn:?
    end ].

Lemma getRelocationKind_notUnpairedAddend RI :
  stopsOnly notUnpairedAddend notOutOfFuel (getRelocationKind RI).
Proof. unfold getRelocationKind, unsupported. repeat stops_only_step. Qed.

Section LoopFacts.

Variable genericName : EdgeKind -> option string.
Variable NDEBUG : bool.
Variables fbi fba : Z -> option nat.

Lemma symbolByIndex_notUnpairedAddend i :
  stopsOnly notUnpairedAddend notOutOfFuel (symbolByIndex fbi i).
Proof. unfold symbolByIndex. repeat stops_only_step. Qed.

Lemma symbolByAddress_notUnpairedAddend a :
  stopsOnly notUnpairedAddend notOutOfFuel (symbolByAddress fba a).
Proof. unfold symbolByAddress. repeat stops_only_step. Qed.

Lemma getRelocationInfo_notUnpairedAddend Sec i :
  stopsOnly notUnpairedAddend notOutOfFuel (getRelocationInfo Sec i).
Proof. unfold getRelocationInfo. repeat stops_only_step. Qed.

Lemma getBlock_notUnpairedAddend Sym :
  stopsOnly notUnpairedAddend notOutOfFuel (getBlock NDEBUG Sym).
Proof. unfold getBlock. repeat stops_only_step. Qed.

Ltac stops_only :=
  repeat first
  [ apply getRelocationKind_notUnpairedAddend
  | apply symbolByIndex_notUnpairedAddend
  | apply symbolByAddress_notUnpairedAddend
  | apply getRelocationInfo_notUnpairedAddend
  | apply getBlock_notUnpairedAddend
  | stops_only_step ].

Lemma parsePairRelocation_notUnpairedAddend G b K RI FA FC Sec i RelEnd :
  stopsOnly notUnpairedAddend notOutOfFuel
    (parsePairRelocation NDEBUG fbi fba G b K RI FA FC Sec i RelEnd).
Proof. unfold parsePairRelocation. stops_only. Qed.

(** The test for an unpaired ADDEND compares the iterator of the ADDEND
    record itself with the end iterator; inside the loop they differ, so the
    error is never produced. *)
Lemma processRelocation_notUnpairedAddend Sec RelEnd G i :
  i <> RelEnd ->
  stopsOnly notUnpairedAddend notOutOfFuel (processRelocation genericName NDEBUG fbi fba Sec RelEnd G i).
Proof.
  intros Hne. unfold processRelocation.
  repeat first
  [ apply parsePairRelocation_notUnpairedAddend
  | match goal with
    | H : (i =? RelEnd)%nat = true |- _ => apply Nat.eqb_eq in H; contradiction
    | |- stopsOnly _ _ (let '(_, _) := ?p in _) => destruct p
    end
  | stops_only ].
Qed.

Lemma processRelocation_progress Sec RelEnd G i G' i' :
  processRelocation genericName NDEBUG fbi fba Sec RelEnd G i = Success (G', i') ->
  (i < length (reloc_data Sec))%nat /\ (i <= i')%nat.
Proof.
  intros H. unfold processRelocation in H.
  destruct (getRelocationInfo Sec i) as [RI| |] eqn:HRI; try discriminate.
  split.
  { unfold getRelocationInfo in HRI.
    destruct (reloc_data Sec !! i) eqn:Hl; [|discriminate].
    apply lookup_lt_Some in Hl. exact Hl. }
  cbn [mbind Outcome_bind] in H.
  inv_success; lia.
Qed.

(** The loop never reports an unpaired ADDEND, and fuel beyond the number
    of readable records is never used up. *)
Lemma relocationLoop_stops fuel : forall Sec RelEnd G i,
  (length (reloc_data Sec) - i < fuel)%nat ->
  stopsOnly notUnpairedAddend notOutOfFuel
    (relocationLoop genericName NDEBUG fbi fba fuel Sec RelEnd G i).
Proof.
  induction fuel as [|fuel IH]; intros Sec RelEnd G i Hfuel; [lia|].
  cbn [relocationLoop].
  destruct (Nat.eqb_spec i RelEnd) as [_|Hne]; [exact I|].
  pose proof (processRelocation_notUnpairedAddend Sec RelEnd G i Hne) as Hp.
  destruct (processRelocation genericName NDEBUG fbi fba Sec RelEnd G i) as [[G' i']| |] eqn:Heq;
    cbn [mbind Outcome_bind]; [|exact Hp|exact Hp].
  apply IH. apply processRelocation_progress in Heq. lia.
Qed.

Lemma addSectionRelocations_stops Sec G :
  stopsOnly notUnpairedAddend notOutOfFuel (addSectionRelocations genericName NDEBUG fbi fba Sec G).
Proof. apply relocationLoop_stops. lia. Qed.

End LoopFacts.

(** The applier returns no error of kind BadInstr, whatever the edge and the
    content: its tests of instruction words are assertions. *)
Lemma applyFixup_notBadInstr genericName NDEBUG G b E mem :
  stopsOnly notBadInstr (fun _ => True) (applyFixup genericName NDEBUG G b E mem).
Proof. unfold applyFixup, targetOutOfRangeError. repeat stops_only_step. Qed.

(** C8. A section whose relocation stream ends with an ADDEND record: the
    test for an unpaired ADDEND comes before the iterator is advanced, so it
    never fires. The parser reads the record behind the end of the stream,
    pairs it with the ADDEND and adds an edge; the loop then steps over the
    end iterator and goes on reading until the object buffer is exhausted. No
    "unpaired ADDEND" error is returned. *)
Theorem addRelocations_lone_addend_reads_past_end :
  nreloc Example.loneAddendSection = 1%nat /\
  getRelocationKind (Example.addendAt 0) = Success PairedAddend /\
  processRelocation Example.getGenericEdgeKindName
      false Example.findSymbolByIndex Example.findSymbolByAddress
      Example.loneAddendSection 1 Example.G 0
    = Success (addEdge Example.G 0 Branch26 0 1 0x10, 1%nat) /\
  addSectionRelocations Example.getGenericEdgeKindName
      false Example.findSymbolByIndex Example.findSymbolByAddress
      Example.loneAddendSection Example.G
    = Abort MalformedObject /\
  addSectionRelocations Example.getGenericEdgeKindName
      false Example.findSymbolByIndex Example.findSymbolByAddress
      (mkObjSection 0x1000 1 [Example.addendAt 0]) Example.G
    = Abort MalformedObject.
Proof. repeat split; reflexivity. Qed.

(** ** The parser on the example object *)

Lemma parse_subtractor_pair_witness :
  exists G1,
    processRelocation Example.getGenericEdgeKindName false Example.findSymbolByIndex
        Example.findSymbolByAddress Example.pairSection 2 Example.G 0
      = Success (G1, 1%nat) /\
    blocks G1 !! 4%nat =
      Some (mkBlock 1 [4; 0; 0; 0; 0; 0; 0; 0] 0x1040 8 0 [mkEdge NegDelta32 0 0 4]) /\
    (forall k, k <> 4%nat -> blocks G1 !! k = blocks Example.G !! k) /\
    sections G1 = sections Example.G /\ externals G1 = externals Example.G /\
    symbols G1 = symbols Example.G.
Proof.
  exact (proj1 (parse_subtractor_pair Example.getGenericEdgeKindName false
                  Example.findSymbolByIndex
                  Example.findSymbolByAddress Example.pairSection 2 Example.G 0
                  (Example.subtractorAt 0 2) (Example.unsignedAt 0 2) 4 4
                  (mkSymbol (Some "b") (InBlock 4) 0 8 false true)
                  (mkBlock 1 [4; 0; 0; 0; 0; 0; 0; 0] 0x1040 8 0 [])
                  0 4
                  (mkSymbol (Some "f") (InBlock 0) 0 16 true true)
                  (mkSymbol (Some "b") (InBlock 4) 0 8 false true)
                  4 0x1000 0x1040
                  eq_refl eq_refl eq_refl eq_refl (or_introl eq_refl) eq_refl eq_refl
                  eq_refl eq_refl ltac:(vm_compute; discriminate) ltac:(lia) eq_refl
                  eq_refl eq_refl eq_refl eq_refl eq_refl eq_refl eq_refl eq_refl
                  eq_refl)).
Defined.

(** Scenario 5 of the specification with the addend 4 in the fixup bytes:
    [f] at [0x1000], [b] at [0x1040]; the patched word is [0x44], that is
    [b - f + 4]. *)
Lemma subtractor_pair_roundtrip_witness :
  exists G1 E,
    processRelocation Example.getGenericEdgeKindName
        false Example.findSymbolByIndex Example.findSymbolByAddress
        Example.pairSection 2 Example.G 0 = Success (G1, 1%nat) /\
    b_edges <$> blocks G1 !! 4%nat = Some [E] /\
    e_offset E = 0 /\
    exists mem',
      applyFixup Example.getGenericEdgeKindName
          false Example.G 4 E [4; 0; 0; 0; 0; 0; 0; 0] = Success mem' /\
      readLE 4 mem' 0 = Some 0x44.
Proof.
  exact (subtractor_pair_roundtrip Example.getGenericEdgeKindName
      false false Example.findSymbolByIndex
           Example.findSymbolByAddress Example.pairSection 2 Example.G 0
           (Example.subtractorAt 0 2) (Example.unsignedAt 0 2) 4 4
           (mkSymbol (Some "b") (InBlock 4) 0 8 false true)
           (mkBlock 1 [4; 0; 0; 0; 0; 0; 0; 0] 0x1040 8 0 [])
           0 4
           (mkSymbol (Some "f") (InBlock 0) 0 16 true true)
           (mkSymbol (Some "b") (InBlock 4) 0 8 false true)
           4 0x1000 0x1040
           Example.G (mkBlock 1 [4; 0; 0; 0; 0; 0; 0; 0] 0x1040 8 0 [])
           0x1000 0x1040 [4; 0; 0; 0; 0; 0; 0; 0]
           eq_refl eq_refl eq_refl eq_refl (or_introl eq_refl) eq_refl eq_refl
           eq_refl eq_refl ltac:(vm_compute; discriminate) ltac:(lia) eq_refl
           eq_refl eq_refl eq_refl eq_refl eq_refl eq_refl eq_refl eq_refl
           eq_refl eq_refl eq_refl eq_refl eq_refl eq_refl eq_refl eq_refl eq_refl).
Defined.

(** With the addend 4 in the fixup bytes the patched value is not
    [B.address - A.address]: the parser and the applier leave [0x44] where
    [b - f] is [0x40]. *)
Lemma subtractor_pair_roundtrip_counterexample :
  symbolAddress Example.G 0 = Some 0x1000 /\
  symbolAddress Example.G 4 = Some 0x1040 /\
  processRelocation Example.getGenericEdgeKindName
      false Example.findSymbolByIndex Example.findSymbolByAddress
      Example.pairSection 2 Example.G 0
    = Success (addEdge Example.G 4 NegDelta32 0 0 4, 1%nat) /\
  applyFixup Example.getGenericEdgeKindName
      false (addEdge Example.G 4 NegDelta32 0 0 4) 4 (mkEdge NegDelta32 0 0 4)
      [4; 0; 0; 0; 0; 0; 0; 0]
    = Success [0x44; 0; 0; 0; 0; 0; 0; 0] /\
  readLE 4 [0x44; 0; 0; 0; 0; 0; 0; 0] 0 <> Some (u32 (0x1040 - 0x1000)).
Proof. repeat split; try reflexivity. vm_compute. discriminate. Qed.

(** ** GOT and stubs builder *)

Section BuilderFacts.

Variable G0 : LinkGraph.

Lemma alter_snoc {A} (f : A -> A) (l : list A) (x : A) :
  alter f (length l) (l ++ [x]) = l ++ [f x].
Proof.
  replace (length l) with (length l + 0)%nat by lia.
  rewrite alter_app_r. reflexivity.
Qed.

Lemma createGOTEntry_eq st t :
  createGOTEntry st t =
    let st1 := (getGOTSection st).1 in
    let sec := (getGOTSection st).2 in
    (withGraph st1
       (mkGraph (sections (graph st1))
                (blocks (graph st1) ++ [GOTEntryBlock sec t])
                (externals (graph st1))
                (symbols (graph st1) ++ [GOTEntrySymbol (length (blocks (graph st1)))])),
     length (symbols (graph st1))).
Proof.
  unfold createGOTEntry. destruct (getGOTSection st) as [st1 sec]. cbn.
  unfold addEdge. cbn. rewrite alter_snoc. reflexivity.
Qed.

Lemma createStub_eq st t :
  createStub st t =
    let st1 := (getStubsSection st).1 in
    let sec := (getStubsSection st).2 in
    let k := length (blocks (graph st1)) in
    let st2 := withGraph st1
                 (mkGraph (sections (graph st1))
                          (blocks (graph st1) ++ [mkBlock sec StubContent 0 1 0 []])
                          (externals (graph st1)) (symbols (graph st1))) in
    let st3 := (getGOTEntrySymbol st2 t).1 in
    let ge := (getGOTEntrySymbol st2 t).2 in
    (withGraph st3
       (mkGraph (sections (graph st3))
                (alter (pushEdge (mkEdge LDRLiteral19 0 ge 0)) k (blocks (graph st3)))
                (externals (graph st3))
                (symbols (graph st3) ++ [StubSymbol k])),
     length (symbols (graph st3))).
Proof.
  unfold createStub. destruct (getStubsSection st) as [st1 sec]. cbn.
  destruct (getGOTEntrySymbol _ t) as [st3 ge]. cbn. reflexivity.
Qed.

Lemma extends_refl x st : extends G0 x st st.
Proof. repeat split; auto. Qed.

Lemma extends_trans x st1 st2 st3 : extends G0 x st1 st2 -> extends G0 x st2 st3 -> extends G0 x st1 st3.
Proof.
  intros (A1 & A2 & A3 & A4 & A5 & A6 & A7) (B1 & B2 & B3 & B4 & B5 & B6 & B7).
  repeat split; eauto.
Qed.

Lemma GOTSlot_mono x st st' t ge k :
  extends G0 x st st' -> x <> Some k -> GOTSlot G0 st t ge k -> GOTSlot G0 st' t ge k.
Proof.
  intros (A1 & A2 & A3 & A4 & A5 & A6 & A7) Hx (H1 & H2 & (sec & H3 & H4) & H5 & H6).
  repeat split; eauto.
Qed.

Lemma StubSlot_mono x st st' t s k :
  extends G0 x st st' -> x <> Some k -> StubSlot G0 st t s k -> StubSlot G0 st' t s k.
Proof.
  intros (A1 & A2 & A3 & A4 & A5 & A6 & A7) Hx (H1 & H2 & (sec & ge & H3 & H4 & H5) & H6 & H7).
  repeat split; eauto 10.
Qed.

Lemma BuilderInv_new : BuilderInv G0 None (newBuilder G0).
Proof.
  split; cbn; try discriminate; try lia; try reflexivity.
  intros b B0 H. exists B0. auto.
Qed.


Lemma getGOTSection_spec p st :
  BuilderInv G0 p st ->
  let st1 := (getGOTSection st).1 in
  let sec := (getGOTSection st).2 in
  GOTSection st1 = Some sec /\
  (length (sections G0) <= sec)%nat /\
  sections (graph st1) !! sec = Some GOTSectionDecl /\
  (forall s S, sections (graph st) !! s = Some S -> sections (graph st1) !! s = Some S) /\
  (length (sections (graph st)) <= length (sections (graph st1)))%nat /\
  blocks (graph st1) = blocks (graph st) /\
  symbols (graph st1) = symbols (graph st) /\
  externals (graph st1) = externals (graph st) /\
  StubsSection st1 = StubsSection st /\
  GOTEntries st1 = GOTEntries st /\
  Stubs st1 = Stubs st /\
  (forall sec', GOTSection st = Some sec' -> sec' = sec).
Proof.
  intros HI. unfold getGOTSection.
  destruct (GOTSection st) as [sec|] eqn:Hsec; cbn.
  - destruct (inv_got_section _ _ _ HI sec Hsec) as [H1 H2].
    repeat split; auto. intros sec' Heq. congruence.
  - repeat split; auto; try discriminate.
    + apply (inv_sections_len _ _ _ HI).
    + apply list_lookup_middle. reflexivity.
    + intros s S H. apply lookup_app_l_Some. exact H.
    + rewrite length_app. lia.
Qed.

Lemma getStubsSection_spec p st :
  BuilderInv G0 p st ->
  let st1 := (getStubsSection st).1 in
  let sec := (getStubsSection st).2 in
  StubsSection st1 = Some sec /\
  (length (sections G0) <= sec)%nat /\
  sections (graph st1) !! sec = Some StubsSectionDecl /\
  (forall s S, sections (graph st) !! s = Some S -> sections (graph st1) !! s = Some S) /\
  (length (sections (graph st)) <= length (sections (graph st1)))%nat /\
  blocks (graph st1) = blocks (graph st) /\
  symbols (graph st1) = symbols (graph st) /\
  externals (graph st1) = externals (graph st) /\
  GOTSection st1 = GOTSection st /\
  GOTEntries st1 = GOTEntries st /\
  Stubs st1 = Stubs st /\
  (forall sec', StubsSection st = Some sec' -> sec' = sec).
Proof.
  intros HI. unfold getStubsSection.
  destruct (StubsSection st) as [sec|] eqn:Hsec; cbn.
  - destruct (inv_stubs_section _ _ _ HI sec Hsec) as [H1 H2].
    repeat split; auto. intros sec' Heq. congruence.
  - repeat split; auto; try discriminate.
    + apply (inv_sections_len _ _ _ HI).
    + apply list_lookup_middle. reflexivity.
    + intros s S H. apply lookup_app_l_Some. exact H.
    + rewrite length_app. lia.
Qed.


Lemma getGOTEntrySymbol_new st t :
  GOTEntries st !! t = None ->
  getGOTEntrySymbol st t =
    let st1 := (getGOTSection st).1 in
    let sec := (getGOTSection st).2 in
    (mkBuilder
       (mkGraph (sections (graph st1))
                (blocks (graph st1) ++ [GOTEntryBlock sec t])
                (externals (graph st1))
                (symbols (graph st1) ++ [GOTEntrySymbol (length (blocks (graph st1)))]))
       (GOTSection st1) (StubsSection st1)
       (<[t := length (symbols (graph st1))]> (GOTEntries st1)) (Stubs st1),
     length (symbols (graph st1))).
Proof.
  intros Hnone. unfold getGOTEntrySymbol. rewrite Hnone, createGOTEntry_eq. reflexivity.
Qed.

Lemma getGOTEntrySymbol_inv p st t :
  BuilderInv G0 p st ->
  (forall k, p = Some k -> (k < length (blocks (graph st)))%nat) ->
  let st' := (getGOTEntrySymbol st t).1 in
  let ge := (getGOTEntrySymbol st t).2 in
  BuilderInv G0 p st' /\ extends G0 None st st' /\
  GOTEntries st' !! t = Some ge /\
  Stubs st' = Stubs st /\ StubsSection st' = StubsSection st /\
  (forall b B, blocks (graph st) !! b = Some B -> blocks (graph st') !! b = Some B) /\
  (length (blocks (graph st)) <= length (blocks (graph st')))%nat.
Proof.
  intros HI Hp.
  destruct (GOTEntries st !! t) as [ge0|] eqn:Hget.
  { unfold getGOTEntrySymbol. rewrite Hget. cbn.
    split; [exact HI|]. split; [apply extends_refl|]. repeat split; auto. }
  rewrite (getGOTEntrySymbol_new st t Hget).
  destruct (getGOTSection_spec p st HI)
    as (Hsec & Hsecge & Hseclk & Hsecs & Hseclen & Hbl & Hsy & Hex & Hss & Hge & Hst & Huniq).
  set (st1 := (getGOTSection st).1) in *. set (sec := (getGOTSection st).2) in *.
  cbv zeta. cbn [fst snd]. rewrite Hbl, Hsy, Hex, Hss, Hge, Hst, Hsec.
  set (st' := mkBuilder _ _ _ _ _).
  assert (extends G0 None st st') as Hext.
  { repeat split; cbn.
    - intros t' ge' H. rewrite lookup_insert_ne; [exact H|]. intros ->. congruence.
    - auto.
    - intros sec' H. rewrite (Huniq sec' H). reflexivity.
    - auto.
    - exact Hsecs.
    - intros k B _ _ H. apply lookup_app_l_Some. exact H.
    - intros i S H. apply lookup_app_l_Some. exact H. }
  assert (GOTSlot G0 st' t (length (symbols (graph st))) (length (blocks (graph st)))) as Hslot.
  { repeat split; cbn.
    - apply lookup_insert_eq.
    - apply list_lookup_middle. reflexivity.
    - exists sec. split; [reflexivity|]. apply list_lookup_middle. reflexivity.
    - apply (inv_blocks_len _ _ _ HI).
    - apply (inv_symbols_len _ _ _ HI). }
  split; [|split; [exact Hext|]; split; [|split; [reflexivity|]; split; [reflexivity|]; split]].
  - split; cbn.
    + intros sec' H. injection H as <-. split; assumption.
    + intros sec' H. destruct (inv_stubs_section _ _ _ HI sec' H) as [H1 H2]. split; auto.
    + pose proof (inv_sections_len _ _ _ HI). lia.
    + rewrite length_app. pose proof (inv_blocks_len _ _ _ HI). lia.
    + rewrite length_app. pose proof (inv_symbols_len _ _ _ HI). lia.
    + intros i Hi. rewrite lookup_app_l by (pose proof (inv_symbols_len _ _ _ HI); lia).
      apply (inv_symbols_old _ _ _ HI). exact Hi.
    + intros b B0 H. destruct (inv_blocks_old _ _ _ HI b B0 H) as (B & HB & HBs).
      exists B. split; [|exact HBs]. apply lookup_app_l_Some. exact HB.
    + apply (inv_externals _ _ _ HI).
    + intros t' ge' H. destruct (decide (t = t')) as [<-|Hne].
      * rewrite lookup_insert_eq in H. injection H as <-. eexists. exact Hslot.
      * rewrite lookup_insert_ne in H by exact Hne.
        destruct (inv_got _ _ _ HI t' ge' H) as [k Hk]. exists k.
        apply (GOTSlot_mono None st st'); [exact Hext|discriminate|exact Hk].
    + intros t' s H. destruct (inv_stubs _ _ _ HI t' s H) as [k Hk]. exists k.
      apply (StubSlot_mono None st st'); [exact Hext|discriminate|exact Hk].
    + intros k Hk. rewrite length_app in Hk. cbn in Hk.
      destruct (decide (k = length (blocks (graph st)))) as [->|Hne].
      * right. left. eexists. eexists. exact Hslot.
      * destruct (inv_blocks_new _ _ _ HI k ltac:(lia)) as [Hpend|[(t' & ge' & H)|(t' & s' & H)]].
        -- left. exact Hpend.
        -- right. left. exists t', ge'.
           apply (GOTSlot_mono None st st'); [exact Hext|discriminate|exact H].
        -- right. right. exists t', s'.
           apply (StubSlot_mono None st st'); [exact Hext|discriminate|exact H].
    + intros i Hi. rewrite length_app in Hi. cbn in Hi.
      destruct (decide (i = length (symbols (graph st)))) as [->|Hne].
      * left. eexists. eexists. exact Hslot.
      * destruct (inv_symbols_new _ _ _ HI i ltac:(lia)) as [(t' & k' & H)|(t' & k' & H)].
        -- left. exists t', k'.
           apply (GOTSlot_mono None st st'); [exact Hext|discriminate|exact H].
        -- right. exists t', k'.
           apply (StubSlot_mono None st st'); [exact Hext|discriminate|exact H].
  - cbn. apply lookup_insert_eq.
  - cbn. intros b B H. apply lookup_app_l_Some. exact H.
  - cbn. rewrite length_app. lia.
Qed.


(** The state of [createStub] after the stub block has been created. *)
Lemma stub_block_created_inv st :
  BuilderInv G0 None st ->
  let st1 := (getStubsSection st).1 in
  let sec := (getStubsSection st).2 in
  let k := length (blocks (graph st)) in
  let st2 := withGraph st1
               (mkGraph (sections (graph st1))
                        (blocks (graph st1) ++ [mkBlock sec StubContent 0 1 0 []])
                        (externals (graph st1)) (symbols (graph st1))) in
  BuilderInv G0 (Some k) st2 /\ extends G0 None st st2 /\
  StubsSection st2 = Some sec /\ Stubs st2 = Stubs st /\
  blocks (graph st2) = blocks (graph st) ++ [mkBlock sec StubContent 0 1 0 []].
Proof.
  intros HI.
  destruct (getStubsSection_spec None st HI)
    as (Hsec & Hsecge & Hseclk & Hsecs & Hseclen & Hbl & Hsy & Hex & Hgs & Hge & Hst & Huniq).
  set (st1 := (getStubsSection st).1) in *. set (sec := (getStubsSection st).2) in *.
  cbv zeta. rewrite Hbl, Hsy, Hex.
  set (st2 := withGraph st1 _).
  assert (extends G0 None st st2) as Hext.
  { repeat split; cbn.
    - rewrite Hge. auto.
    - rewrite Hst. auto.
    - rewrite Hgs. auto.
    - intros sec' H. rewrite (Huniq sec' H). exact Hsec.
    - exact Hsecs.
    - intros k B _ _ H. apply lookup_app_l_Some. exact H.
    - auto. }
  split; [|split; [exact Hext|]; split; [exact Hsec|]; split; [exact Hst|reflexivity]].
  split; cbn.
  - rewrite Hgs. intros sec' H. destruct (inv_got_section _ _ _ HI sec' H) as [H1 H2]. auto.
  - rewrite Hsec. intros sec' H. injection H as <-. auto.
  - pose proof (inv_sections_len _ _ _ HI). lia.
  - rewrite length_app. pose proof (inv_blocks_len _ _ _ HI). lia.
  - apply (inv_symbols_len _ _ _ HI).
  - apply (inv_symbols_old _ _ _ HI).
  - intros b B0 H. destruct (inv_blocks_old _ _ _ HI b B0 H) as (B & HB & HBs).
    exists B. split; [|exact HBs]. apply lookup_app_l_Some. exact HB.
  - apply (inv_externals _ _ _ HI).
  - rewrite Hge. intros t ge H. destruct (inv_got _ _ _ HI t ge H) as [k Hk]. exists k.
    apply (GOTSlot_mono None st st2); [exact Hext|discriminate|exact Hk].
  - rewrite Hst. intros t s H. destruct (inv_stubs _ _ _ HI t s H) as [k Hk]. exists k.
    apply (StubSlot_mono None st st2); [exact Hext|discriminate|exact Hk].
  - intros k Hk. rewrite length_app in Hk. cbn in Hk.
    destruct (decide (k = length (blocks (graph st)))) as [->|Hne]; [left; reflexivity|].
    destruct (inv_blocks_new _ _ _ HI k ltac:(lia)) as [Hpend|[(t' & ge' & H)|(t' & s' & H)]].
    + discriminate.
    + right. left. exists t', ge'.
      apply (GOTSlot_mono None st st2); [exact Hext|discriminate|exact H].
    + right. right. exists t', s'.
      apply (StubSlot_mono None st st2); [exact Hext|discriminate|exact H].
  - intros i Hi.
    destruct (inv_symbols_new _ _ _ HI i Hi) as [(t' & k' & H)|(t' & k' & H)].
    + left. exists t', k'.
      apply (GOTSlot_mono None st st2); [exact Hext|discriminate|exact H].
    + right. exists t', k'.
      apply (StubSlot_mono None st st2); [exact Hext|discriminate|exact H].
Qed.


Lemma getStubSymbol_inv st t :
  BuilderInv G0 None st ->
  let st' := (getStubSymbol st t).1 in
  let s := (getStubSymbol st t).2 in
  BuilderInv G0 None st' /\ extends G0 None st st' /\
  Stubs st' !! t = Some s /\
  (forall b B, blocks (graph st) !! b = Some B -> blocks (graph st') !! b = Some B).
Proof.
  intros HI.
  destruct (Stubs st !! t) as [s0|] eqn:Hget.
  { unfold getStubSymbol. rewrite Hget. cbn.
    split; [exact HI|]. split; [apply extends_refl|]. split; auto. }
  unfold getStubSymbol. rewrite Hget, createStub_eq.
  destruct (stub_block_created_inv st HI) as (HI2 & Hext2 & Hsec2 & Hst2 & Hbl2).
  set (st1 := (getStubsSection st).1) in *. set (sec := (getStubsSection st).2) in *.
  set (k := length (blocks (graph st))) in *.
  assert (length (blocks (graph st1)) = k) as Hk1.
  { destruct (getStubsSection_spec None st HI) as (_ & _ & _ & _ & _ & Hbl & _).
    fold st1 in Hbl. rewrite Hbl. reflexivity. }
  cbv zeta in HI2, Hext2, Hsec2, Hst2, Hbl2 |- *. rewrite Hk1.
  set (st2 := withGraph st1 _) in *.
  assert (forall k', Some k = Some k' -> (k' < length (blocks (graph st2)))%nat) as Hpend.
  { intros k' H. injection H as <-. rewrite Hbl2, length_app. cbn. lia. }
  destruct (getGOTEntrySymbol_inv (Some k) st2 t HI2 Hpend)
    as (HI3 & Hext3 & Hge3 & Hst3 & Hsec3 & Hbl3 & Hlen3).
  set (st3 := (getGOTEntrySymbol st2 t).1) in *. set (ge := (getGOTEntrySymbol st2 t).2) in *.
  cbn [fst snd withGraph graph GOTSection StubsSection GOTEntries Stubs].
  set (st' := mkBuilder _ _ _ _ _).
  assert (blocks (graph st3) !! k = Some (mkBlock sec StubContent 0 1 0 [])) as Hk3.
  { apply Hbl3. rewrite Hbl2. apply list_lookup_middle. reflexivity. }
  assert (Stubs st3 !! t = None) as Hnone3 by (rewrite Hst3, Hst2; exact Hget).
  assert (extends G0 (Some k) st3 st') as Hext'.
  { repeat split; cbn; auto.
    - intros t' s' H. rewrite lookup_insert_ne; [exact H|]. intros ->. congruence.
    - intros k' B _ Hne H. rewrite list_lookup_alter_ne; [exact H|]. congruence.
    - intros i S H. apply lookup_app_l_Some. exact H. }
  assert (forall b B, blocks (graph st) !! b = Some B -> blocks (graph st') !! b = Some B)
    as Hkeep.
  { intros b B H. cbn.
    rewrite list_lookup_alter_ne by (apply lookup_lt_Some in H; fold k in H; lia).
    apply Hbl3. rewrite Hbl2. apply lookup_app_l_Some. exact H. }
  assert (extends G0 None st st') as Hext.
  { destruct Hext2 as (A1 & A2 & A3 & A4 & A5 & A6 & A7).
    destruct Hext3 as (B1 & B2 & B3 & B4 & B5 & B6 & B7).
    destruct Hext' as (C1 & C2 & C3 & C4 & C5 & C6 & C7).
    repeat split; eauto. }
  assert (StubSlot G0 st' t (length (symbols (graph st3))) k) as Hslot.
  { repeat split; cbn.
    - apply lookup_insert_eq.
    - apply list_lookup_middle. reflexivity.
    - exists sec, ge. split; [rewrite Hsec3; exact Hsec2|]. split; [exact Hge3|].
      rewrite list_lookup_alter_eq, Hk3. reflexivity.
    - apply (inv_blocks_len _ _ _ HI).
    - apply (inv_symbols_len _ _ _ HI3). }
  split; [|split; [exact Hext|]; split; [apply lookup_insert_eq|exact Hkeep]].
  split; cbn.
  - intros sec' H. exact (inv_got_section _ _ _ HI3 sec' H).
  - intros sec' H. exact (inv_stubs_section _ _ _ HI3 sec' H).
  - apply (inv_sections_len _ _ _ HI3).
  - rewrite length_alter. apply (inv_blocks_len _ _ _ HI3).
  - rewrite length_app. pose proof (inv_symbols_len _ _ _ HI3). lia.
  - intros i Hi. rewrite lookup_app_l by (pose proof (inv_symbols_len _ _ _ HI3); lia).
    apply (inv_symbols_old _ _ _ HI3). exact Hi.
  - intros b B0 H. destruct (inv_blocks_old _ _ _ HI3 b B0 H) as (B & HB & HBs).
    exists B. split; [|exact HBs].
    rewrite list_lookup_alter_ne; [exact HB|].
    apply lookup_lt_Some in H. pose proof (inv_blocks_len _ _ _ HI). fold k in H0. lia.
  - apply (inv_externals _ _ _ HI3).
  - intros t' ge' H. destruct (inv_got _ _ _ HI3 t' ge' H) as [k' Hk'].
    exists k'. apply (GOTSlot_mono (Some k) st3 st'); [exact Hext'| |exact Hk'].
    intros Heq. injection Heq as <-.
    destruct Hk' as (_ & _ & (sec' & _ & Hblk) & _). rewrite Hk3 in Hblk. discriminate.
  - intros t' s' H. destruct (decide (t = t')) as [<-|Hne].
    + rewrite lookup_insert_eq in H. injection H as <-. exists k. exact Hslot.
    + rewrite lookup_insert_ne in H by exact Hne.
      destruct (inv_stubs _ _ _ HI3 t' s' H) as [k' Hk'].
      exists k'. apply (StubSlot_mono (Some k) st3 st'); [exact Hext'| |exact Hk'].
      intros Heq. injection Heq as <-.
      destruct Hk' as (_ & _ & (sec' & ge' & _ & _ & Hblk) & _). rewrite Hk3 in Hblk.
      discriminate.
  - intros k' Hk'. rewrite length_alter in Hk'. right.
    destruct (decide (k' = k)) as [->|Hne].
    + right. eexists. eexists. exact Hslot.
    + destruct (inv_blocks_new _ _ _ HI3 k' Hk') as [Hpend'|[(t' & ge' & H)|(t' & s' & H)]].
      * congruence.
      * left. exists t', ge'.
        apply (GOTSlot_mono (Some k) st3 st'); [exact Hext'|congruence|exact H].
      * right. exists t', s'.
        apply (StubSlot_mono (Some k) st3 st'); [exact Hext'|congruence|exact H].
  - intros i Hi. rewrite length_app in Hi. cbn in Hi.
    destruct (decide (i = length (symbols (graph st3)))) as [->|Hne].
    + right. eexists. eexists. exact Hslot.
    + destruct (inv_symbols_new _ _ _ HI3 i ltac:(lia)) as [(t' & k' & H)|(t' & k' & H)].
      * left. exists t', k'.
        apply (GOTSlot_mono (Some k) st3 st'); [exact Hext'| |exact H].
        intros Heq. injection Heq as <-.
        destruct H as (_ & _ & (sec' & _ & Hblk) & _). rewrite Hk3 in Hblk. discriminate.
      * right. exists t', k'.
        apply (StubSlot_mono (Some k) st3 st'); [exact Hext'| |exact H].
        intros Heq. injection Heq as <-.
        destruct H as (_ & _ & (sec' & ge' & _ & _ & Hblk) & _). rewrite Hk3 in Hblk.
        discriminate.
Qed.


Lemma wellFormed_section b B :
  wellFormed G0 = true -> blocks G0 !! b = Some B ->
  (b_section B < length (sections G0))%nat.
Proof.
  intros Hwf HB. unfold wellFormed in Hwf. apply andb_prop in Hwf as [Hb _].
  rewrite forallb_forall in Hb.
  specialize (Hb B). rewrite <- list_elem_of_In in Hb.
  specialize (Hb (list_elem_of_lookup_2 _ _ _ HB)).
  apply andb_prop in Hb as [Hs _]. apply Nat.ltb_lt in Hs. exact Hs.
Qed.

Lemma wellFormed_target b j E :
  wellFormed G0 = true -> getEdge G0 b j = Some E ->
  (e_target E < length (symbols G0))%nat.
Proof.
  intros Hwf HE. unfold getEdge in HE.
  destruct (blocks G0 !! b) as [B|] eqn:HB; [|discriminate]. cbn in HE.
  unfold wellFormed in Hwf. apply andb_prop in Hwf as [Hb _].
  rewrite forallb_forall in Hb.
  specialize (Hb B). rewrite <- list_elem_of_In in Hb.
  specialize (Hb (list_elem_of_lookup_2 _ _ _ HB)).
  apply andb_prop in Hb as [_ He]. rewrite forallb_forall in He.
  specialize (He E). rewrite <- list_elem_of_In in He.
  specialize (He (list_elem_of_lookup_2 _ _ _ HE)).
  apply Nat.ltb_lt in He. exact He.
Qed.

Lemma wellFormed_base s Sym k :
  wellFormed G0 = true -> symbols G0 !! s = Some Sym -> s_base Sym = InBlock k ->
  (k < length (blocks G0))%nat.
Proof.
  intros Hwf HS Hbase. unfold wellFormed in Hwf. apply andb_prop in Hwf as [_ Hs].
  rewrite forallb_forall in Hs.
  specialize (Hs Sym). rewrite <- list_elem_of_In in Hs.
  specialize (Hs (list_elem_of_lookup_2 _ _ _ HS)).
  rewrite Hbase in Hs. apply Nat.ltb_lt in Hs. exact Hs.
Qed.

Lemma externalBranchAddendsZero_edge b j E :
  externalBranchAddendsZero G0 = true -> getEdge G0 b j = Some E ->
  isExternalBranchEdge G0 E = Success true ->
  e_addend E = 0.
Proof.
  intros Hz HE Hext. unfold getEdge in HE.
  destruct (blocks G0 !! b) as [B|] eqn:HB; [|discriminate]. cbn in HE.
  unfold externalBranchAddendsZero in Hz. rewrite forallb_forall in Hz.
  specialize (Hz B). rewrite <- list_elem_of_In in Hz.
  specialize (Hz (list_elem_of_lookup_2 _ _ _ HB)).
  rewrite forallb_forall in Hz.
  specialize (Hz E). rewrite <- list_elem_of_In in Hz.
  specialize (Hz (list_elem_of_lookup_2 _ _ _ HE)).
  rewrite Hext in Hz. apply Z.eqb_eq in Hz. exact Hz.
Qed.

Lemma finalEdge_mono x st st' E0 E :
  extends G0 x st st' -> finalEdge G0 st E0 E -> finalEdge G0 st' E0 E.
Proof.
  intros (A1 & A2 & _). unfold finalEdge.
  destruct (isGOTEdge E0).
  - intros (ge & H1 & H2). exists ge. auto.
  - destruct (isExternalBranchEdge G0 E0) as [[|]| |]; auto.
    intros (s & H1 & H2). exists s. auto.
Qed.

Lemma setEdge_inv st b j E :
  BuilderInv G0 None st -> (b < length (blocks G0))%nat ->
  let st' := withGraph st (setEdge (graph st) b j E) in
  BuilderInv G0 None st' /\ extends G0 None st st'.
Proof.
  intros HI Hb. cbv zeta. set (st' := withGraph st _).
  assert (extends G0 None st st') as Hext.
  { repeat split; cbn; auto.
    intros k B Hk _ H. rewrite list_lookup_alter_ne; [exact H|]. lia. }
  split; [|exact Hext].
  split; cbn.
  - apply (inv_got_section _ _ _ HI).
  - apply (inv_stubs_section _ _ _ HI).
  - apply (inv_sections_len _ _ _ HI).
  - rewrite length_alter. apply (inv_blocks_len _ _ _ HI).
  - apply (inv_symbols_len _ _ _ HI).
  - apply (inv_symbols_old _ _ _ HI).
  - intros b' B0 H. destruct (inv_blocks_old _ _ _ HI b' B0 H) as (B & HB & Hs & Hl).
    destruct (decide (b = b')) as [<-|Hne].
    + exists (replaceEdge j E B). rewrite list_lookup_alter_eq, HB. cbn.
      rewrite length_insert. auto.
    + exists B. rewrite list_lookup_alter_ne by exact Hne. auto.
  - apply (inv_externals _ _ _ HI).
  - intros t ge H. destruct (inv_got _ _ _ HI t ge H) as [k Hk]. exists k.
    apply (GOTSlot_mono None st st'); [exact Hext|discriminate|exact Hk].
  - intros t s H. destruct (inv_stubs _ _ _ HI t s H) as [k Hk]. exists k.
    apply (StubSlot_mono None st st'); [exact Hext|discriminate|exact Hk].
  - intros k Hk. rewrite length_alter in Hk.
    destruct (inv_blocks_new _ _ _ HI k Hk) as [Hpend|[(t' & ge' & H)|(t' & s' & H)]].
    + discriminate.
    + right. left. exists t', ge'.
      apply (GOTSlot_mono None st st'); [exact Hext|discriminate|exact H].
    + right. right. exists t', s'.
      apply (StubSlot_mono None st st'); [exact Hext|discriminate|exact H].
  - intros i Hi.
    destruct (inv_symbols_new _ _ _ HI i Hi) as [(t' & k' & H)|(t' & k' & H)].
    + left. exists t', k'.
      apply (GOTSlot_mono None st st'); [exact Hext|discriminate|exact H].
    + right. exists t', k'.
      apply (StubSlot_mono None st st'); [exact Hext|discriminate|exact H].
Qed.


Lemma getEdge_setEdge_eq G b j E E' :
  getEdge G b j = Some E -> getEdge (setEdge G b j E') b j = Some E'.
Proof.
  unfold getEdge, setEdge. cbn. intros H.
  rewrite list_lookup_alter_eq.
  destruct (blocks G !! b) as [B|]; [|discriminate]. cbn in *.
  apply list_lookup_insert_eq. apply lookup_lt_Some in H. exact H.
Qed.

Lemma getEdge_setEdge_ne G b j E' b' j' :
  (b', j') <> (b, j) -> getEdge (setEdge G b j E') b' j' = getEdge G b' j'.
Proof.
  unfold getEdge, setEdge. cbn. intros Hne.
  destruct (decide (b = b')) as [<-|Hb].
  - rewrite list_lookup_alter_eq. destruct (blocks G !! b) as [B|]; [|reflexivity]. cbn.
    apply list_lookup_insert_ne. congruence.
  - rewrite list_lookup_alter_ne by exact Hb. reflexivity.
Qed.

Lemma getEdge_keep G G' b j E :
  (forall b B, blocks G !! b = Some B -> blocks G' !! b = Some B) ->
  getEdge G b j = Some E -> getEdge G' b j = Some E.
Proof.
  unfold getEdge. intros Hkeep H.
  destruct (blocks G !! b) as [B|] eqn:HB; [|discriminate].
  rewrite (Hkeep b B HB). exact H.
Qed.

Lemma doneBefore_step b j b' j' :
  (b', j') <> (b, j) -> doneBefore b (S j) b' j' = doneBefore b j b' j'.
Proof.
  intros Hne. unfold doneBefore.
  destruct (Nat.ltb_spec b' b), (Nat.eqb_spec b' b), (Nat.ltb_spec j' (S j)),
    (Nat.ltb_spec j' j); cbn; try reflexivity; try lia.
  subst. assert (j' = j) by lia. congruence.
Qed.

Lemma doneBefore_here b j : doneBefore b (S j) b j = true.
Proof.
  unfold doneBefore. rewrite Nat.eqb_refl.
  destruct (Nat.ltb_spec j (S j)); [|lia]. apply orb_true_r.
Qed.

Lemma finalEdge_withGraph st G E0 E : finalEdge G0 (withGraph st G) E0 E <-> finalEdge G0 st E0 E.
Proof. reflexivity. Qed.

(** The scan moves over edge [j] of block [b], which becomes [E']. *)
Lemma EdgesInv_step st st1 b j E0 E' :
  EdgesInv G0 b j st ->
  getEdge G0 b j = Some E0 ->
  extends G0 None st st1 ->
  (forall b B, blocks (graph st) !! b = Some B -> blocks (graph st1) !! b = Some B) ->
  finalEdge G0 st1 E0 E' ->
  EdgesInv G0 b (S j) (withGraph st1 (setEdge (graph st1) b j E')).
Proof.
  intros HE H0 Hext Hkeep Hfin b' j' E0' H0'.
  destruct (HE b' j' E0' H0') as (E & HEget & Hstat).
  pose proof (getEdge_keep _ _ _ _ _ Hkeep HEget) as HEget1.
  destruct (decide ((b', j') = (b, j))) as [Heq|Hne].
  - injection Heq as -> ->. rewrite H0 in H0'. injection H0' as <-.
    exists E'. cbn. rewrite (getEdge_setEdge_eq _ _ _ _ _ HEget1), doneBefore_here.
    split; [reflexivity|exact Hfin].
  - exists E. cbn. rewrite (getEdge_setEdge_ne _ _ _ _ _ _ Hne), doneBefore_step by exact Hne.
    split; [exact HEget1|].
    destruct (doneBefore b j b' j'); [|exact Hstat].
    apply finalEdge_withGraph. apply (finalEdge_mono None st st1); assumption.
Qed.

(** The scan moves over an edge that the pass leaves alone. *)
Lemma EdgesInv_skip st b j E0 :
  EdgesInv G0 b j st ->
  getEdge G0 b j = Some E0 ->
  finalEdge G0 st E0 E0 ->
  EdgesInv G0 b (S j) st.
Proof.
  intros HE H0 Hfin b' j' E0' H0'.
  destruct (HE b' j' E0' H0') as (E & HEget & Hstat).
  exists E. split; [exact HEget|].
  destruct (decide ((b', j') = (b, j))) as [Heq|Hne].
  - injection Heq as -> ->. rewrite H0 in H0'. injection H0' as <-.
    rewrite doneBefore_here.
    assert (doneBefore b j b j = false) as Hnot.
    { unfold doneBefore. rewrite !Nat.ltb_irrefl, andb_false_r. reflexivity. }
    rewrite Hnot in Hstat. subst E. exact Hfin.
  - rewrite doneBefore_step by exact Hne. exact Hstat.
Qed.

Lemma isExternalBranchEdge_old p st E :
  BuilderInv G0 p st -> (e_target E < length (symbols G0))%nat ->
  isExternalBranchEdge (graph st) E = isExternalBranchEdge G0 E.
Proof.
  intros HI Ht. unfold isExternalBranchEdge.
  rewrite (inv_symbols_old _ _ _ HI _ Ht). reflexivity.
Qed.

Lemma fixEdge_spec NDEBUG st b j E0 :
  wellFormed G0 = true ->
  NDEBUG = true \/ externalBranchAddendsZero G0 = true ->
  BuilderInv G0 None st ->
  EdgesInv G0 b j st ->
  getEdge G0 b j = Some E0 ->
  exists st', fixEdge NDEBUG b j st = Success st' /\
              BuilderInv G0 None st' /\ EdgesInv G0 b (S j) st'.
Proof.
  intros Hwf Hassert HI HE H0.
  assert (b < length (blocks G0))%nat as Hb.
  { unfold getEdge in H0. destruct (blocks G0 !! b) eqn:HB; [|discriminate].
    apply lookup_lt_Some in HB. exact HB. }
  destruct (HE b j E0 H0) as (E & HEget & Hstat).
  assert (doneBefore b j b j = false) as Hnot.
  { unfold doneBefore. rewrite !Nat.ltb_irrefl, andb_false_r. reflexivity. }
  rewrite Hnot in Hstat. subst E.
  unfold fixEdge. rewrite HEget. cbn [access mbind Outcome_bind].
  destruct (isGOTEdge E0) eqn:HGOT.
  - (* a GOT edge *)
    destruct (getGOTEntrySymbol_inv None st (e_target E0) HI ltac:(discriminate))
      as (HI1 & Hext1 & Hge1 & _ & _ & Hkeep1 & _).
    destruct (getGOTEntrySymbol st (e_target E0)) as [st1 ge] eqn:Hcall. cbn [fst snd] in *.
    assert (fixGOTEdge E0 ge =
            Success (mkEdge (if bool_decide (e_kind E0 = PointerToGOT) then Delta32
                             else e_kind E0) (e_offset E0) ge (e_addend E0))) as Hfix.
    { unfold fixGOTEdge, isGOTEdge in *. destruct E0 as [K off t a]. cbn in *.
      destruct K; cbn in *; try discriminate; reflexivity. }
    rewrite Hfix. cbn [mbind Outcome_bind].
    eexists. split; [reflexivity|].
    split.
    + apply (setEdge_inv st1 b j _ HI1 Hb).
    + apply (EdgesInv_step st st1 b j E0); try assumption.
      unfold finalEdge. rewrite HGOT. exists ge. auto.
  - pose proof (wellFormed_target b j E0 Hwf H0) as Ht.
    rewrite (isExternalBranchEdge_old None st E0 HI Ht).
    destruct (isExternalBranchEdge G0 E0) as [ext| |] eqn:Hext0.
    + cbn [mbind Outcome_bind]. destruct ext.
      * (* an external branch *)
        destruct (getStubSymbol_inv st (e_target E0) HI) as (HI1 & Hext1 & Hs1 & Hkeep1).
        destruct (getStubSymbol st (e_target E0)) as [st1 s] eqn:Hcall. cbn [fst snd] in *.
        assert (e_kind E0 = Branch26) as HK.
        { unfold isExternalBranchEdge in Hext0.
          destruct (bool_decide (e_kind E0 = Branch26)) eqn:Hd; [|discriminate].
          apply bool_decide_eq_true in Hd. exact Hd. }
        assert (fixExternalBranchEdge NDEBUG E0 s = Success (setTarget E0 s)) as Hfix.
        { unfold fixExternalBranchEdge, assert.
          rewrite bool_decide_true by exact HK. rewrite orb_true_r. cbn.
          destruct Hassert as [->|Hz]; [reflexivity|].
          rewrite (externalBranchAddendsZero_edge b j E0 Hz H0 Hext0). rewrite orb_true_r.
          reflexivity. }
        rewrite Hfix. cbn [mbind Outcome_bind].
        eexists. split; [reflexivity|].
        split.
        -- apply (setEdge_inv st1 b j _ HI1 Hb).
        -- apply (EdgesInv_step st st1 b j E0); try assumption.
           unfold finalEdge. rewrite HGOT, Hext0. exists s. auto.
      * eexists. split; [reflexivity|]. split; [exact HI|].
        apply (EdgesInv_skip st b j E0); try assumption.
        unfold finalEdge. rewrite HGOT, Hext0. reflexivity.
    + (* the lookup of the target cannot fail *)
      unfold isExternalBranchEdge in Hext0.
      destruct (bool_decide (e_kind E0 = Branch26)); [|discriminate].
      destruct (symbols G0 !! e_target E0); discriminate.
    + unfold isExternalBranchEdge in Hext0.
      destruct (bool_decide (e_kind E0 = Branch26)); [|discriminate].
      destruct (symbols G0 !! e_target E0) eqn:Hl; [discriminate|].
      apply lookup_ge_None in Hl. lia.
Qed.


Lemma GOTSlot_isGOTEntry p st t ge k :
  BuilderInv G0 p st -> GOTSlot G0 st t ge k -> isGOTEntry st ge t /\ isGOTEntryBlock st k t.
Proof.
  intros HI (H1 & H2 & (sec & H3 & H4) & _).
  destruct (inv_got_section _ _ _ HI sec H3) as [_ Hsec].
  assert (isGOTEntryBlock st k t) as Hblk by (exists sec; auto).
  split; [|exact Hblk]. exists k. auto.
Qed.

Lemma StubSlot_isStub p st t s k :
  BuilderInv G0 p st -> StubSlot G0 st t s k -> isStub st s t.
Proof.
  intros HI (H1 & H2 & (sec & ge & H3 & H4 & H5) & _).
  destruct (inv_stubs_section _ _ _ HI sec H3) as [_ Hsec].
  destruct (inv_got _ _ _ HI t ge H4) as [k' Hslot].
  destruct (GOTSlot_isGOTEntry p st t ge k' HI Hslot) as [Hent _].
  exists k, sec, ge. auto.
Qed.

(** A block of the input graph is not in a section made by the builder. *)
Lemma new_section_block p st k B sec :
  wellFormed G0 = true -> BuilderInv G0 p st ->
  blocks (graph st) !! k = Some B -> b_section B = sec ->
  (length (sections G0) <= sec)%nat ->
  (length (blocks G0) <= k)%nat.
Proof.
  intros Hwf HI HB Hsec Hge.
  destruct (Nat.le_gt_cases (length (blocks G0)) k) as [Hle|Hlt]; [exact Hle|].
  destruct (lookup_lt_is_Some_2 (blocks G0) k Hlt) as [B0 HB0].
  destruct (inv_blocks_old _ _ _ HI k B0 HB0) as (B' & HB' & Hs & _).
  rewrite HB in HB'. injection HB' as <-.
  pose proof (wellFormed_section k B0 Hwf HB0). lia.
Qed.

(** A symbol of the input graph is not based on a block made by the builder. *)
Lemma new_block_symbol p st i Sym k :
  wellFormed G0 = true -> BuilderInv G0 p st ->
  symbols (graph st) !! i = Some Sym -> s_base Sym = InBlock k ->
  (length (blocks G0) <= k)%nat ->
  (length (symbols G0) <= i)%nat.
Proof.
  intros Hwf HI HS Hbase Hk.
  destruct (Nat.le_gt_cases (length (symbols G0)) i) as [Hle|Hlt]; [exact Hle|].
  rewrite (inv_symbols_old _ _ _ HI i Hlt) in HS.
  pose proof (wellFormed_base i Sym k Hwf HS Hbase). lia.
Qed.

Lemma isGOTEntryBlock_slot st k t :
  wellFormed G0 = true -> BuilderInv G0 None st -> isGOTEntryBlock st k t ->
  exists ge, GOTSlot G0 st t ge k.
Proof.
  intros Hwf HI (sec & Hsec & Hdecl & Hblk).
  destruct (inv_got_section _ _ _ HI sec Hsec) as [Hge _].
  pose proof (new_section_block None st k _ sec Hwf HI Hblk eq_refl Hge) as Hk.
  pose proof (lookup_lt_Some _ _ _ Hblk) as Hlt.
  destruct (inv_blocks_new _ _ _ HI k (conj Hk Hlt)) as [Hp|[(t' & ge' & H)|(t' & s' & H)]].
  - discriminate.
  - pose proof H as (_ & _ & (sec' & _ & Hblk') & _).
    rewrite Hblk in Hblk'. injection Hblk' as _ <-. exists ge'. exact H.
  - destruct H as (_ & _ & (sec' & ge' & _ & _ & Hblk') & _).
    rewrite Hblk in Hblk'. discriminate.
Qed.

Lemma isGOTEntry_cache st entry t :
  wellFormed G0 = true -> BuilderInv G0 None st -> isGOTEntry st entry t ->
  GOTEntries st !! t = Some entry.
Proof.
  intros Hwf HI (k & Hsym & Hblk).
  destruct (isGOTEntryBlock_slot st k t Hwf HI Hblk) as [ge Hslot].
  pose proof Hslot as (Hcache & Hsym' & _ & Hk & _).
  pose proof (new_block_symbol None st entry _ k Hwf HI Hsym eq_refl Hk) as Hi.
  pose proof (lookup_lt_Some _ _ _ Hsym) as Hlt.
  destruct (inv_symbols_new _ _ _ HI entry (conj Hi Hlt)) as [(t' & k' & H)|(t' & k' & H)].
  - pose proof H as (Hc' & Hs' & (sec' & _ & Hb') & _).
    rewrite Hsym in Hs'. injection Hs' as <-.
    destruct Hslot as (_ & _ & (sec'' & _ & Hb'') & _).
    rewrite Hb' in Hb''. injection Hb'' as _ <-. exact Hc'.
  - destruct H as (_ & Hs' & _). rewrite Hsym in Hs'. discriminate.
Qed.

Lemma isGOTEntry_unique st e1 e2 t :
  wellFormed G0 = true -> BuilderInv G0 None st ->
  isGOTEntry st e1 t -> isGOTEntry st e2 t -> e1 = e2.
Proof.
  intros Hwf HI H1 H2.
  pose proof (isGOTEntry_cache st e1 t Hwf HI H1).
  pose proof (isGOTEntry_cache st e2 t Hwf HI H2). congruence.
Qed.


(** An edge of the final graph is the final form of an edge of the input
    graph, or the edge of a GOT entry block or of a stub block. *)
Lemma final_graph_edge st b j E :
  BuilderInv G0 None st ->
  (forall b j E0, getEdge G0 b j = Some E0 ->
     exists E, getEdge (graph st) b j = Some E /\ finalEdge G0 st E0 E) ->
  getEdge (graph st) b j = Some E ->
  (exists E0, getEdge G0 b j = Some E0 /\ finalEdge G0 st E0 E) \/
  (exists t, E = mkEdge Pointer64 0 t 0) \/
  (exists ge, E = mkEdge LDRLiteral19 0 ge 0).
Proof.
  intros HI Hfinal HE.
  destruct (Nat.le_gt_cases (length (blocks G0)) b) as [Hnew|Hold].
  - right. unfold getEdge in HE.
    destruct (blocks (graph st) !! b) as [B|] eqn:HB; [|discriminate]. cbn in HE.
    pose proof (lookup_lt_Some _ _ _ HB) as Hlt.
    destruct (inv_blocks_new _ _ _ HI b (conj Hnew Hlt)) as [Hp|[(t' & ge' & H)|(t' & s' & H)]].
    + discriminate.
    + destruct H as (_ & _ & (sec' & _ & Hblk') & _).
      rewrite HB in Hblk'. injection Hblk' as ->. cbn in HE.
      destruct j; cbn in HE; [|discriminate]. injection HE as <-. left. eauto.
    + destruct H as (_ & _ & (sec' & ge'' & _ & _ & Hblk') & _).
      rewrite HB in Hblk'. injection Hblk' as ->. cbn in HE.
      destruct j; cbn in HE; [|discriminate]. injection HE as <-. right. eauto.
  - left. destruct (lookup_lt_is_Some_2 (blocks G0) b Hold) as [B0 HB0].
    destruct (inv_blocks_old _ _ _ HI b B0 HB0) as (B & HB & _ & Hlen).
    unfold getEdge in HE. rewrite HB in HE. cbn in HE.
    pose proof (lookup_lt_Some _ _ _ HE) as Hj. rewrite Hlen in Hj.
    destruct (lookup_lt_is_Some_2 (b_edges B0) j Hj) as [E0 HE0].
    assert (getEdge G0 b j = Some E0) as H0 by (unfold getEdge; rewrite HB0; exact HE0).
    destruct (Hfinal b j E0 H0) as (E' & HE' & Hfin).
    unfold getEdge in HE'. rewrite HB in HE'. cbn in HE'. rewrite HE in HE'.
    injection HE' as <-. exists E0. auto.
Qed.

Section Scan.

Variable NDEBUG : bool.
Hypothesis Hwf : wellFormed G0 = true.
Hypothesis Hassert : NDEBUG = true \/ externalBranchAddendsZero G0 = true.

Lemma forEach_fixEdge b B0 :
  blocks G0 !! b = Some B0 ->
  forall n j st,
    (j + n = length (b_edges B0))%nat ->
    BuilderInv G0 None st -> EdgesInv G0 b j st ->
    exists st', forEach (fixEdge NDEBUG b) (seq j n) st = Success st' /\
                BuilderInv G0 None st' /\ EdgesInv G0 b (j + n) st'.
Proof.
  intros HB0. induction n as [|n IH]; intros j st Hlen HI HE.
  - exists st. rewrite Nat.add_0_r. auto.
  - cbn [seq forEach].
    assert (exists E0, getEdge G0 b j = Some E0) as [E0 H0].
    { unfold getEdge. rewrite HB0. cbn. apply lookup_lt_is_Some. lia. }
    destruct (fixEdge_spec NDEBUG st b j E0 Hwf Hassert HI HE H0) as (st1 & Hrun & HI1 & HE1).
    rewrite Hrun. cbn [mbind Outcome_bind].
    destruct (IH (S j) st1 ltac:(lia) HI1 HE1) as (st' & Hrun' & HI' & HE').
    exists st'. replace (j + S n)%nat with (S j + n)%nat by lia. auto.
Qed.

Lemma fixBlock_spec b st :
  (b < length (blocks G0))%nat ->
  BuilderInv G0 None st -> EdgesInv G0 b 0 st ->
  exists st', fixBlock NDEBUG b st = Success st' /\
              BuilderInv G0 None st' /\ EdgesInv G0 (S b) 0 st'.
Proof.
  intros Hb HI HE.
  destruct (lookup_lt_is_Some_2 (blocks G0) b Hb) as [B0 HB0].
  destruct (inv_blocks_old _ _ _ HI b B0 HB0) as (B & HB & _ & Hlen).
  unfold fixBlock. rewrite HB. cbn [access mbind Outcome_bind]. rewrite Hlen.
  destruct (forEach_fixEdge b B0 HB0 (length (b_edges B0)) 0%nat st eq_refl HI HE)
    as (st' & Hrun & HI' & HE').
  exists st'. split; [exact Hrun|]. split; [exact HI'|].
  intros b' j' E0 H0. destruct (HE' b' j' E0 H0) as (E & HEget & Hstat).
  exists E. split; [exact HEget|].
  assert (doneBefore (S b) 0 b' j' = doneBefore b (0 + length (b_edges B0)) b' j') as ->;
    [|exact Hstat].
  unfold getEdge in H0.
  assert (b' = b -> (j' < 0 + length (b_edges B0))%nat) as Hvalid.
  { intros ->. rewrite HB0 in H0. cbn in H0. apply lookup_lt_Some in H0. lia. }
  unfold doneBefore.
  destruct (Nat.ltb_spec b' (S b)), (Nat.ltb_spec b' b), (Nat.eqb_spec b' b),
    (Nat.eqb_spec b' (S b)), (Nat.ltb_spec j' 0),
    (Nat.ltb_spec j' (0 + length (b_edges B0))); cbn [orb andb]; try reflexivity; lia.
Qed.

Lemma forEach_fixBlock :
  forall n b st,
    (b + n = length (blocks G0))%nat ->
    BuilderInv G0 None st -> EdgesInv G0 b 0 st ->
    exists st', forEach (fixBlock NDEBUG) (seq b n) st = Success st' /\
                BuilderInv G0 None st' /\ EdgesInv G0 (b + n) 0 st'.
Proof.
  induction n as [|n IH]; intros b st Hlen HI HE.
  - exists st. rewrite Nat.add_0_r. auto.
  - cbn [seq forEach].
    destruct (fixBlock_spec b st ltac:(lia) HI HE) as (st1 & Hrun & HI1 & HE1).
    rewrite Hrun. cbn [mbind Outcome_bind].
    destruct (IH (S b) st1 ltac:(lia) HI1 HE1) as (st' & Hrun' & HI' & HE').
    exists st'. replace (b + S n)%nat with (S b + n)%nat by lia. auto.
Qed.

(** The pass succeeds on a well-formed graph, keeps the invariant and makes
    every edge of the input graph final. *)
Lemma run_spec :
  exists st', run NDEBUG (newBuilder G0) = Success st' /\
              BuilderInv G0 None st' /\
              forall b j E0, getEdge G0 b j = Some E0 ->
                exists E, getEdge (graph st') b j = Some E /\ finalEdge G0 st' E0 E.
Proof.
  assert (EdgesInv G0 0 0 (newBuilder G0)) as HE0.
  { intros b j E0 H0. exists E0. split; [exact H0|].
    assert (doneBefore 0 0 b j = false) as ->; [|reflexivity].
    unfold doneBefore. destruct (Nat.ltb_spec b 0), (Nat.ltb_spec j 0); lia. }
  destruct (forEach_fixBlock (length (blocks G0)) 0%nat (newBuilder G0) eq_refl
              BuilderInv_new HE0) as (st' & Hrun & HI' & HE').
  exists st'. split; [exact Hrun|]. split; [exact HI'|].
  intros b j E0 H0. destruct (HE' b j E0 H0) as (E & HEget & Hstat).
  exists E. split; [exact HEget|].
  assert (doneBefore (0 + length (blocks G0)) 0 b j = true) as Hdone.
  { unfold doneBefore. unfold getEdge in H0.
    destruct (blocks G0 !! b) eqn:HB; [|discriminate]. apply lookup_lt_Some in HB.
    destruct (Nat.ltb_spec b (0 + length (blocks G0))); [reflexivity|lia]. }
  rewrite Hdone in Hstat. exact Hstat.
Qed.

End Scan.

End BuilderFacts.


(** C7. After the GOT-and-stubs pass every [Branch26] edge of the input graph
    whose target was undefined has been retargeted to a stub: the symbol of
    an 8-byte block of the read+exec [$__STUBS] section with the content
    [10 00 00 58 00 02 1f d6] and a single [LDRLiteral19] edge at offset 0,
    addend 0, to the GOT entry of the original target, of which there is at
    most one; and every [Branch26] edge of the final graph has a defined
    target. The input graph is well formed, and in a build with assertions
    its branch edges to undefined symbols have the zero addend that
    [fixExternalBranchEdge] asserts. *)
Theorem external_branches_after_pass (NDEBUG : bool) (G0 : LinkGraph) :
  wellFormed G0 = true ->
  NDEBUG = true \/ externalBranchAddendsZero G0 = true ->
  exists st,
    run NDEBUG (newBuilder G0) = Success st /\
    (forall b j E T,
       getEdge G0 b j = Some E -> e_kind E = Branch26 ->
       symbols G0 !! e_target E = Some T -> isDefined T = false ->
       exists stub,
         isStub st stub (e_target E) /\
         getEdge (graph st) b j = Some (setTarget E stub)) /\
    (forall t e1 e2, isGOTEntry st e1 t -> isGOTEntry st e2 t -> e1 = e2) /\
    (forall b j E,
       getEdge (graph st) b j = Some E -> e_kind E = Branch26 ->
       exists T, symbols (graph st) !! e_target E = Some T /\ isDefined T = true) /\
    StubContent = [0x10; 0x00; 0x00; 0x58; 0x00; 0x02; 0x1f; 0xd6] /\
    sec_prot StubsSectionDecl = Z.lor MF_READ MF_EXEC.
Proof.
  intros Hwf Hassert.
  destruct (run_spec G0 NDEBUG Hwf Hassert) as (st & Hrun & HI & Hfinal).
  exists st. split; [exact Hrun|]. split; [|split; [|split; [|split; reflexivity]]].
  - intros b j E T HE HK HT Hundef.
    destruct (Hfinal b j E HE) as (E' & HE' & Hfin).
    unfold finalEdge in Hfin.
    assert (isGOTEdge E = false) as HGOT by (unfold isGOTEdge; rewrite HK; reflexivity).
    rewrite HGOT in Hfin.
    assert (isExternalBranchEdge G0 E = Success true) as Hext.
    { unfold isExternalBranchEdge. rewrite HK, HT. cbn. rewrite Hundef. reflexivity. }
    rewrite Hext in Hfin. destruct Hfin as (s & Hcache & ->).
    destruct (inv_stubs _ _ _ HI _ _ Hcache) as [k Hslot].
    exists s. split; [|exact HE'].
    apply (StubSlot_isStub G0 None st _ s k HI Hslot).
  - intros t e1 e2. apply (isGOTEntry_unique G0 st e1 e2 t Hwf HI).
  - intros b j E HE HK.
    destruct (final_graph_edge G0 st b j E HI Hfinal HE) as [(E0 & H0 & Hfin)|[[t ->]|[ge ->]]];
      [|discriminate|discriminate].
    pose proof (wellFormed_target G0 b j E0 Hwf H0) as Ht.
    unfold finalEdge in Hfin. destruct (isGOTEdge E0) eqn:HGOT.
    { destruct Hfin as (ge & _ & ->). cbn in HK. unfold isGOTEdge in HGOT.
      destruct (e_kind E0); cbn in *; discriminate. }
    destruct (lookup_lt_is_Some_2 (symbols G0) (e_target E0) Ht) as [T0 HT0].
    unfold isExternalBranchEdge in Hfin. rewrite HT0 in Hfin. cbn in Hfin.
    destruct (bool_decide (e_kind E0 = Branch26)) eqn:Hd.
    + cbn in Hfin. destruct (isDefined T0) eqn:Hdef; cbn in Hfin.
      * subst E. exists T0. split; [|exact Hdef].
        rewrite (inv_symbols_old _ _ _ HI _ Ht). exact HT0.
      * destruct Hfin as (s & Hcache & ->). cbn.
        destruct (inv_stubs _ _ _ HI _ _ Hcache) as [k (_ & Hsym & _)].
        exists (StubSymbol k). split; [exact Hsym|reflexivity].
    + subst E. apply bool_decide_eq_false in Hd. contradiction.
Qed.

(** ** The pass on the example object *)

(** Scenarios 3 and 4 of the specification: one GOT entry for the external
    symbol 5, shared by the two GOT edges and by the stub of the branch; the
    [PointerToGOT] edge of block 1 becomes a [Delta32] edge to a GOT entry
    of its own. *)
Example GOTAndStubsPass_example :
  match GOTAndStubsPass false Example.Gpass with
  | Success G' =>
      b_edges <$> blocks G' !! 0%nat =
        Some [mkEdge Branch26 0 7 0; mkEdge GOTPage21 4 6 0; mkEdge GOTPageOffset12 8 6 0] /\
      b_edges <$> blocks G' !! 1%nat = Some [mkEdge Delta32 0 8 0] /\
      drop 5 (blocks G') =
        [StubBlock 2 6; GOTEntryBlock 3 5; GOTEntryBlock 3 1] /\
      drop 6 (symbols G') = [GOTEntrySymbol 6; StubSymbol 5; GOTEntrySymbol 7] /\
      drop 2 (sections G') = [StubsSectionDecl; GOTSectionDecl]
  | _ => False
  end.
Proof. vm_compute. repeat split; reflexivity. Qed.


Lemma external_branches_after_pass_witness :
  wellFormed Example.Gpass = true /\
  exists st,
    run false (newBuilder Example.Gpass) = Success st /\
    exists stub,
      isStub st stub 5 /\
      getEdge (graph st) 0 0 = Some (mkEdge Branch26 0 stub 0).
Proof.
  split; [reflexivity|].
  destruct (external_branches_after_pass false Example.Gpass eq_refl (or_intror eq_refl))
    as (st & Hrun & Hstub & _).
  exists st. split; [exact Hrun|].
  exact (Hstub 0%nat 0%nat (mkEdge Branch26 0 5 0)
           (mkSymbol (Some "bar") (External 0) 0 0 false true)
           eq_refl eq_refl eq_refl eq_refl).
Defined.

(** * Further properties *)

(** ** Relocation parser: what a run changes *)

Lemma access_Success {A} (o : option A) a : access o = Success a -> o = Some a.
Proof. destruct o; cbn; intros H; inversion H; reflexivity. Qed.

Lemma keepsBlock_refl B : keepsBlock B B.
Proof. repeat split; try reflexivity. exists []. rewrite app_nil_r. reflexivity. Qed.

Lemma keepsBlock_trans B1 B2 B3 : keepsBlock B1 B2 -> keepsBlock B2 B3 -> keepsBlock B1 B3.
Proof.
  intros (a1 & a2 & a3 & a4 & a5 & n1 & a6) (c1 & c2 & c3 & c4 & c5 & n2 & c6).
  repeat split; try congruence.
  exists (n1 ++ n2). rewrite c6, a6, app_assoc. reflexivity.
Qed.

Lemma addsEdgesOnly_refl G : addsEdgesOnly G G.
Proof. repeat split; try reflexivity. intros b B H. exists B. split; [exact H|apply keepsBlock_refl]. Qed.

Lemma addsEdgesOnly_trans G1 G2 G3 :
  addsEdgesOnly G1 G2 -> addsEdgesOnly G2 G3 -> addsEdgesOnly G1 G3.
Proof.
  intros (a1 & a2 & a3 & a4 & a5) (c1 & c2 & c3 & c4 & c5).
  repeat split; try congruence.
  intros b B H. destruct (a5 b B H) as (B2 & H2 & K2).
  destruct (c5 b B2 H2) as (B3 & H3 & K3).
  exists B3. split; [exact H3|]. eapply keepsBlock_trans; eassumption.
Qed.

Lemma addsEdgesOnly_addEdge G b K Off T A : addsEdgesOnly G (addEdge G b K Off T A).
Proof.
  unfold addEdge. repeat split; cbn.
  - apply length_alter.
  - intros k B H.
    destruct (decide (b = k)) as [->|Hne].
    + rewrite list_lookup_alter_eq, H. cbn. eexists. split; [reflexivity|].
      repeat split. eexists. reflexivity.
    + rewrite list_lookup_alter_ne by exact Hne. exists B. split; [exact H|apply keepsBlock_refl].
Qed.

(** Evaluation of the closed comparisons of edge kinds in the goal. *)
Ltac eval_kind_tests :=
  repeat match goal with
  | |- context [@bool_decide ?P ?d] =>
      let b := eval vm_compute in (@bool_decide P d) in
      first [constr_eq b true | constr_eq b false];
      change (@bool_decide P d) with b
  end;
  cbn [negb andb orb].

Ltac inv_access :=
  repeat match goal with
  | H : access _ = Success _ |- _ => apply access_Success in H
  end.

Section ParserFrame.

Variable genericName : EdgeKind -> option string.
Variable NDEBUG : bool.
Variables fbi fba : Z -> option nat.

Lemma processRelocation_addEdge Sec RelEnd G i G' i' :
  processRelocation genericName NDEBUG fbi fba Sec RelEnd G i = Success (G', i') ->
  exists b B K Off T A,
    blocks G !! b = Some B /\ G' = addEdge G b K Off T A /\ (i' = i \/ i' = S i).
Proof.
  intros H. unfold processRelocation in H.
  inv_success; inv_access;
    try (match goal with H : _ = false |- _ => cbn in H; discriminate H end);
    do 6 eexists; (split; [eassumption|split; [reflexivity|lia]]).
Qed.

Lemma relocationLoop_addsEdgesOnly fuel : forall Sec RelEnd G i G',
  relocationLoop genericName NDEBUG fbi fba fuel Sec RelEnd G i = Success G' -> addsEdgesOnly G G'.
Proof.
  induction fuel as [|fuel IH]; intros Sec RelEnd G i G' H; cbn [relocationLoop] in H.
  - destruct (i =? RelEnd)%nat; [|discriminate]. inversion H. apply addsEdgesOnly_refl.
  - destruct (i =? RelEnd)%nat; [inversion H; apply addsEdgesOnly_refl|].
    destruct (processRelocation genericName NDEBUG fbi fba Sec RelEnd G i) as [[G1 i1]| |] eqn:Hp;
      cbn [mbind Outcome_bind] in H; try discriminate.
    apply processRelocation_addEdge in Hp as (b & B & K & Off & T & A & _ & -> & _).
    eapply addsEdgesOnly_trans; [apply addsEdgesOnly_addEdge|]. eapply IH. exact H.
Qed.

(** X1. A successful run of [addRelocations] only adds edges: the sections,
    the externals and the symbols are unchanged, no block is added or
    removed, and every block keeps its section, content, address and
    alignment, with its earlier edges as a prefix of its edges. *)
Theorem addRelocations_adds_edges_only Obj : forall G G',
  addRelocations genericName NDEBUG fbi fba Obj G = Success G' -> addsEdgesOnly G G'.
Proof.
  induction Obj as [|Sec Obj IH]; intros G G' H; cbn [addRelocations] in H.
  - inversion H. apply addsEdgesOnly_refl.
  - destruct (addSectionRelocations genericName NDEBUG fbi fba Sec G) as [G1| |] eqn:Hs;
      cbn [mbind Outcome_bind] in H; try discriminate.
    eapply addsEdgesOnly_trans; [|apply IH; exact H].
    eapply relocationLoop_addsEdgesOnly. exact Hs.
Qed.

End ParserFrame.

(** ** Relocation parser: the records read and the edges added *)

Lemma getRelocationInfo_Success Sec i RI :
  getRelocationInfo Sec i = Success RI -> reloc_data Sec !! i = Some RI.
Proof. unfold getRelocationInfo. destruct (reloc_data Sec !! i); intros H; inversion H; reflexivity. Qed.

Lemma edgeCount_alter (f : Block -> Block) (l : list Block) : forall b B,
  l !! b = Some B -> length (b_edges (f B)) = S (length (b_edges B)) ->
  foldr (fun B n => (length (b_edges B) + n)%nat) 0%nat (alter f b l) =
  S (foldr (fun B n => (length (b_edges B) + n)%nat) 0%nat l).
Proof.
  induction l as [|B0 l IH]; intros b B Hl Hf; [discriminate|].
  destruct b as [|b]; cbn in *.
  - inversion Hl; subst. rewrite Hf. reflexivity.
  - rewrite (IH b B Hl Hf). lia.
Qed.

Lemma edgeCount_addEdge G b B K Off T A :
  blocks G !! b = Some B -> edgeCount (addEdge G b K Off T A) = S (edgeCount G).
Proof.
  intros H. unfold edgeCount, addEdge. cbn [blocks].
  apply (edgeCount_alter _ _ b B H). cbn. rewrite length_app. cbn. lia.
Qed.

Section ParserReads.

Variable genericName : EdgeKind -> option string.
Variable NDEBUG : bool.
Variables fbi fba : Z -> option nat.

Lemma parsePairRelocation_reads G b K RI FA FC Sec j RelEnd x :
  parsePairRelocation NDEBUG fbi fba G b K RI FA FC Sec j RelEnd = Success x ->
  (j < length (reloc_data Sec))%nat.
Proof.
  intros H. unfold parsePairRelocation in H.
  repeat match type of H with
  | mbind _ (assert ?n ?c) = Success _ =>
      destruct (assert n c); cbn [mbind Outcome_bind] in H; try discriminate H
  end.
  destruct (j =? RelEnd)%nat; [discriminate H|].
  destruct (getRelocationInfo Sec j) as [RI2| |] eqn:HRI; try discriminate H.
  apply getRelocationInfo_Success, lookup_lt_Some in HRI. exact HRI.
Qed.

(** A successful turn has read the record under the iterator and, for an
    ADDEND or a SUBTRACTOR, the record after it, on which it leaves the
    iterator. *)
Lemma processRelocation_reads Sec RelEnd G i G' i' :
  processRelocation genericName NDEBUG fbi fba Sec RelEnd G i = Success (G', i') ->
  exists RI K,
    getRelocationInfo Sec i = Success RI /\ getRelocationKind RI = Success K /\
    i' = (if takesTwoRecords K then S i else i) /\ (i' < length (reloc_data Sec))%nat.
Proof.
  intros H. unfold processRelocation in H.
  destruct (getRelocationInfo Sec i) as [RI| |] eqn:HRI; try discriminate H.
  cbn [mbind Outcome_bind] in H.
  destruct (getRelocationKind RI) as [K| |] eqn:HK; try discriminate H.
  cbn [mbind Outcome_bind] in H.
  exists RI, K. split; [reflexivity|]. split; [exact HK|].
  apply getRelocationInfo_Success, lookup_lt_Some in HRI.
  inv_success; inv_access;
    repeat match goal with
    | H : bool_decide (_ = _) = true |- _ =>
        apply bool_decide_eq_true in H; try discriminate H; subst
    end;
    try (match goal with H : _ = false |- _ => cbn in H; discriminate H end);
    repeat match goal with
    | H : getRelocationInfo _ _ = Success _ |- _ =>
        apply getRelocationInfo_Success, lookup_lt_Some in H
    | H : parsePairRelocation _ _ _ _ _ _ _ _ _ _ _ _ = Success _ |- _ =>
        apply parsePairRelocation_reads in H
    end; cbn; (split; [reflexivity|lia]).
Qed.

(** A successful loop never steps over the end iterator, has read existing
    records only, and has added one edge for every one or two records. *)
Lemma relocationLoop_count fuel : forall Sec RelEnd G i G',
  relocationLoop genericName NDEBUG fbi fba fuel Sec RelEnd G i = Success G' ->
  (i <= RelEnd)%nat /\ (i < RelEnd -> RelEnd <= length (reloc_data Sec))%nat /\
  exists k, edgeCount G' = (edgeCount G + k)%nat /\ (k <= RelEnd - i <= 2 * k)%nat.
Proof.
  induction fuel as [|fuel IH]; intros Sec RelEnd G i G' H; cbn [relocationLoop] in H;
    destruct (Nat.eqb_spec i RelEnd) as [->|Hne]; try discriminate;
    try (inversion H; subst; split; [lia|split; [lia|exists 0%nat; lia]]).
  destruct (processRelocation genericName NDEBUG fbi fba Sec RelEnd G i) as [[G1 i1]| |] eqn:Hp;
    cbn [mbind Outcome_bind] in H; try discriminate.
  pose proof (processRelocation_reads _ _ _ _ _ _ Hp) as (RI & K0 & _ & _ & Hi1 & Hlen).
  assert (i1 = i \/ i1 = S i) as Hi1' by (destruct (takesTwoRecords K0); lia).
  apply processRelocation_addEdge in Hp as (b & B & K & Off & T & A & HB & -> & _).
  apply IH in H as (Hle & Hlen' & k & Hk & Hb).
  rewrite (edgeCount_addEdge _ _ _ _ _ _ _ HB) in Hk.
  split; [lia|]. split; [lia|]. exists (S k). lia.
Qed.

Lemma parsePairRelocation_ext G b K RI FA FC Sec Sec' j RelEnd :
  reloc_data Sec' !! j = reloc_data Sec !! j ->
  parsePairRelocation NDEBUG fbi fba G b K RI FA FC Sec' j RelEnd =
  parsePairRelocation NDEBUG fbi fba G b K RI FA FC Sec j RelEnd.
Proof. intros H. unfold parsePairRelocation, getRelocationInfo. rewrite H. reflexivity. Qed.

Lemma processRelocation_ext Sec Sec' RelEnd G i :
  os_address Sec' = os_address Sec ->
  reloc_data Sec' !! i = reloc_data Sec !! i ->
  reloc_data Sec' !! S i = reloc_data Sec !! S i ->
  processRelocation genericName NDEBUG fbi fba Sec' RelEnd G i =
  processRelocation genericName NDEBUG fbi fba Sec RelEnd G i.
Proof.
  intros Ha Hi HSi.
  assert (getRelocationInfo Sec' i = getRelocationInfo Sec i) as Hgi.
  { unfold getRelocationInfo. rewrite Hi. reflexivity. }
  assert (getRelocationInfo Sec' (S i) = getRelocationInfo Sec (S i)) as HgS.
  { unfold getRelocationInfo. rewrite HSi. reflexivity. }
  unfold processRelocation. rewrite Ha, Hgi.
  destruct (getRelocationInfo Sec i) as [RI| |]; cbn [mbind Outcome_bind]; [|reflexivity..].
  destruct (getRelocationKind RI) as [K| |]; cbn [mbind Outcome_bind]; [|reflexivity..].
  repeat match goal with
  | |- mbind _ ?o = mbind _ ?o =>
      lazymatch o with
      | (if _ then _ else _) => fail
      | _ => destruct o; cbn [mbind Outcome_bind]; [|reflexivity..]
      end
  | |- (if ?c then _ else _) = (if ?c then _ else _) => destruct c; [reflexivity|]
  end.
  destruct K; eval_kind_tests; cbn [mbind Outcome_bind]; try reflexivity.
  - destruct (i =? RelEnd)%nat; [reflexivity|]. rewrite HgS.
    destruct (getRelocationInfo Sec (S i)) as [RI2| |]; cbn [mbind Outcome_bind]; [|reflexivity..].
    destruct (getRelocationKind RI2) as [[]| |]; cbn [mbind Outcome_bind]; eval_kind_tests;
      cbn [mbind Outcome_bind]; try reflexivity.
    all: try (destruct (negb _); reflexivity).
    destruct (getMachOARM64RelocationKindName genericName Pointer32); reflexivity.
  - rewrite (parsePairRelocation_ext _ _ _ _ _ _ Sec Sec') by exact HSi. reflexivity.
  - rewrite (parsePairRelocation_ext _ _ _ _ _ _ Sec Sec') by exact HSi. reflexivity.
Qed.

(** A successful turn depends on the records it has read only. *)
Lemma processRelocation_depends Sec Sec' RelEnd G i G1 i1 :
  processRelocation genericName NDEBUG fbi fba Sec RelEnd G i = Success (G1, i1) ->
  os_address Sec' = os_address Sec ->
  (forall j, (i <= j <= i1)%nat -> reloc_data Sec' !! j = reloc_data Sec !! j) ->
  processRelocation genericName NDEBUG fbi fba Sec' RelEnd G i = Success (G1, i1).
Proof.
  intros H Ha Hr.
  pose proof (processRelocation_reads _ _ _ _ _ _ H) as (RI & K & HRI & HK & Hi1 & _).
  destruct (takesTwoRecords K) eqn:HP.
  - rewrite (processRelocation_ext Sec Sec'); [exact H|exact Ha|apply Hr; lia|apply Hr; lia].
  - assert (getRelocationInfo Sec' i = getRelocationInfo Sec i) as Hgi.
    { unfold getRelocationInfo. rewrite (Hr i) by lia. reflexivity. }
    unfold processRelocation in H |- *. rewrite Ha, Hgi. rewrite HRI in H |- *.
    cbn [mbind Outcome_bind] in H |- *. rewrite HK in H |- *.
    cbn [mbind Outcome_bind] in H |- *.
    destruct K; try discriminate HP; exact H.
Qed.

Lemma relocationLoop_own_records fuel : forall Sec RelEnd G i G',
  relocationLoop genericName NDEBUG fbi fba fuel Sec RelEnd G i = Success G' ->
  forall fuel' Sec',
    os_address Sec' = os_address Sec ->
    (forall j, (j < RelEnd)%nat -> reloc_data Sec' !! j = reloc_data Sec !! j) ->
    (RelEnd - i < fuel')%nat ->
    relocationLoop genericName NDEBUG fbi fba fuel' Sec' RelEnd G i = Success G'.
Proof.
  induction fuel as [|fuel IH]; intros Sec RelEnd G i G' H fuel' Sec' Ha Hr Hfuel;
    (destruct fuel' as [|fuel']; [lia|]); cbn [relocationLoop] in H |- *;
    destruct (Nat.eqb_spec i RelEnd) as [->|Hne]; try discriminate; try exact H.
  destruct (processRelocation genericName NDEBUG fbi fba Sec RelEnd G i) as [[G1 i1]| |] eqn:Hp;
    cbn [mbind Outcome_bind] in H; try discriminate.
  pose proof (relocationLoop_count _ _ _ _ _ _ H) as (Hle & _).
  pose proof (processRelocation_reads _ _ _ _ _ _ Hp) as (RI & K & _ & _ & Hi1 & _).
  assert (i1 = i \/ i1 = S i) as Hi1' by (destruct (takesTwoRecords K); lia).
  rewrite (processRelocation_depends Sec Sec' RelEnd G i G1 i1 Hp Ha) by (intros j Hj; apply Hr; lia).
  cbn [mbind Outcome_bind]. apply (IH Sec RelEnd G1 (S i1) G' H); [exact Ha|exact Hr|lia].
Qed.

(** X4. A successful parse of a section has read the section's own records
    only, and all of them exist: the same run on the section cut down to its
    [nreloc] records gives the same graph. The read behind the end that an
    ADDEND in the last place causes never ends in success. *)
Theorem addSectionRelocations_own_records Sec G G' :
  addSectionRelocations genericName NDEBUG fbi fba Sec G = Success G' ->
  (nreloc Sec <= length (reloc_data Sec))%nat /\
  addSectionRelocations genericName NDEBUG fbi fba (ownRecords Sec) G = Success G'.
Proof.
  intros H. unfold addSectionRelocations in H |- *.
  pose proof (relocationLoop_count _ _ _ _ _ _ H) as (_ & Hlen & _).
  assert (nreloc Sec <= length (reloc_data Sec))%nat as Hn.
  { destruct (nreloc Sec); [lia|]. apply Hlen. lia. }
  split; [exact Hn|].
  apply (relocationLoop_own_records _ _ _ _ _ _ H); cbn.
  - reflexivity.
  - intros j Hj. apply lookup_take_lt. exact Hj.
  - rewrite length_take. lia.
Qed.

(** X5. Every turn of the loop over the records adds exactly one edge and
    takes one or two records: a successful parse of a section adds [k] edges
    with [k <= nreloc <= 2 * k]. *)
Theorem addSectionRelocations_edge_count Sec G G' :
  addSectionRelocations genericName NDEBUG fbi fba Sec G = Success G' ->
  exists k, edgeCount G' = (edgeCount G + k)%nat /\ (k <= nreloc Sec <= 2 * k)%nat.
Proof.
  intros H. unfold addSectionRelocations in H.
  apply relocationLoop_count in H as (_ & _ & k & Hk & Hb).
  exists k. split; [exact Hk|lia].
Qed.

End ParserReads.

(** ** Relocation parser: runs with sound symbol lookups *)

(** What a decoded kind says about the record: the size of the fixup, and
    for the SUBTRACTOR kinds the conditions that [parsePairRelocation]
    asserts. The kinds [LDRLiteral19], [NegDelta32] and [NegDelta64] are
    never decoded. *)
Lemma getRelocationKind_Success RI K :
  getRelocationKind RI = Success K ->
  Z.shiftl 1 (r_length RI) = fixupSize K /\
  K <> LDRLiteral19 /\ K <> NegDelta32 /\ K <> NegDelta64 /\
  (K = Delta32 \/ K = Delta64 ->
   r_extern RI = true /\ r_pcrel RI = false /\
   r_length RI = (if bool_decide (K = Delta64) then 3 else 2)).
Proof.
  unfold getRelocationKind, unsupported.
  repeat match goal with
  | |- context [?a =? ?b] =>
      lazymatch a with
      | r_length _ => destruct (Z.eqb_spec a b) as [->|?]
      | _ => destruct (a =? b)
      end
  end;
  destruct (r_pcrel RI), (r_extern RI); cbn; intros H; inversion H; subst;
  repeat split; try discriminate; try reflexivity;
  match goal with H : _ \/ _ |- _ => destruct H; discriminate end.
Qed.

Lemma getRelocationKind_no_abort RI r : getRelocationKind RI <> Abort r.
Proof.
  unfold getRelocationKind, unsupported.
  repeat match goal with |- context [if ?c then _ else _] => destruct c end; discriminate.
Qed.

Lemma readLE_defined n mem off :
  0 <= off -> off + Z.of_nat n <= Z.of_nat (length mem) -> is_Some (readLE n mem off).
Proof.
  intros H1 H2. unfold readLE, slice.
  destruct (Z.leb_spec 0 off), (Z.leb_spec (off + Z.of_nat n) (Z.of_nat (length mem)));
    try lia.
  cbn. eexists. reflexivity.
Qed.

Lemma readLEs_defined n mem off :
  0 <= off -> off + Z.of_nat n <= Z.of_nat (length mem) -> is_Some (readLEs n mem off).
Proof.
  intros H1 H2. unfold readLEs. destruct (readLE_defined n mem off H1 H2) as [v ->].
  eexists. reflexivity.
Qed.

Lemma blocksFit_lookup G b B :
  blocksFit G = true -> blocks G !! b = Some B ->
  0 <= b_address B /\ b_address B + Z.of_nat (length (b_content B)) + 8 <= 2 ^ 64 /\
  Z.of_nat (length (b_content B)) < 2 ^ 32.
Proof.
  intros HF HB. unfold blocksFit in HF. rewrite forallb_forall in HF.
  specialize (HF B). unfold blockFits in HF.
  assert (In B (blocks G)) as Hin.
  { apply list_elem_of_In. eapply list_elem_of_lookup_2. exact HB. }
  apply HF in Hin. lia.
Qed.

Section ParserSound.

Variable genericName : EdgeKind -> option string.
Variable NDEBUG : bool.
Variables fbi fba : Z -> option nat.

Lemma soundLookups_index G i s :
  soundLookups fbi fba G -> fbi i = Some s ->
  exists Sym a, symbols G !! s = Some Sym /\ getAddress G Sym = Some a.
Proof.
  intros [H1 _] Hs. destruct (H1 i s Hs) as [a Ha].
  unfold symbolAddress in Ha. destruct (symbols G !! s) as [Sym|]; [|discriminate].
  exists Sym, a. split; [reflexivity|exact Ha].
Qed.

Lemma soundLookups_address G a s :
  soundLookups fbi fba G -> fba a = Some s ->
  exists Sym b B, symbols G !! s = Some Sym /\ s_base Sym = InBlock b /\
    blocks G !! b = Some B /\
    b_address B <= a < b_address B + Z.of_nat (length (b_content B)) /\
    getAddress G Sym = Some (u64 (b_address B + s_offset Sym)).
Proof.
  intros [_ H2] Hs. destruct (H2 a s Hs) as (Sym & b & B & HS & Hb & HB & Hr).
  exists Sym, b, B. repeat split; try assumption; try lia.
  apply (getAddress_InBlock G Sym b B); assumption.
Qed.

Lemma symbolByIndex_Some i s : fbi i = Some s -> symbolByIndex fbi i = Success s.
Proof. intros H. unfold symbolByIndex. rewrite H. reflexivity. Qed.

Lemma symbolByIndex_None i : fbi i = None -> symbolByIndex fbi i = Failure (NoSymbolForIndex i).
Proof. intros H. unfold symbolByIndex. rewrite H. reflexivity. Qed.

Lemma symbolByAddress_Some a s : fba a = Some s -> symbolByAddress fba a = Success s.
Proof. intros H. unfold symbolByAddress. rewrite H. reflexivity. Qed.

Lemma symbolByAddress_None a :
  fba a = None -> symbolByAddress fba a = Failure (NoSymbolForAddress a).
Proof. intros H. unfold symbolByAddress. rewrite H. reflexivity. Qed.

(** With sound lookups every assertion and every access of
    [parsePairRelocation] goes through, and the kind it returns has the
    fixup size of the kind of the SUBTRACTOR. *)
Lemma parsePairRelocation_sound G b K RI FA Content Off Sec j RelEnd :
  soundLookups fbi fba G ->
  getRelocationKind RI = Success K ->
  K = Delta32 \/ K = Delta64 ->
  0 <= Off -> Off + fixupSize K <= Z.of_nat (length Content) ->
  match parsePairRelocation NDEBUG fbi fba G b K RI FA (Content, Off) Sec j RelEnd with
  | Success (K', _, _) =>
      fixupSize K' = fixupSize K /\ K' <> PairedAddend /\ K' <> LDRLiteral19
  | Failure _ => True
  | Abort r => r = MalformedObject
  end.
Proof.
  intros HS HK HD Hlo Hhi.
  destruct (getRelocationKind_Success RI K HK) as (_ & _ & _ & _ & Hsub).
  destruct (Hsub HD) as (Hex & Hpc & Hlen).
  unfold parsePairRelocation.
  rewrite !assert_true;
    [| destruct HD as [-> | ->]; rewrite Hlen; reflexivity | exact Hex
     | rewrite Hpc; reflexivity ].
  cbn [mbind Outcome_bind].
  destruct (j =? RelEnd)%nat; [exact I|].
  unfold getRelocationInfo.
  destruct (reloc_data Sec !! j) as [URI|]; cbn [mbind Outcome_bind]; [|reflexivity].
  destruct (negb (r_address RI =? r_address URI)); [exact I|].
  destruct (negb (r_length RI =? r_length URI)); [exact I|].
  destruct (fbi (r_symbolnum RI)) as [from|] eqn:Hfrom;
    [rewrite (symbolByIndex_Some _ _ Hfrom)|rewrite (symbolByIndex_None _ Hfrom)];
    cbn [mbind Outcome_bind]; [|exact I].
  destruct (soundLookups_index G _ _ HS Hfrom) as (FromSymbol & FromA & HFrom & HFromA).
  rewrite HFrom. cbn [access mbind Outcome_bind fst snd].
  assert (exists raw, (if r_length RI =? 3 then readLEs 8 Content Off else readLEs 4 Content Off)
                      = Some raw) as [raw ->].
  { rewrite Hlen. destruct HD as [-> | ->]; cbn in Hhi |- *;
      [apply (readLEs_defined 4)|apply (readLEs_defined 8)]; lia. }
  cbn [fmap option_fmap option_map access mbind Outcome_bind].
  assert (match (if r_extern URI
           then symbolByIndex fbi (r_symbolnum URI) ≫= λ to0 : nat, Success (to0, u64 raw)
           else symbolByAddress fba (u64 raw) ≫= λ to0 : nat,
                access (symbolAddress G to0) ≫= λ ToAddress0 : Z,
                Success (to0, u64 (u64 raw - ToAddress0)))
          with
          | Success (to, _) => exists ToSymbol ToA, symbols G !! to = Some ToSymbol /\
                                  getAddress G ToSymbol = Some ToA
          | Failure _ => True
          | Abort _ => False
          end) as Hto.
  { destruct (r_extern URI).
    - unfold symbolByIndex. destruct (fbi (r_symbolnum URI)) as [to|] eqn:Hto; [|exact I].
      cbn [mbind Outcome_bind]. exact (soundLookups_index G _ _ HS Hto).
    - unfold symbolByAddress. destruct (fba (u64 raw)) as [to|] eqn:Hto; [|exact I].
      cbn [mbind Outcome_bind].
      destruct (soundLookups_address G _ _ HS Hto) as (Sym & b' & B' & HSym & _ & _ & _ & HA).
      unfold symbolAddress. rewrite HSym. cbn. rewrite HA. cbn. eauto. }
  match type of Hto with match ?o with _ => _ end => destruct o as [[to FV]| |] end;
    cbn [mbind Outcome_bind]; [|exact I|contradiction].
  destruct Hto as (ToSymbol & ToA & HTo & HToA).
  rewrite HTo. cbn [access mbind Outcome_bind].
  rewrite HFromA, HToA. cbn [access mbind Outcome_bind].
  rewrite Hlen.
  destruct (bool_decide (InBlock b = s_base FromSymbol));
    [|destruct (bool_decide (InBlock b = s_base ToSymbol)); [|exact I]];
    destruct HD as [-> | ->]; cbn; repeat split; discriminate.
Qed.

Lemma getRelocationInfo_Abort Sec i r : getRelocationInfo Sec i = Abort r -> r = MalformedObject.
Proof.
  unfold getRelocationInfo. destruct (reloc_data Sec !! i); intros H; inversion H; reflexivity.
Qed.

Lemma soundLookups_symbolAddress G a s :
  soundLookups fbi fba G -> fba a = Some s -> is_Some (symbolAddress G s).
Proof.
  intros HS Hs.
  destruct (soundLookups_address G _ _ HS Hs) as (Sym & b' & B' & HSym & _ & _ & _ & HA).
  unfold symbolAddress. rewrite HSym. cbn. rewrite HA. eexists. reflexivity.
Qed.

(** Symbolic execution of the cases of the switch over the kind. *)
Ltac run_case HS :=
  repeat first
  [ exact I
  | match goal with
    | |- context [symbolByIndex fbi ?x] =>
        let H := fresh "Hfbi" in
        destruct (fbi x) eqn:H;
        [rewrite (symbolByIndex_Some _ _ H)|rewrite (symbolByIndex_None _ H)];
        cbn [mbind Outcome_bind]
    | |- context [access (readLE ?n ?c ?o)] =>
        let v := fresh "v" in let H := fresh "Hv" in
        destruct (readLE_defined n c o) as [v H]; [lia|cbn; lia|];
        rewrite H; cbn [access mbind Outcome_bind]
    | |- context [symbolByAddress fba ?x] =>
        let H := fresh "Hfba" in
        destruct (fba x) eqn:H;
        [rewrite (symbolByAddress_Some _ _ H);
         let a := fresh "a" in let Ha := fresh "Ha" in
         destruct (soundLookups_symbolAddress _ _ _ HS H) as [a Ha];
         cbn [mbind Outcome_bind]; rewrite Ha
        |rewrite (symbolByAddress_None _ H)];
        cbn [access mbind Outcome_bind]
    | |- match (if ?c then _ else _) ≫= _ with _ => _ end =>
        destruct c; cbn [mbind Outcome_bind]
    end ].

(** One turn of the loop with sound lookups: it adds an edge that lies
    inside its block, or returns an error, or reads a record outside the
    object buffer. *)
Lemma processRelocation_sound Sec RelEnd G i :
  soundLookups fbi fba G -> blocksFit G = true ->
  match processRelocation genericName NDEBUG fbi fba Sec RelEnd G i with
  | Success (G', _) =>
      exists b B K Off T A,
        blocks G !! b = Some B /\ G' = addEdge G b K Off T A /\
        0 <= Off /\ Off + fixupSize K <= Z.of_nat (length (b_content B)) /\
        K <> PairedAddend /\ K <> LDRLiteral19
  | Failure _ => True
  | Abort r => r = MalformedObject \/ (r = NoReturn /\ genericName Pointer32 = None)
  end.
Proof.
  intros HS HF. unfold processRelocation.
  destruct (getRelocationInfo Sec i) as [RI| |r] eqn:HRI; cbn [mbind Outcome_bind];
    [|exact I|left; exact (getRelocationInfo_Abort _ _ _ HRI)].
  destruct (getRelocationKind RI) as [K| |r] eqn:HK; cbn [mbind Outcome_bind];
    [|exact I|destruct (getRelocationKind_no_abort _ _ HK)].
  set (FA := u64 (os_address Sec + u32 (r_address RI))).
  destruct (fba FA) as [s|] eqn:Hs;
    [rewrite (symbolByAddress_Some _ _ Hs)|rewrite (symbolByAddress_None _ Hs)];
    cbn [mbind Outcome_bind]; [|exact I].
  destruct (soundLookups_address G _ _ HS Hs) as (Sym & b & B & HSym & Hbase & HB & Hr & _).
  rewrite HSym. cbn [access mbind Outcome_bind].
  unfold getBlock. rewrite Hbase. cbn [mbind Outcome_bind].
  rewrite HB. cbn [access mbind Outcome_bind].
  destruct (blocksFit_lookup G b B HF HB) as (Ha0 & Ha1 & Ha2).
  destruct (getRelocationKind_Success RI K HK) as (Hsz & HnL & HnN32 & HnN64 & Hsub).
  rewrite Hsz.
  assert (4 <= fixupSize K <= 8) as HszR by (destruct K; cbn; lia).
  assert (u64 (FA + u64 (fixupSize K)) = FA + fixupSize K) as ->.
  { unfold u64 at 2. rewrite (wrap_small 64 (fixupSize K)) by lia.
    apply wrap_small. lia. }
  assert (u64 (b_address B + Z.of_nat (length (b_content B))) =
          b_address B + Z.of_nat (length (b_content B))) as ->.
  { apply wrap_small. lia. }
  destruct (Z.gtb_spec (FA + fixupSize K) (b_address B + Z.of_nat (length (b_content B))))
    as [_|Hext]; [exact I|].
  assert (u64 (FA - b_address B) = FA - b_address B) as Hoff by (apply wrap_small; lia).
  rewrite Hoff. cbn [fst snd].
  set (Off := FA - b_address B) in *.
  assert (0 <= Off) as Hlo by (unfold Off; lia).
  assert (Off + fixupSize K <= Z.of_nat (length (b_content B))) as Hhi by (unfold Off; lia).
  clearbody Off FA.
  destruct K; eval_kind_tests; cbn [mbind Outcome_bind fst snd fixupSize] in *;
    try contradiction; try (run_case HS).
  all: try (exists b, B; do 4 eexists; split; [exact HB|]; split; [reflexivity|];
            cbn [fixupSize]; repeat split; try assumption; discriminate).
  - (* ADDEND and the record that follows it *)
    destruct (getRelocationInfo Sec (S i)) as [RI2| |r] eqn:HRI2; cbn [mbind Outcome_bind];
      [|exact I|left; exact (getRelocationInfo_Abort _ _ _ HRI2)].
    destruct (getRelocationKind RI2) as [[]| |r] eqn:HK2; cbn [mbind Outcome_bind];
      [..|exact I|destruct (getRelocationKind_no_abort _ _ HK2)];
      eval_kind_tests; cbn [getMachOARM64RelocationKindName mbind Outcome_bind];
      try exact I; try (run_case HS).
    all: try (destruct (genericName Pointer32) eqn:HN; cbn; [exact I|right; split; reflexivity]).
    all: exists b, B; do 4 eexists; split; [exact HB|]; split; [reflexivity|];
         cbn [fixupSize]; repeat split; try assumption; discriminate.
  - (* SUBTRACTOR, 32 bits *)
    pose proof (parsePairRelocation_sound G b Delta32 RI FA (b_content B) Off Sec (S i) RelEnd
                  HS HK (or_introl eq_refl) Hlo Hhi) as HP.
    destruct (parsePairRelocation NDEBUG fbi fba G b Delta32 RI FA (b_content B, Off) Sec
                (S i) RelEnd) as [[[K' T] A]| |]; cbn [mbind Outcome_bind]; [|exact I|left; exact HP].
    destruct HP as (HP1 & HP2 & HP3).
    exists b, B, K', Off, T, A. rewrite HP1. cbn [fixupSize]. repeat split; assumption.
  - (* SUBTRACTOR, 64 bits *)
    pose proof (parsePairRelocation_sound G b Delta64 RI FA (b_content B) Off Sec (S i) RelEnd
                  HS HK (or_intror eq_refl) Hlo Hhi) as HP.
    destruct (parsePairRelocation NDEBUG fbi fba G b Delta64 RI FA (b_content B, Off) Sec
                (S i) RelEnd) as [[[K' T] A]| |]; cbn [mbind Outcome_bind]; [|exact I|left; exact HP].
    destruct HP as (HP1 & HP2 & HP3).
    exists b, B, K', Off, T, A. rewrite HP1. cbn [fixupSize]. repeat split; assumption.
Qed.

End ParserSound.

Lemma getAddress_addEdge G b K Off T A Sym :
  getAddress (addEdge G b K Off T A) Sym = getAddress G Sym.
Proof.
  unfold getAddress. destruct (s_base Sym) as [k|x]; [|reflexivity].
  rewrite lookup_blocks_addEdge.
  destruct (blocks G !! k); [|reflexivity]. cbn.
  destruct (decide (b = k)); reflexivity.
Qed.

Lemma symbolAddress_addEdge G b K Off T A s :
  symbolAddress (addEdge G b K Off T A) s = symbolAddress G s.
Proof.
  unfold symbolAddress. cbn [symbols addEdge].
  destruct (symbols G !! s); [|reflexivity]. cbn. apply getAddress_addEdge.
Qed.

Lemma forallb_alter {A} (f : A -> bool) (g : A -> A) (l : list A) : forall b,
  forallb f l = true -> (forall x, l !! b = Some x -> f x = true -> f (g x) = true) ->
  forallb f (alter g b l) = true.
Proof.
  induction l as [|x l IH]; intros b Hl Hg; [reflexivity|].
  cbn in Hl. apply andb_true_iff in Hl as [Hx Hl].
  destruct b as [|b]; cbn.
  - rewrite (Hg x eq_refl Hx), Hl. reflexivity.
  - rewrite Hx. cbn. apply IH; [exact Hl|]. intros y Hy. apply (Hg y). exact Hy.
Qed.

Section Invariants.

Variables fbi fba : Z -> option nat.

Lemma soundLookups_addEdge G b K Off T A :
  soundLookups fbi fba G -> soundLookups fbi fba (addEdge G b K Off T A).
Proof.
  intros [H1 H2]. split.
  - intros i s Hs. rewrite symbolAddress_addEdge. exact (H1 i s Hs).
  - intros a s Hs. destruct (H2 a s Hs) as (Sym & k & B & HSym & Hbase & HB & Hr).
    exists Sym, k. rewrite lookup_blocks_addEdge, HB. cbn.
    eexists. split; [exact HSym|]. split; [exact Hbase|]. split; [reflexivity|].
    destruct (decide (b = k)); exact Hr.
Qed.

Lemma blocksFit_addEdge G b K Off T A :
  blocksFit G = true -> blocksFit (addEdge G b K Off T A) = true.
Proof.
  intros H. unfold blocksFit, addEdge. cbn [blocks].
  apply forallb_alter; [exact H|]. intros B _ HB. exact HB.
Qed.

Lemma edgesFit_addEdge G b B K Off T A :
  blocksFit G = true -> blocks G !! b = Some B ->
  0 <= Off -> Off + fixupSize K <= Z.of_nat (length (b_content B)) ->
  edgesFit G = true -> edgesFit (addEdge G b K Off T A) = true.
Proof.
  intros HF HB Hlo Hhi H. unfold edgesFit, addEdge. cbn [blocks].
  apply forallb_alter; [exact H|]. intros B' HB' HE.
  rewrite HB in HB'. inversion HB'; subst B'.
  destruct (blocksFit_lookup G b B HF HB) as (_ & _ & Hsz).
  assert (0 < fixupSize K) by (destruct K; cbn; lia).
  change (forallb (edgeFits B) (b_edges B ++ [mkEdge K (u32 Off) T (s64 A)]) = true).
  rewrite forallb_app, HE. cbn [forallb andb]. rewrite andb_true_r.
  unfold edgeFits. cbn [e_offset e_kind]. unfold u32. rewrite wrap_small by lia.
  apply andb_true_iff. split; [apply Z.leb_le|apply Z.leb_le]; lia.
Qed.

End Invariants.

Section LoopSound.

Variable genericName : EdgeKind -> option string.
Variable NDEBUG : bool.
Variables fbi fba : Z -> option nat.

Lemma relocationLoop_sound fuel : forall Sec RelEnd G i,
  soundLookups fbi fba G -> blocksFit G = true ->
  (length (reloc_data Sec) - i < fuel)%nat ->
  match relocationLoop genericName NDEBUG fbi fba fuel Sec RelEnd G i with
  | Success G' =>
      soundLookups fbi fba G' /\ blocksFit G' = true /\
      (edgesFit G = true -> edgesFit G' = true)
  | Failure _ => True
  | Abort r => r = MalformedObject \/ (r = NoReturn /\ genericName Pointer32 = None)
  end.
Proof.
  induction fuel as [|fuel IH]; intros Sec RelEnd G i HS HF Hfuel; [lia|].
  cbn [relocationLoop].
  destruct (i =? RelEnd)%nat; [auto|].
  pose proof (processRelocation_sound genericName NDEBUG fbi fba Sec RelEnd G i HS HF) as Hp.
  destruct (processRelocation genericName NDEBUG fbi fba Sec RelEnd G i) as [[G1 i1]| |] eqn:Heq;
    cbn [mbind Outcome_bind]; [|exact I|exact Hp].
  destruct Hp as (b & B & K & Off & T & A & HB & -> & Hlo & Hhi & _).
  apply processRelocation_progress in Heq as [Hlt Hle].
  specialize (IH Sec RelEnd (addEdge G b K Off T A) (S i1)
                (soundLookups_addEdge fbi fba G b K Off T A HS)
                (blocksFit_addEdge G b K Off T A HF) ltac:(lia)).
  destruct (relocationLoop genericName NDEBUG fbi fba fuel Sec RelEnd (addEdge G b K Off T A) (S i1));
    [|exact I|exact IH].
  destruct IH as (IH1 & IH2 & IH3). split; [exact IH1|]. split; [exact IH2|].
  intros HE. apply IH3. apply (edgesFit_addEdge G b B); assumption.
Qed.

Lemma addRelocations_sound Obj : forall G,
  soundLookups fbi fba G -> blocksFit G = true ->
  match addRelocations genericName NDEBUG fbi fba Obj G with
  | Success G' => edgesFit G = true -> edgesFit G' = true
  | Failure _ => True
  | Abort r => r = MalformedObject \/ (r = NoReturn /\ genericName Pointer32 = None)
  end.
Proof.
  induction Obj as [|Sec Obj IH]; intros G HS HF; cbn [addRelocations]; [auto|].
  pose proof (relocationLoop_sound (S (length (reloc_data Sec))) Sec (nreloc Sec) G 0 HS HF
                ltac:(lia)) as Hs.
  unfold addSectionRelocations.
  destruct (relocationLoop genericName NDEBUG fbi fba (S (length (reloc_data Sec))) Sec (nreloc Sec) G 0)
    as [G1| |]; cbn [mbind Outcome_bind]; [|exact I|exact Hs].
  destruct Hs as (H1 & H2 & H3). specialize (IH G1 H1 H2).
  destruct (addRelocations genericName NDEBUG fbi fba Obj G1); [|exact I|exact IH].
  intros HE. apply IH, H3, HE.
Qed.

(** X2. When the symbol lookups are sound for the graph and the blocks fit
    in the address space, [addRelocations] ends abnormally in two ways only:
    by the read of a relocation record outside the object buffer, or, when
    [getGenericEdgeKindName] does not return for [Pointer32], in the naming
    of that kind for the message of the invalid-pair error (an ADDEND
    followed by a 32-bit UNSIGNED). No assertion fails, [llvm_unreachable]
    is not reached, and no access to the content of a block or to the graph
    is out of bounds, with assertions or without. *)
Theorem addRelocations_abnormal_end Obj G :
  soundLookups fbi fba G -> blocksFit G = true ->
  stopsOnly (fun _ => True)
            (fun r => r = MalformedObject \/ (r = NoReturn /\ genericName Pointer32 = None))
            (addRelocations genericName NDEBUG fbi fba Obj G).
Proof.
  intros HS HF. pose proof (addRelocations_sound Obj G HS HF) as H.
  destruct (addRelocations genericName NDEBUG fbi fba Obj G); cbn; [exact I|exact I|exact H].
Qed.

(** X3. Under the same assumptions a successful run keeps the fixups inside
    the blocks: if every edge of the graph lies inside the content of its
    block (offset plus fixup size at most the content size), so does every
    edge of the result. *)
Theorem addRelocations_edges_fit Obj G G' :
  soundLookups fbi fba G -> blocksFit G = true -> edgesFit G = true ->
  addRelocations genericName NDEBUG fbi fba Obj G = Success G' ->
  edgesFit G' = true.
Proof.
  intros HS HF HE Hrun. pose proof (addRelocations_sound Obj G HS HF) as H.
  rewrite Hrun in H. exact (H HE).
Qed.

End LoopSound.

(** ** Fixup applier: what a run changes and how it can fail *)

(** A store changes no byte outside the bytes written. *)
Lemma writeLE_frame n mem off v mem' (i : nat) :
  writeLE n mem off v = Some mem' ->
  Z.of_nat i < off \/ off + Z.of_nat n <= Z.of_nat i ->
  mem' !! i = mem !! i.
Proof.
  unfold writeLE. intros H Hi.
  destruct (Z.leb_spec 0 off), (Z.leb_spec (off + Z.of_nat n) (Z.of_nat (length mem)));
    cbn in H; try discriminate.
  inversion H; subst; clear H.
  destruct Hi as [Hi|Hi].
  - rewrite lookup_app_l by (rewrite length_take; lia).
    apply lookup_take_lt. lia.
  - rewrite lookup_app_r by (rewrite length_take; lia).
    rewrite lookup_app_r by (rewrite length_take, length_le_split; lia).
    rewrite lookup_drop, length_take, length_le_split. f_equal. lia.
Qed.

Lemma writeLE_defined n mem off v :
  0 <= off -> off + Z.of_nat n <= Z.of_nat (length mem) -> is_Some (writeLE n mem off v).
Proof. intros H1 H2. rewrite (writeLE_in_bounds n mem off v H1 H2). eexists. reflexivity. Qed.

Ltac closed_tests :=
  repeat match goal with
  | H : _ = true |- _ => discriminate H
  | H : _ = false |- _ => discriminate H
  end.

(** X12. A successful [applyFixup] keeps the size of the working memory and
    changes no byte outside the fixup, the 4 or 8 bytes at the offset of the
    edge. *)
Theorem applyFixup_frame genericName NDEBUG G b E mem mem' :
  applyFixup genericName NDEBUG G b E mem = Success mem' ->
  length mem' = length mem /\
  forall i : nat,
    Z.of_nat i < e_offset E \/ e_offset E + fixupSize (e_kind E) <= Z.of_nat i ->
    mem' !! i = mem !! i.
Proof.
  intros H. unfold applyFixup, targetOutOfRangeError in H.
  inv_success; inv_access; closed_tests;
    (split; [eapply writeLE_length; eassumption|]);
    intros i Hi; cbn [fixupSize] in Hi;
    (eapply writeLE_frame; [eassumption|lia]).
Qed.

Lemma stopsOnly_access_Some {A} P Q (o : option A) : is_Some o -> stopsOnly P Q (access o).
Proof. intros [a ->]. exact I. Qed.

(** X13. For an edge whose fixup lies inside the content of its block and
    whose target has an address, [applyFixup] on a working memory of the
    size of the content makes no access out of bounds. *)
Theorem applyFixup_in_bounds genericName NDEBUG G b B E mem :
  blocks G !! b = Some B ->
  is_Some (symbolAddress G (e_target E)) ->
  edgeFits B E = true ->
  length mem = length (b_content B) ->
  stopsOnly (fun _ => True) (fun r => r <> BadAccess) (applyFixup genericName NDEBUG G b E mem).
Proof.
  intros HB [T HT] HE Hmem. unfold edgeFits in HE. rewrite <- Hmem in HE.
  apply andb_true_iff in HE as [Hlo Hhi]. apply Z.leb_le in Hlo, Hhi.
  unfold applyFixup, targetOutOfRangeError. rewrite HB, HT. cbn [access mbind Outcome_bind].
  destruct (e_kind E); cbn [fixupSize] in Hhi; eval_kind_tests;
  repeat first
  [ exact I
  | discriminate
  | apply stopsOnly_assert; discriminate
  | apply stopsOnly_kind_name; discriminate
  | apply stopsOnly_access_Some;
    first [ apply readLE_defined | apply writeLE_defined
          | apply fmap_is_Some; apply readLEs_defined ]; cbn; lia
  | apply stopsOnly_bind; [|intros]
  | match goal with
    | |- stopsOnly _ _ (if ?c then _ else _) => destruct c
    | |- stopsOnly _ _ (Failure _) => exact I
    | |- stopsOnly _ _ (Abort _) => cbn; discriminate
    end ].
Qed.

(** X14. The errors of [applyFixup] by edge kind: a [Branch26] edge fails
    with the alignment error or the range error only, an [LDRLiteral19] edge
    likewise, a [PageOffset12] edge with the alignment error only, and
    [Pointer32], [Page21], [GOTPage21], [Delta32] and [NegDelta32] edges
    with the range error only, which names the block and the edge; for
    every other kind ([Pointer64], [GOTPageOffset12], [Delta64],
    [NegDelta64] among them) no error is returned. *)
Theorem applyFixup_errors genericName NDEBUG G b E mem e :
  applyFixup genericName NDEBUG G b E mem = Failure e ->
  match e_kind E with
  | Branch26 => e = Branch26Misaligned \/ e = TargetOutOfRange b E
  | LDRLiteral19 => e = LDRLiteralMisaligned \/ e = TargetOutOfRange b E
  | PageOffset12 => e = PageOff12Misaligned
  | Pointer32 | Page21 | GOTPage21 | Delta32 | NegDelta32 => e = TargetOutOfRange b E
  | _ => False
  end.
Proof.
  unfold applyFixup, targetOutOfRangeError, assert.
  destruct (blocks G !! b) as [B|]; cbn [access mbind Outcome_bind]; [|discriminate].
  destruct (e_kind E) eqn:HK; cbn; eval_kind_tests;
    repeat match goal with
    | |- context [access ?o] => destruct o; cbn [access mbind Outcome_bind]
    | |- context [if ?c then _ else _] => destruct c; cbn [mbind Outcome_bind]
    | |- context [genericName Pointer32] =>
        destruct (genericName Pointer32); cbn [returned mbind Outcome_bind]
    end; intros H; inversion H; subst; auto.
Qed.

(** X15. [applyFixup] reaches the [default] case of its switch
    ([llvm_unreachable]) exactly for the kinds [Pointer64Anon],
    [PointerToGOT] and [PairedAddend]. *)
Theorem applyFixup_unhandled_kinds genericName NDEBUG G b E mem :
  is_Some (blocks G !! b) ->
  (applyFixup genericName NDEBUG G b E mem = Abort Unreachable <->
   e_kind E = Pointer64Anon \/ e_kind E = PointerToGOT \/ e_kind E = PairedAddend).
Proof.
  intros [B HB]. unfold applyFixup, targetOutOfRangeError, assert. rewrite HB. cbn [access mbind Outcome_bind].
  destruct (e_kind E); cbn; eval_kind_tests;
    repeat match goal with
    | |- context [access ?o] => destruct o; cbn [access mbind Outcome_bind]
    | |- context [if ?c then _ else _] => destruct c; cbn [mbind Outcome_bind]
    | |- context [genericName Pointer32] =>
        destruct (genericName Pointer32); cbn [returned mbind Outcome_bind]
    end;
    (split; [intros H; try discriminate H; auto
            |intros [H|[H|H]]; try discriminate H; reflexivity]).
Qed.

(** ** Relocation parser: single records and pairs *)

Lemma getRelocationInfo_lookup Sec i RI :
  reloc_data Sec !! i = Some RI -> getRelocationInfo Sec i = Success RI.
Proof. intros H. unfold getRelocationInfo. rewrite H. reflexivity. Qed.

(** The steps of [processRelocation] up to the fixup content. *)
Ltac parser_prefix fba HRI HK Hfix Hsym Hbase HB Hext :=
  unfold processRelocation;
  rewrite (getRelocationInfo_lookup _ _ _ HRI); cbn [mbind Outcome_bind];
  rewrite HK; cbn [mbind Outcome_bind];
  rewrite (symbolByAddress_Some fba _ _ Hfix); cbn [mbind Outcome_bind];
  rewrite Hsym; cbn [access mbind Outcome_bind];
  unfold getBlock; rewrite Hbase; cbn [mbind Outcome_bind];
  rewrite HB; cbn [access mbind Outcome_bind];
  match goal with
  | |- context [?x >? ?y] => destruct (Z.gtb_spec x y) as [?|_]; [lia|]
  end;
  cbn [fst snd].

(** X8. Of the record that follows a SUBTRACTOR, [parsePairRelocation] uses
    the address, the length, the extern bit and the symbol number only: its
    [r_type] and [r_pcrel] are not looked at, so a record of any type with
    these four fields is taken for the UNSIGNED of the pair. *)
Theorem parsePairRelocation_ignores_type
    (NDEBUG : bool) (fbi fba : Z -> option nat) (G : LinkGraph) (b : nat) (K : EdgeKind)
    (SubRI : relocation_info) (FixupAddress : Z) (FixupContent : list Z * Z)
    (Sec Sec' : ObjSection) (j RelEnd : nat) (U U' : relocation_info) :
  reloc_data Sec !! j = Some U ->
  reloc_data Sec' !! j = Some U' ->
  r_address U' = r_address U ->
  r_length U' = r_length U ->
  r_extern U' = r_extern U ->
  r_symbolnum U' = r_symbolnum U ->
  parsePairRelocation NDEBUG fbi fba G b K SubRI FixupAddress FixupContent Sec' j RelEnd =
  parsePairRelocation NDEBUG fbi fba G b K SubRI FixupAddress FixupContent Sec j RelEnd.
Proof.
  intros HU HU' Ha Hl He Hs. unfold parsePairRelocation.
  rewrite (getRelocationInfo_lookup _ _ _ HU), (getRelocationInfo_lookup _ _ _ HU').
  cbn [mbind Outcome_bind]. rewrite Ha, Hl, He, Hs. reflexivity.
Qed.

Lemma parsePairRelocation_ignores_type_witness :
  parsePairRelocation false Example.findSymbolByIndex Example.findSymbolByAddress
    Example.G 4 Delta32 (Example.subtractorAt 0 2) 0x1040 ([4; 0; 0; 0; 0; 0; 0; 0], 0)
    (mkObjSection 0x1040 2 [Example.subtractorAt 0 2; mkRI 0 4 true 2 true ARM64_RELOC_BRANCH26]) 1 2 =
  Success (NegDelta32, 0%nat, 4).
Proof.
  rewrite (parsePairRelocation_ignores_type false Example.findSymbolByIndex
             Example.findSymbolByAddress Example.G 4 Delta32 (Example.subtractorAt 0 2)
             0x1040 ([4; 0; 0; 0; 0; 0; 0; 0], 0)
             Example.pairSection
             (mkObjSection 0x1040 2
                [Example.subtractorAt 0 2; mkRI 0 4 true 2 true ARM64_RELOC_BRANCH26])
             1 2 (Example.unsignedAt 0 2) (mkRI 0 4 true 2 true ARM64_RELOC_BRANCH26)
             eq_refl eq_refl eq_refl eq_refl eq_refl eq_refl).
  reflexivity.
Defined.

Section SingleRecords.

Variable genericName : EdgeKind -> option string.
Variable NDEBUG : bool.
Variables fbi fba : Z -> option nat.

(** What the parser makes of an ADDEND record and the record of kind [K]
    that follows it. *)
Lemma processRelocation_addend_steps
    (Sec : ObjSection) (RelEnd : nat) (G : LinkGraph) (RelItr : nat)
    (AddendRI RI : relocation_info) (K : EdgeKind)
    (fixsym b : nat) (SymbolToFix : Symbol) (B : Block) (I : Z) :
  let FixupAddress := u64 (os_address Sec + u32 (r_address AddendRI)) in
  let Offset := u64 (FixupAddress - b_address B) in
  reloc_data Sec !! RelItr = Some AddendRI ->
  getRelocationKind AddendRI = Success PairedAddend ->
  RelItr <> RelEnd ->
  reloc_data Sec !! S RelItr = Some RI ->
  getRelocationKind RI = Success K ->
  fba FixupAddress = Some fixsym ->
  symbols G !! fixsym = Some SymbolToFix ->
  s_base SymbolToFix = InBlock b ->
  blocks G !! b = Some B ->
  u64 (FixupAddress + u64 (Z.shiftl 1 (r_length AddendRI))) <=
    u64 (b_address B + Z.of_nat (length (b_content B))) ->
  readLE 4 (b_content B) Offset = Some I ->
  processRelocation genericName NDEBUG fbi fba Sec RelEnd G RelItr =
    if negb (bool_decide (K = Branch26)) && negb (bool_decide (K = Page21)) &&
       negb (bool_decide (K = PageOffset12))
    then
      KindName ← getMachOARM64RelocationKindName genericName K;
      Failure (InvalidAddendPair KindName)
    else if negb (u64 (os_address Sec + u32 (r_address RI)) =? FixupAddress)
    then Failure PairedDifferentTarget
    else
      match fbi (r_symbolnum RI) with
      | None => Failure (NoSymbolForIndex (r_symbolnum RI))
      | Some Target =>
          if bool_decide (K = Branch26) && negb (Z.land I 0x7fffffff =? 0x14000000)
          then Failure Branch26NotBranch
          else if bool_decide (K = Page21) && negb (Z.land I 0xffffffe0 =? 0x90000000)
          then Failure Page21NotADRP
          else Success (addEdge G b K Offset Target (r_symbolnum AddendRI), S RelItr)
      end.
Proof.
  intros FixupAddress Offset HARI HAK Hne HRI HK Hfix Hsym Hbase HB Hext HI.
  subst Offset FixupAddress.
  parser_prefix fba HARI HAK Hfix Hsym Hbase HB Hext.
  rewrite HI.
  rewrite bool_decide_true by reflexivity.
  rewrite (proj2 (Nat.eqb_neq _ _) Hne).
  rewrite (getRelocationInfo_lookup _ _ _ HRI). cbn [mbind Outcome_bind].
  rewrite HK. cbn [mbind Outcome_bind].
  destruct K; eval_kind_tests;
    cbn [getMachOARM64RelocationKindName mbind Outcome_bind]; try reflexivity;
    try (destruct (genericName Pointer32); reflexivity);
    (destruct (negb (u64 (os_address Sec + u32 (r_address RI)) =? _)); cbn [mbind Outcome_bind]; [reflexivity|]);
    unfold symbolByIndex; destruct (fbi (r_symbolnum RI)); cbn [access mbind Outcome_bind];
    try reflexivity;
    destruct (negb (Z.land I _ =? _)); reflexivity.
Qed.

(** X9. An ADDEND record followed by a record of kind [K]. Unless [K] is
    [Branch26], [Page21] or [PageOffset12] the parser rejects the pair with
    the invalid-pair error, whose message carries the name of [K]; the name
    of [Pointer32] (a 32-bit UNSIGNED) is left to [getGenericEdgeKindName],
    and the error is returned only if that call returns. For the three
    kinds the parser rejects the pair if the two addresses differ;
    otherwise it applies the test of the instruction word of [K] and adds
    one edge of kind [K] to the block of the fixup, after its edges, whose
    addend is the [r_symbolnum] of the ADDEND record as it stands, an
    unsigned 24-bit number, and it leaves the iterator on the second
    record; the rest of the graph is as before. *)
Theorem processRelocation_addend_pair
    (Sec : ObjSection) (RelEnd : nat) (G : LinkGraph) (RelItr : nat)
    (AddendRI RI : relocation_info) (K : EdgeKind)
    (fixsym b : nat) (SymbolToFix : Symbol) (B : Block) (I : Z) :
  let FixupAddress := u64 (os_address Sec + u32 (r_address AddendRI)) in
  let Offset := u64 (FixupAddress - b_address B) in
  reloc_data Sec !! RelItr = Some AddendRI ->
  getRelocationKind AddendRI = Success PairedAddend ->
  RelItr <> RelEnd ->
  reloc_data Sec !! S RelItr = Some RI ->
  getRelocationKind RI = Success K ->
  fba FixupAddress = Some fixsym ->
  symbols G !! fixsym = Some SymbolToFix ->
  s_base SymbolToFix = InBlock b ->
  blocks G !! b = Some B ->
  u64 (FixupAddress + u64 (Z.shiftl 1 (r_length AddendRI))) <=
    u64 (b_address B + Z.of_nat (length (b_content B))) ->
  readLE 4 (b_content B) Offset = Some I ->
  let result := processRelocation genericName NDEBUG fbi fba Sec RelEnd G RelItr in
  let paired : Prop :=
    if negb (u64 (os_address Sec + u32 (r_address RI)) =? FixupAddress)
    then result = Failure PairedDifferentTarget
    else
      match fbi (r_symbolnum RI) with
      | None => result = Failure (NoSymbolForIndex (r_symbolnum RI))
      | Some Target =>
          if bool_decide (K = Branch26) && negb (Z.land I 0x7fffffff =? 0x14000000)
          then result = Failure Branch26NotBranch
          else if bool_decide (K = Page21) && negb (Z.land I 0xffffffe0 =? 0x90000000)
          then result = Failure Page21NotADRP
          else
            exists G1,
              result = Success (G1, S RelItr) /\
              blocks G1 !! b =
                Some (mkBlock (b_section B) (b_content B) (b_address B) (b_alignment B)
                        (b_alignmentOffset B)
                        (b_edges B ++
                         [mkEdge K (u32 Offset) Target (s64 (r_symbolnum AddendRI))])) /\
              (forall k, k <> b -> blocks G1 !! k = blocks G !! k) /\
              sections G1 = sections G /\ externals G1 = externals G /\
              symbols G1 = symbols G /\
              (0 <= r_symbolnum AddendRI < 2 ^ 24 ->
               s64 (r_symbolnum AddendRI) = r_symbolnum AddendRI)
      end in
  match K with
  | Branch26 | Page21 | PageOffset12 => paired
  | Pointer32 =>
      result = match genericName Pointer32 with
               | Some KindName => Failure (InvalidAddendPair KindName)
               | None => Abort NoReturn
               end
  | Pointer64 => result = Failure (InvalidAddendPair "Pointer64")
  | Pointer64Anon => result = Failure (InvalidAddendPair "Pointer64Anon")
  | GOTPage21 => result = Failure (InvalidAddendPair "GOTPage21")
  | GOTPageOffset12 => result = Failure (InvalidAddendPair "GOTPageOffset12")
  | PointerToGOT => result = Failure (InvalidAddendPair "PointerToGOT")
  | PairedAddend => result = Failure (InvalidAddendPair "PairedAddend")
  | LDRLiteral19 => result = Failure (InvalidAddendPair "LDRLiteral19")
  | Delta32 => result = Failure (InvalidAddendPair "Delta32")
  | Delta64 => result = Failure (InvalidAddendPair "Delta64")
  | NegDelta32 => result = Failure (InvalidAddendPair "NegDelta32")
  | NegDelta64 => result = Failure (InvalidAddendPair "NegDelta64")
  end.
Proof.
  intros FixupAddress Offset HARI HAK Hne HRI HK Hfix Hsym Hbase HB Hext HI result paired.
  pose proof (processRelocation_addend_steps Sec RelEnd G RelItr AddendRI RI K fixsym b
                SymbolToFix B I HARI HAK Hne HRI HK Hfix Hsym Hbase HB Hext HI) as Hsteps.
  cbv zeta in Hsteps. fold FixupAddress Offset result in Hsteps.
  assert (forall Target,
            result = Success (addEdge G b K Offset Target (r_symbolnum AddendRI), S RelItr) ->
            exists G1,
              result = Success (G1, S RelItr) /\
              blocks G1 !! b =
                Some (mkBlock (b_section B) (b_content B) (b_address B) (b_alignment B)
                        (b_alignmentOffset B)
                        (b_edges B ++
                         [mkEdge K (u32 Offset) Target (s64 (r_symbolnum AddendRI))])) /\
              (forall k, k <> b -> blocks G1 !! k = blocks G !! k) /\
              sections G1 = sections G /\ externals G1 = externals G /\
              symbols G1 = symbols G /\
              (0 <= r_symbolnum AddendRI < 2 ^ 24 ->
               s64 (r_symbolnum AddendRI) = r_symbolnum AddendRI)) as Hedge.
  { intros Target Hres. eexists. split; [exact Hres|].
    destruct (addEdge_block G b B K Offset Target (r_symbolnum AddendRI) HB)
      as (H1 & H2 & H3 & H4 & H5).
    repeat split; try assumption.
    intros Hr. apply signed_small; lia. }
  subst paired.
  destruct K; revert Hsteps; eval_kind_tests;
    cbn [getMachOARM64RelocationKindName returned negb andb mbind Outcome_bind];
    intros Hsteps; try exact Hsteps;
    try (destruct (genericName Pointer32); exact Hsteps).
  all: destruct (negb (u64 (os_address Sec + u32 (r_address RI)) =? FixupAddress));
    [exact Hsteps|];
    destruct (fbi (r_symbolnum RI)) as [Target|]; [|exact Hsteps];
    repeat match goal with
    | |- context [if ?c then _ else _] => destruct c; [exact Hsteps|]
    end; apply Hedge; exact Hsteps.
Qed.

Lemma processRelocation_pointer
    (Sec : ObjSection) (RelEnd : nat) (G : LinkGraph) (RelItr : nat) (RI : relocation_info)
    (fixsym b t : nat) (SymbolToFix : Symbol) (B : Block) (V : Z) :
  let FixupAddress := u64 (os_address Sec + u32 (r_address RI)) in
  let Offset := u64 (FixupAddress - b_address B) in
  let width := if r_length RI =? 3 then 8%nat else 4%nat in
  reloc_data Sec !! RelItr = Some RI ->
  r_type RI = ARM64_RELOC_UNSIGNED ->
  r_pcrel RI = false ->
  (r_length RI = 3 /\ r_extern RI = true) \/ r_length RI = 2 ->
  fba FixupAddress = Some fixsym ->
  symbols G !! fixsym = Some SymbolToFix ->
  s_base SymbolToFix = InBlock b ->
  blocks G !! b = Some B ->
  u64 (FixupAddress + u64 (Z.shiftl 1 (r_length RI))) <=
    u64 (b_address B + Z.of_nat (length (b_content B))) ->
  fbi (r_symbolnum RI) = Some t ->
  readLE width (b_content B) Offset = Some V ->
  processRelocation genericName NDEBUG fbi fba Sec RelEnd G RelItr =
    Success (addEdge G b (if r_length RI =? 3 then Pointer64 else Pointer32) Offset t V,
             RelItr).
Proof.
  intros FixupAddress Offset width HRI Hty Hpc Hlen Hfix Hsym Hbase HB Hext Ht HV.
  subst width Offset FixupAddress.
  assert (getRelocationKind RI =
          Success (if r_length RI =? 3 then Pointer64 else Pointer32)) as HK.
  { unfold getRelocationKind. rewrite Hty, Hpc.
    destruct Hlen as [[-> ->]| ->]; reflexivity. }
  destruct Hlen as [[Hl _]|Hl]; rewrite Hl in HV, HK |- *;
    cbn [Z.eqb Pos.eqb] in HV, HK |- *;
    parser_prefix fba HRI HK Hfix Hsym Hbase HB Hext;
    eval_kind_tests; cbn [mbind Outcome_bind];
    rewrite (symbolByIndex_Some fbi _ _ Ht); cbn [mbind Outcome_bind];
    rewrite HV; reflexivity.
Qed.

(** X10. An UNSIGNED record that is not pc-relative, of length 3 and extern
    or of length 2, parsed and then applied with arbitrary final addresses:
    the target is the symbol with the record's symbol number and the fixup
    bytes receive the target address plus the value they held, as 64 bits,
    or as 32 bits when the sum is at most [0xffffffff]. Else the applier
    builds the range error, whose message needs the name of [Pointer32]
    from [getGenericEdgeKindName]: the error is returned if that call
    returns. *)
Theorem pointer_roundtrip
    (NDEBUG' : bool) (Sec : ObjSection) (RelEnd : nat) (G : LinkGraph) (RelItr : nat)
    (RI : relocation_info) (fixsym b t : nat) (SymbolToFix : Symbol) (B : Block) (V : Z)
    (G' : LinkGraph) (B' : Block) (T' : Z) (mem : list Z) :
  let FixupAddress := u64 (os_address Sec + u32 (r_address RI)) in
  let Offset := u64 (FixupAddress - b_address B) in
  let width := if r_length RI =? 3 then 8%nat else 4%nat in
  reloc_data Sec !! RelItr = Some RI ->
  r_type RI = ARM64_RELOC_UNSIGNED ->
  r_pcrel RI = false ->
  (r_length RI = 3 /\ r_extern RI = true) \/ r_length RI = 2 ->
  fba FixupAddress = Some fixsym ->
  symbols G !! fixsym = Some SymbolToFix ->
  s_base SymbolToFix = InBlock b ->
  blocks G !! b = Some B ->
  u64 (FixupAddress + u64 (Z.shiftl 1 (r_length RI))) <=
    u64 (b_address B + Z.of_nat (length (b_content B))) ->
  fbi (r_symbolnum RI) = Some t ->
  readLE width (b_content B) Offset = Some V ->
  Offset < 2 ^ 32 ->
  blocks G' !! b = Some B' ->
  symbolAddress G' t = Some T' ->
  length mem = length (b_content B) ->
  exists G1 E,
    processRelocation genericName NDEBUG fbi fba Sec RelEnd G RelItr = Success (G1, RelItr) /\
    b_edges <$> blocks G1 !! b = Some (b_edges B ++ [E]) /\
    e_kind E = (if r_length RI =? 3 then Pointer64 else Pointer32) /\
    e_offset E = Offset /\ e_target E = t /\
    if r_length RI =? 3 then
      exists mem', applyFixup genericName NDEBUG' G' b E mem = Success mem' /\
                   readLE 8 mem' Offset = Some (u64 (T' + V))
    else if u64 (T' + V) <=? 0xffffffff then
      exists mem', applyFixup genericName NDEBUG' G' b E mem = Success mem' /\
                   readLE 4 mem' Offset = Some (u64 (T' + V))
    else applyFixup genericName NDEBUG' G' b E mem =
           match genericName Pointer32 with
           | Some _ => Failure (TargetOutOfRange b E)
           | None => Abort NoReturn
           end.
Proof.
  intros FixupAddress Offset width HRI Hty Hpc Hlen Hfix Hsym Hbase HB Hext Ht HV Hoff
    HB' HT' Hmem.
  pose proof (processRelocation_pointer Sec RelEnd G RelItr RI fixsym b t SymbolToFix B V
                HRI Hty Hpc Hlen Hfix Hsym Hbase HB Hext Ht HV) as Hparse.
  cbv zeta in Hparse. fold FixupAddress Offset in Hparse.
  pose proof (readLE_in_bounds _ _ _ _ HV) as [Hlo Hhi]. rewrite <- Hmem in Hhi.
  assert (u32 Offset = Offset) as Hu32.
  { apply wrap_small. pose proof (u64_range (FixupAddress - b_address B)). unfold Offset. lia. }
  set (E := mkEdge (if r_length RI =? 3 then Pointer64 else Pointer32) Offset t (s64 V)).
  eexists. exists E. split; [exact Hparse|].
  split.
  { rewrite lookup_blocks_addEdge, HB, decide_True by reflexivity. cbn. rewrite Hu32.
    reflexivity. }
  split; [reflexivity|]. split; [reflexivity|]. split; [reflexivity|].
  unfold applyFixup, targetOutOfRangeError. rewrite HB'. cbn [access mbind Outcome_bind E e_kind e_target e_offset e_addend].
  rewrite HT'. cbn [access mbind Outcome_bind]. rewrite u64_add_s64.
  unfold width in Hhi.
  destruct Hlen as [[Hl _]|Hl]; rewrite Hl in Hhi |- *; cbn [Z.eqb Pos.eqb] in Hhi |- *;
    cbn [mbind Outcome_bind].
  - rewrite (writeLE_in_bounds 8 mem Offset _ Hlo Hhi). eexists. split; [reflexivity|].
    erewrite readLE_writeLE by (apply writeLE_in_bounds; assumption).
    f_equal. apply Z.mod_small. apply u64_range.
  - rewrite Z.gtb_ltb.
    destruct (Z.leb_spec (u64 (T' + V)) 4294967295), (Z.ltb_spec 4294967295 (u64 (T' + V)));
      try lia;
      [|cbn [getMachOARM64RelocationKindName returned];
        destruct (genericName Pointer32); reflexivity].
    rewrite (writeLE_in_bounds 4 mem Offset _ Hlo Hhi). eexists. split; [reflexivity|].
    erewrite readLE_writeLE by (apply writeLE_in_bounds; assumption).
    f_equal. apply Z.mod_small. pose proof (u64_range (T' + V)). change (8 * Z.of_nat 4) with 32. lia.
Qed.

(** X11. An UNSIGNED record of length 3 that is not extern is parsed into a
    [Pointer64Anon] edge to the symbol found at the address held by the
    fixup bytes, with the distance from that symbol as addend; [applyFixup]
    has no case for this kind and ends in [llvm_unreachable] on the edge. *)
Theorem Pointer64Anon_not_applied
    (Sec : ObjSection) (RelEnd : nat) (G : LinkGraph) (RelItr : nat) (RI : relocation_info)
    (fixsym b t : nat) (SymbolToFix : Symbol) (B : Block) (V TA : Z) :
  let FixupAddress := u64 (os_address Sec + u32 (r_address RI)) in
  let Offset := u64 (FixupAddress - b_address B) in
  reloc_data Sec !! RelItr = Some RI ->
  r_type RI = ARM64_RELOC_UNSIGNED ->
  r_pcrel RI = false ->
  r_extern RI = false ->
  r_length RI = 3 ->
  fba FixupAddress = Some fixsym ->
  symbols G !! fixsym = Some SymbolToFix ->
  s_base SymbolToFix = InBlock b ->
  blocks G !! b = Some B ->
  u64 (FixupAddress + u64 (Z.shiftl 1 (r_length RI))) <=
    u64 (b_address B + Z.of_nat (length (b_content B))) ->
  readLE 8 (b_content B) Offset = Some V ->
  fba V = Some t ->
  symbolAddress G t = Some TA ->
  let E := mkEdge Pointer64Anon (u32 Offset) t (s64 (u64 (V - TA))) in
  processRelocation genericName NDEBUG fbi fba Sec RelEnd G RelItr =
    Success (addEdge G b Pointer64Anon Offset t (u64 (V - TA)), RelItr) /\
  b_edges <$> blocks (addEdge G b Pointer64Anon Offset t (u64 (V - TA))) !! b =
    Some (b_edges B ++ [E]) /\
  forall NDEBUG' G' mem,
    is_Some (blocks G' !! b) -> applyFixup genericName NDEBUG' G' b E mem = Abort Unreachable.
Proof.
  intros FixupAddress Offset HRI Hty Hpc Hex Hlen Hfix Hsym Hbase HB Hext HV Ht HTA E.
  subst E Offset FixupAddress.
  assert (getRelocationKind RI = Success Pointer64Anon) as HK.
  { unfold getRelocationKind. rewrite Hty, Hpc, Hex, Hlen. reflexivity. }
  split; [|split].
  - parser_prefix fba HRI HK Hfix Hsym Hbase HB Hext.
    eval_kind_tests. cbn [mbind Outcome_bind]. rewrite HV. cbn [access mbind Outcome_bind].
    rewrite (symbolByAddress_Some fba _ _ Ht). cbn [mbind Outcome_bind].
    rewrite HTA. reflexivity.
  - rewrite lookup_blocks_addEdge, HB, decide_True by reflexivity. reflexivity.
  - intros NDEBUG' G' mem [B' HB']. unfold applyFixup, targetOutOfRangeError. rewrite HB'. reflexivity.
Qed.

End SingleRecords.

Section ParserErrors.

Variable genericName : EdgeKind -> option string.
Variable NDEBUG : bool.
Variables fbi fba : Z -> option nat.

(** X6. A relocation whose fixup extends past the end of the block found at
    its address is rejected with [ContentPastEndOfBlock], whatever its
    kind. *)
Theorem processRelocation_extent
    (Sec : ObjSection) (RelEnd : nat) (G : LinkGraph) (RelItr : nat) (RI : relocation_info)
    (K : EdgeKind) (fixsym b : nat) (SymbolToFix : Symbol) (B : Block) :
  let FixupAddress := u64 (os_address Sec + u32 (r_address RI)) in
  reloc_data Sec !! RelItr = Some RI ->
  getRelocationKind RI = Success K ->
  fba FixupAddress = Some fixsym ->
  symbols G !! fixsym = Some SymbolToFix ->
  s_base SymbolToFix = InBlock b ->
  blocks G !! b = Some B ->
  u64 (FixupAddress + u64 (Z.shiftl 1 (r_length RI))) >
    u64 (b_address B + Z.of_nat (length (b_content B))) ->
  processRelocation genericName NDEBUG fbi fba Sec RelEnd G RelItr = Failure ContentPastEndOfBlock.
Proof.
  intros FixupAddress HRI HK Hfix Hsym Hbase HB Hext. subst FixupAddress.
  unfold processRelocation.
  rewrite (getRelocationInfo_lookup _ _ _ HRI). cbn [mbind Outcome_bind].
  rewrite HK. cbn [mbind Outcome_bind].
  rewrite (symbolByAddress_Some fba _ _ Hfix). cbn [mbind Outcome_bind].
  rewrite Hsym. cbn [access mbind Outcome_bind].
  unfold getBlock. rewrite Hbase. cbn [mbind Outcome_bind].
  rewrite HB. cbn [access mbind Outcome_bind].
  match goal with
  | |- context [?x >? ?y] => destruct (Z.gtb_spec x y) as [_|?]; [reflexivity|lia]
  end.
Qed.

(** X7. A SUBTRACTOR in the last place of its section is rejected with the
    error for a SUBTRACTOR without paired UNSIGNED, whatever follows in the
    object buffer: the test of the end comes after the iterator has been
    advanced. *)
Theorem processRelocation_lone_subtractor
    (Sec : ObjSection) (G : LinkGraph) (RelItr : nat) (RI : relocation_info)
    (K : EdgeKind) (fixsym b : nat) (SymbolToFix : Symbol) (B : Block) :
  let FixupAddress := u64 (os_address Sec + u32 (r_address RI)) in
  reloc_data Sec !! RelItr = Some RI ->
  getRelocationKind RI = Success K ->
  K = Delta32 \/ K = Delta64 ->
  fba FixupAddress = Some fixsym ->
  symbols G !! fixsym = Some SymbolToFix ->
  s_base SymbolToFix = InBlock b ->
  blocks G !! b = Some B ->
  u64 (FixupAddress + u64 (Z.shiftl 1 (r_length RI))) <=
    u64 (b_address B + Z.of_nat (length (b_content B))) ->
  processRelocation genericName NDEBUG fbi fba Sec (S RelItr) G RelItr = Failure SubtractorWithoutUnsigned.
Proof.
  intros FixupAddress HRI HK HD Hfix Hsym Hbase HB Hext. subst FixupAddress.
  destruct (getRelocationKind_Success RI K HK) as (_ & _ & _ & _ & Hsub).
  destruct (Hsub HD) as (Hex & Hpc & Hlen).
  parser_prefix fba HRI HK Hfix Hsym Hbase HB Hext.
  destruct HD as [-> | ->]; eval_kind_tests; cbn [mbind Outcome_bind];
    unfold parsePairRelocation;
    (rewrite !assert_true;
       [| rewrite Hlen; reflexivity | exact Hex | rewrite Hpc; reflexivity ]);
    cbn [mbind Outcome_bind]; rewrite Nat.eqb_refl; reflexivity.
Qed.

End ParserErrors.

(** ** Fixup applier: the page kinds *)

Section Page21Facts.

(** An ADRP word with a zero immediate: bits 31 and 28 and the register. *)
Lemma adrp_word_shape I :
  0 <= I < 2 ^ 32 -> Z.land I 0xffffffe0 = 0x90000000 ->
  I = Z.lor (Z.lor (Z.shiftl (Z.ones 1) 31) (Z.shiftl (Z.ones 1) 28)) (Z.land I (Z.ones 5)).
Proof.
  intros HI H.
  rewrite <- (Z.mod_small I (2 ^ 32)) at 1 by exact HI.
  rewrite <- Z.land_ones by lia.
  replace (Z.ones 32) with (Z.lor 0xffffffe0 (Z.ones 5)) by reflexivity.
  rewrite Z.land_lor_distr_r, H. reflexivity.
Qed.

Lemma immlo_eq D : u32 (Z.land (Z.shiftr (u64 D) 12) 0x3) = Z.land (Z.shiftr D 12) (Z.ones 2).
Proof.
  unfold u32, u64, wrap. rewrite <- !Z.land_ones by lia. change 0x3 with (Z.ones 2).
  Z.bitblast.
Qed.

Lemma immhi_eq D :
  u32 (Z.land (Z.shiftr (u64 D) 14) 0x7ffff) = Z.land (Z.shiftr D 14) (Z.ones 19).
Proof.
  unfold u32, u64, wrap. rewrite <- !Z.land_ones by lia. change 0x7ffff with (Z.ones 19).
  Z.bitblast.
Qed.

Lemma immlo_field x : u32 (Z.shiftl (Z.land x (Z.ones 2)) 29) = Z.shiftl (Z.land x (Z.ones 2)) 29.
Proof. unfold u32, wrap. rewrite <- !Z.land_ones by lia. Z.bitblast. Qed.

Lemma immhi_field x : u32 (Z.shiftl (Z.land x (Z.ones 19)) 5) = Z.shiftl (Z.land x (Z.ones 19)) 5.
Proof. unfold u32, wrap. rewrite <- !Z.land_ones by lia. Z.bitblast. Qed.

Lemma adrp_fields rd lo hi :
  let I := Z.lor (Z.lor (Z.shiftl (Z.ones 1) 31) (Z.shiftl (Z.ones 1) 28))
                 (Z.land rd (Z.ones 5)) in
  let W := Z.lor (Z.lor I (Z.shiftl (Z.land lo (Z.ones 2)) 29))
                 (Z.shiftl (Z.land hi (Z.ones 19)) 5) in
  Z.land (Z.shiftr W 29) (Z.ones 2) = Z.land lo (Z.ones 2) /\
  Z.land (Z.shiftr W 5) (Z.ones 19) = Z.land hi (Z.ones 19) /\
  Z.land W (Z.lor (Z.lor (Z.shiftl (Z.ones 1) 31) (Z.shiftl (Z.ones 5) 24)) (Z.ones 5)) = I /\
  Z.land W (Z.ones 32) = W.
Proof. intros I W. subst W I. repeat split; Z.bitblast. Qed.

Lemma imm21_eq D :
  Z.lor (Z.shiftl (Z.land (Z.shiftr D 14) (Z.ones 19)) 2) (Z.land (Z.shiftr D 12) (Z.ones 2)) =
  Z.land (Z.shiftr D 12) (Z.ones 21).
Proof. Z.bitblast. Qed.

(** The word stored for a page delta [D]. *)
Lemma adrp_imm I D :
  0 <= I < 2 ^ 32 -> Z.land I 0xffffffe0 = 0x90000000 ->
  let ImmLo := u32 (Z.land (Z.shiftr (u64 D) 12) 0x3) in
  let ImmHi := u32 (Z.land (Z.shiftr (u64 D) 14) 0x7ffff) in
  let W := Z.lor (Z.lor I (u32 (Z.shiftl ImmLo 29))) (u32 (Z.shiftl ImmHi 5)) in
  Z.lor (Z.shiftl (Z.land (Z.shiftr W 5) 0x7ffff) 2) (Z.land (Z.shiftr W 29) 0x3) =
    wrap 21 (Z.shiftr D 12) /\
  Z.land W 0x9f00001f = I /\
  0 <= W < 2 ^ 32.
Proof.
  intros HI H ImmLo ImmHi W. subst W ImmHi ImmLo.
  rewrite immlo_eq, immhi_eq, immlo_field, immhi_field.
  rewrite (adrp_word_shape I HI H).
  destruct (adrp_fields I (Z.shiftr D 12) (Z.shiftr D 14)) as (F1 & F2 & F3 & F4).
  cbv zeta in F1, F2, F3, F4.
  change 0x3 with (Z.ones 2). change 0x7ffff with (Z.ones 19).
  change 0x9f00001f with
    (Z.lor (Z.lor (Z.shiftl (Z.ones 1) 31) (Z.shiftl (Z.ones 5) 24)) (Z.ones 5)).
  rewrite F1, F2, F3. split; [|split; [reflexivity|]].
  - rewrite imm21_eq. unfold wrap. rewrite Z.land_ones by lia. reflexivity.
  - rewrite <- F4. rewrite Z.land_ones by lia. apply Z.mod_pos_bound. lia.
Qed.

End Page21Facts.

Section PageFacts.

Lemma page_mask x : Z.land x (u64 (Z.lnot (4096 - 1))) = 4096 * (u64 x / 4096).
Proof.
  change (u64 (Z.lnot (4096 - 1))) with (Z.shiftl (Z.ones 52) 12).
  replace (Z.land x (Z.shiftl (Z.ones 52) 12))
    with (Z.shiftl (Z.land (Z.shiftr x 12) (Z.ones 52)) 12) by Z.bitblast.
  rewrite Z.land_ones, Z.shiftr_div_pow2, Z.shiftl_mul_pow2 by lia.
  unfold u64, wrap. change (2 ^ 12) with 4096.
  pose proof (Z.rem_mul_r x 4096 (2 ^ 52) ltac:(lia) ltac:(lia)) as Hr.
  change (4096 * 2 ^ 52) with (2 ^ 64) in Hr.
  pose proof (Z.mod_pos_bound x 4096 ltac:(lia)) as Hb.
  rewrite (Z.div_unique (x mod 2 ^ 64) 4096 ((x / 4096) mod 2 ^ 52) (x mod 4096)); lia.
Qed.

Lemma s64_mod_4096 x : x mod 4096 = 0 -> s64 x mod 4096 = 0.
Proof.
  intros H. unfold s64, signed, wrap.
  assert ((x mod 2 ^ 64) mod 4096 = 0) as Hm.
  { rewrite Z.mod_mod_divide; [exact H|]. exists (2 ^ 52). reflexivity. }
  destruct (x mod 2 ^ 64 <? 2 ^ (64 - 1)); [exact Hm|].
  rewrite Zminus_mod, Hm. reflexivity.
Qed.

Lemma signed_wrap w x : signed w (wrap w x) = signed w x.
Proof. unfold signed, wrap. rewrite Zmod_mod. reflexivity. Qed.

End PageFacts.

(** X16. For a [Page21] or [GOTPage21] edge on an ADRP word with a zero
    immediate, the page delta [D] is taken from the page of the target to
    the page of the address of the block (not of the fixup). Outside
    [-2^30, 2^30) the applier returns the range error; inside it stores the
    word that keeps the opcode and the register of the instruction and whose
    21-bit immediate (immhi:immlo), read as a signed number of pages, is
    [D]. *)
Theorem applyFixup_Page21 (genericName : EdgeKind -> option string)
    (NDEBUG : bool) (G : LinkGraph) (b : nat) (B : Block)
    (E : Edge) (mem : list Z) (T I : Z) :
  e_kind E = Page21 \/ e_kind E = GOTPage21 ->
  blocks G !! b = Some B ->
  symbolAddress G (e_target E) = Some T ->
  readLE 4 mem (e_offset E) = Some I ->
  Z.land I 0xffffffe0 = 0x90000000 ->
  NDEBUG = true \/ e_addend E = 0 ->
  let D := s64 (4096 * (u64 T / 4096) - 4096 * (u64 (b_address B) / 4096)) in
  (~ (- 2 ^ 30 <= D < 2 ^ 30) ->
   applyFixup genericName NDEBUG G b E mem = Failure (TargetOutOfRange b E)) /\
  (- 2 ^ 30 <= D < 2 ^ 30 ->
   exists mem' W,
     applyFixup genericName NDEBUG G b E mem = Success mem' /\
     readLE 4 mem' (e_offset E) = Some W /\
     Z.land W 0x9f00001f = I /\
     signed 21 (Z.lor (Z.shiftl (Z.land (Z.shiftr W 5) 0x7ffff) 2)
                      (Z.land (Z.shiftr W 29) 0x3)) * 4096 = D).
Proof.
  intros HK HB HT HI Hinstr Hassert D.
  pose proof (readLE_range _ _ _ _ HI) as HIr. change (8 * Z.of_nat 4) with 32 in HIr.
  set (ImmLo := u32 (Z.land (Z.shiftr (u64 D) 12) 0x3)).
  set (ImmHi := u32 (Z.land (Z.shiftr (u64 D) 14) 0x7ffff)).
  set (W := Z.lor (Z.lor I (u32 (Z.shiftl ImmLo 29))) (u32 (Z.shiftl ImmHi 5))).
  assert (applyFixup genericName NDEBUG G b E mem =
          if (D <? - 2 ^ 30) || (D >? 2 ^ 30 - 1) then Failure (TargetOutOfRange b E)
          else access (writeLE 4 mem (e_offset E) W)) as Hrun.
  { unfold applyFixup, targetOutOfRangeError. rewrite HB. cbn [access mbind Outcome_bind].
    assert (assert NDEBUG (e_addend E =? 0) = Success tt) as Ha.
    { unfold assert. destruct Hassert as [->| ->]; [reflexivity|].
      rewrite Z.eqb_refl, orb_true_r. reflexivity. }
    assert (assert NDEBUG (Z.land I 4294967264 =? 2415919104) = Success tt) as Hb.
    { apply assert_true. rewrite Hinstr. reflexivity. }
    destruct HK as [-> | ->]; rewrite Ha, HT; cbn [access mbind Outcome_bind];
      rewrite !page_mask; fold D;
      change (- Z.shiftl 1 30) with (- 2 ^ 30); change (Z.shiftl 1 30 - 1) with (2 ^ 30 - 1);
      (destruct ((D <? - 2 ^ 30) || (D >? 2 ^ 30 - 1)); [reflexivity|]);
      rewrite HI; cbn [access mbind Outcome_bind]; rewrite Hb; reflexivity. }
  rewrite Z.gtb_ltb in Hrun. rewrite Hrun.
  destruct (Z.ltb_spec D (- 2 ^ 30)), (Z.ltb_spec (2 ^ 30 - 1) D); cbn [orb];
    (split; [intros Hout; try reflexivity; lia|intros Hin; try lia]).
  destruct (adrp_imm I D HIr Hinstr) as (Himm & Hkeep & HWr). fold ImmLo ImmHi W in Himm, Hkeep, HWr.
  destruct (readLE_writeLE_defined 4 mem (e_offset E) I W HI) as [mem' Hw].
  exists mem', W. rewrite Hw. split; [reflexivity|]. split.
  { rewrite (readLE_writeLE _ _ _ _ _ Hw). f_equal. apply Z.mod_small. exact HWr. }
  split; [exact Hkeep|].
  rewrite Himm, signed_wrap.
  assert (D mod 4096 = 0) as Hm.
  { apply s64_mod_4096. rewrite Zminus_mod, !(Z.mul_comm 4096), !Z.mod_mul by lia. reflexivity. }
  rewrite Z.shiftr_div_pow2 by lia. change (2 ^ 12) with 4096.
  pose proof (Z.div_mod D 4096 ltac:(lia)) as Hdm.
  rewrite signed_small by lia. lia.
Qed.

(** ** Kind names, GOT entries and stubs *)

(** X21. [getMachOARM64RelocationKindName] gives every kind but [Pointer32]
    a name of its own, the same whatever the generic naming function, and
    different kinds get different names; [Pointer32] has no case and is
    passed to [getGenericEdgeKindName], so that its name is the result of
    that call. *)
Theorem getMachOARM64RelocationKindName_distinct (gen gen' : EdgeKind -> option string)
    (R R' : EdgeKind) :
  (R <> Pointer32 -> R' <> Pointer32 ->
   getMachOARM64RelocationKindName gen R = getMachOARM64RelocationKindName gen' R' ->
   R = R') /\
  (R <> Pointer32 -> exists name, getMachOARM64RelocationKindName gen R = Success name) /\
  getMachOARM64RelocationKindName gen Pointer32 =
    match gen Pointer32 with
    | Some name => Success name
    | None => Abort NoReturn
    end.
Proof.
  split; [|split; [|reflexivity]].
  - intros H1 H2. destruct R, R'; cbn; intros H; try reflexivity; try discriminate H;
      contradiction.
  - intros H1. destruct R; cbn; try (eexists; reflexivity). contradiction.
Qed.

Lemma symbolAddress_range G s T : symbolAddress G s = Some T -> 0 <= T < 2 ^ 64.
Proof.
  unfold symbolAddress, getAddress. destruct (symbols G !! s) as [Sym|]; [|discriminate].
  cbn. destruct (s_base Sym) as [k|x].
  - destruct (blocks G !! k); cbn; intros H; inversion H. apply u64_range.
  - destruct (externals G !! x); cbn; intros H; inversion H. apply u64_range.
Qed.

(** X18. [createGOTEntry] adds a block to the GOT section of the builder
    (eight zero bytes with one [Pointer64] edge to the target) and the
    anonymous symbol of the entry; that edge, applied to the zero bytes of
    the entry, stores the address of the target: the entry holds the address
    of its target once the fixups are applied. *)
Theorem createGOTEntry_holds_target (st : Builder) (Target : nat) :
  let st' := (createGOTEntry st Target).1 in
  let GOTEntry := (createGOTEntry st Target).2 in
  exists k sec,
    GOTSection st' = Some sec /\
    symbols (graph st') !! GOTEntry = Some (GOTEntrySymbol k) /\
    blocks (graph st') !! k = Some (GOTEntryBlock sec Target) /\
    forall genericName NDEBUG G' T,
      is_Some (blocks G' !! k) -> symbolAddress G' Target = Some T ->
      applyFixup genericName NDEBUG G' k (mkEdge Pointer64 0 Target 0) NullGOTEntryContent =
        Success (le_split 8 T).
Proof.
  intros st' GOTEntry. subst st' GOTEntry. rewrite createGOTEntry_eq. cbv zeta.
  cbn [fst snd graph withGraph blocks symbols GOTSection].
  exists (length (blocks (graph (getGOTSection st).1))), (getGOTSection st).2.
  split; [|split; [|split]].
  - unfold getGOTSection. destruct (GOTSection st) eqn:HG; cbn; [exact HG|reflexivity].
  - apply list_lookup_middle. reflexivity.
  - apply list_lookup_middle. reflexivity.
  - intros genericName NDEBUG G' T [B' HB'] HT. unfold applyFixup, targetOutOfRangeError. rewrite HB'.
    cbn [access mbind Outcome_bind e_kind e_target e_addend e_offset]. rewrite HT.
    cbn [access mbind Outcome_bind].
    rewrite Z.add_0_r. unfold u64 at 1. rewrite wrap_small by (eapply symbolAddress_range; exact HT).
    reflexivity.
Qed.

(** X19. [fixGOTEdge] succeeds exactly on the edges that [isGOTEdge]
    accepts (on any other edge it reaches [llvm_unreachable]); it sets the
    target to the GOT entry, keeps the offset and the addend, and keeps the
    kind except that [PointerToGOT] becomes [Delta32]. The fixed edge is of a
    kind that [applyFixup] has a case for. *)
Theorem fixGOTEdge_spec (E : Edge) (GOTEntry : nat) :
  (isGOTEdge E = true ->
   exists E',
     fixGOTEdge E GOTEntry = Success E' /\
     e_target E' = GOTEntry /\ e_offset E' = e_offset E /\ e_addend E' = e_addend E /\
     e_kind E' = (if bool_decide (e_kind E = PointerToGOT) then Delta32 else e_kind E) /\
     forall genericName NDEBUG G b mem, applyFixup genericName NDEBUG G b E' mem <> Abort Unreachable) /\
  (isGOTEdge E = false -> fixGOTEdge E GOTEntry = Abort Unreachable).
Proof.
  unfold isGOTEdge, fixGOTEdge. destruct E as [K off t a]. cbn [e_kind].
  destruct K; cbn; split; intros H; try discriminate H; try reflexivity;
    (eexists; split; [reflexivity|]; repeat split;
     intros genericName NDEBUG G b mem; unfold applyFixup, targetOutOfRangeError, assert;
     destruct (blocks G !! b); cbn; [|discriminate];
     repeat match goal with
     | |- context [access ?o] => destruct o; cbn [access mbind Outcome_bind]
     | |- context [if ?c then _ else _] => destruct c; cbn [mbind Outcome_bind]
     end; discriminate).
Qed.

(** X20. [getGOTSection] and [getStubsSection] create their section on the
    first call only: [$__GOT] with read protection, [$__STUBS] with read
    and execute protection, added at the end of the sections of the graph; a
    later call returns the same section and leaves the builder as it is. *)
Theorem sections_created_once (st : Builder) :
  let st1 := (getGOTSection st).1 in
  let st2 := (getStubsSection st).1 in
  getGOTSection st1 = (st1, (getGOTSection st).2) /\
  getStubsSection st2 = (st2, (getStubsSection st).2) /\
  (GOTSection st = None ->
   sections (graph st1) = sections (graph st) ++ [mkSection "$__GOT" MF_READ]) /\
  (StubsSection st = None ->
   sections (graph st2) = sections (graph st) ++ [mkSection "$__STUBS" (Z.lor MF_READ MF_EXEC)]) /\
  (is_Some (GOTSection st) -> st1 = st) /\
  (is_Some (StubsSection st) -> st2 = st).
Proof.
  unfold getGOTSection, getStubsSection.
  destruct (GOTSection st) eqn:HG, (StubsSection st) eqn:HS; cbn;
    rewrite ?HG, ?HS; repeat split; try reflexivity; try discriminate;
    intros [? H]; discriminate H.
Qed.

(** X17. The [LDRLiteral19] edge of a stub applied to [StubContent]: for a
    stub block at a multiple of 4 and a GOT entry at a distance [Delta] in
    [0, 2^20) that is a multiple of 4, the first word becomes
    [LDR x16, #Delta] (the literal load with imm19 = [Delta / 4]) and the
    [BR x16] that follows is unchanged. *)
Theorem applyFixup_StubContent (genericName : EdgeKind -> option string)
    (NDEBUG : bool) (G : LinkGraph) (b : nat) (B : Block)
    (GOTEntry : nat) (T : Z) :
  blocks G !! b = Some B ->
  symbolAddress G GOTEntry = Some T ->
  0 <= b_address B < 2 ^ 64 ->
  b_address B mod 4 = 0 ->
  let Delta := T - b_address B in
  0 <= Delta < 2 ^ 20 ->
  Delta mod 4 = 0 ->
  applyFixup genericName NDEBUG G b (mkEdge LDRLiteral19 0 GOTEntry 0) StubContent =
    Success (le_split 4 (Z.lor 0x58000010 (Z.shiftl (Delta / 4) 5)) ++
             [0x00; 0x02; 0x1f; 0xd6]).
Proof.
  intros HB HT HA Halign Delta HD HDalign.
  unfold applyFixup, targetOutOfRangeError. rewrite HB.
  cbn [access mbind Outcome_bind e_kind e_target e_addend e_offset].
  rewrite Z.add_0_r. rewrite !(wrap_small 64 (b_address B) HA : u64 (b_address B) = b_address B).
  assert (assert NDEBUG (Z.land (b_address B) 3 =? 0) = Success tt) as ->.
  { apply assert_true. rewrite land3_mod4, Halign. reflexivity. }
  cbn [mbind Outcome_bind].
  assert (assert NDEBUG (0 =? 0) = Success tt) as -> by (apply assert_true; reflexivity).
  cbn [mbind Outcome_bind].
  change (readLE 4 StubContent 0) with (Some 0x58000010). cbn [access mbind Outcome_bind].
  assert (assert NDEBUG (0x58000010 =? 0x58000010) = Success tt) as ->
    by (apply assert_true; reflexivity).
  cbn [mbind Outcome_bind].
  rewrite HT. cbn [access mbind Outcome_bind]. fold Delta.
  unfold s64. rewrite (signed_small 64 Delta) by lia.
  rewrite land3_mod4, HDalign. cbn [Z.eqb negb].
  change (- Z.shiftl 1 20) with (- 2 ^ 20). change (Z.shiftl 1 20 - 1) with (2 ^ 20 - 1).
  rewrite Z.gtb_ltb.
  destruct (Z.ltb_spec Delta (- 2 ^ 20)), (Z.ltb_spec (2 ^ 20 - 1) Delta); try lia.
  cbn [orb]. rewrite ldr_imm by lia.
  assert (Z.land (Z.shiftr Delta 2) 0x7ffff = Delta / 4) as ->.
  { rewrite Z.shiftr_div_pow2 by lia. change (2 ^ 2) with 4.
    change 0x7ffff with (Z.ones 19). rewrite Z.land_ones by lia.
    apply Z.mod_small. split; [apply Z.div_pos; lia|apply Z.div_lt_upper_bound; lia]. }
  reflexivity.
Qed.

(** ** The further properties on the example object *)

(** The lookups of the example object are sound for its graph. *)
Lemma Example_soundLookups :
  soundLookups Example.findSymbolByIndex Example.findSymbolByAddress Example.G.
Proof.
  split.
  - intros i s. unfold Example.findSymbolByIndex.
    destruct (Z.leb_spec 0 i), (Z.ltb_spec i 6); cbn; intros Hs; inversion Hs; subst.
    assert (i = 0 \/ i = 1 \/ i = 2 \/ i = 3 \/ i = 4 \/ i = 5) as Hi by lia.
    destruct Hi as [->|[->|[->|[->|[->| ->]]]]]; eexists; reflexivity.
  - intros a s. unfold Example.findSymbolByAddress.
    repeat match goal with
    | |- context [(?x <=? ?y) && (?u <? ?v)] =>
        destruct (Z.leb_spec x y), (Z.ltb_spec u v); cbn [andb]
    end; intros Hs; inversion Hs; subst;
    do 3 eexists; (split; [reflexivity|]); (split; [reflexivity|]); (split; [reflexivity|]);
    cbn; lia.
Qed.

Lemma addRelocations_adds_edges_only_witness :
  addsEdgesOnly Example.G (addEdge Example.G 4 NegDelta32 0 0 4).
Proof.
  exact (addRelocations_adds_edges_only Example.getGenericEdgeKindName
      false Example.findSymbolByIndex
           Example.findSymbolByAddress [Example.pairSection] Example.G
           (addEdge Example.G 4 NegDelta32 0 0 4) eq_refl).
Defined.

Lemma addRelocations_abnormal_end_witness :
  stopsOnly (fun _ => True)
    (fun r => r = MalformedObject \/
              (r = NoReturn /\ Example.getGenericEdgeKindName Pointer32 = None))
    (addRelocations Example.getGenericEdgeKindName
        false Example.findSymbolByIndex Example.findSymbolByAddress
       [Example.pairSection; Example.loneAddendSection] Example.G).
Proof.
  exact (addRelocations_abnormal_end Example.getGenericEdgeKindName false Example.findSymbolByIndex
           Example.findSymbolByAddress [Example.pairSection; Example.loneAddendSection]
           Example.G Example_soundLookups eq_refl).
Defined.

Lemma addRelocations_edges_fit_witness :
  edgesFit (addEdge Example.G 4 NegDelta32 0 0 4) = true.
Proof.
  exact (addRelocations_edges_fit Example.getGenericEdgeKindName false Example.findSymbolByIndex
           Example.findSymbolByAddress [Example.pairSection] Example.G
           (addEdge Example.G 4 NegDelta32 0 0 4) Example_soundLookups eq_refl eq_refl eq_refl).
Defined.

Lemma addSectionRelocations_own_records_witness :
  let Sec := mkObjSection 0x1040 2
               [Example.subtractorAt 0 2; Example.unsignedAt 0 2; Example.branch26At 0] in
  (nreloc Sec <= length (reloc_data Sec))%nat /\
  addSectionRelocations Example.getGenericEdgeKindName
      false Example.findSymbolByIndex Example.findSymbolByAddress
    (ownRecords Sec) Example.G = Success (addEdge Example.G 4 NegDelta32 0 0 4).
Proof.
  exact (addSectionRelocations_own_records Example.getGenericEdgeKindName
      false Example.findSymbolByIndex
           Example.findSymbolByAddress
           (mkObjSection 0x1040 2
              [Example.subtractorAt 0 2; Example.unsignedAt 0 2; Example.branch26At 0])
           Example.G (addEdge Example.G 4 NegDelta32 0 0 4) eq_refl).
Defined.

Lemma addSectionRelocations_edge_count_witness :
  exists k, edgeCount (addEdge Example.G 4 NegDelta32 0 0 4) = (edgeCount Example.G + k)%nat /\
            (k <= nreloc Example.pairSection <= 2 * k)%nat.
Proof.
  exact (addSectionRelocations_edge_count Example.getGenericEdgeKindName
      false Example.findSymbolByIndex
           Example.findSymbolByAddress Example.pairSection Example.G
           (addEdge Example.G 4 NegDelta32 0 0 4) eq_refl).
Defined.

Lemma processRelocation_addend_pair_witness :
  exists G1,
    processRelocation Example.getGenericEdgeKindName false Example.findSymbolByIndex
        Example.findSymbolByAddress
        (mkObjSection 0x1000 2 [Example.addendAt 4; Example.page21At 4]) 2 Example.G 0
      = Success (G1, 1%nat) /\
    blocks G1 !! 0%nat = Some (mkBlock 0 Example.text 0x1000 4 0 [mkEdge Page21 4 1 0x10]) /\
    (forall k, k <> 0%nat -> blocks G1 !! k = blocks Example.G !! k) /\
    sections G1 = sections Example.G /\ externals G1 = externals Example.G /\
    symbols G1 = symbols Example.G /\
    (0 <= 0x10 < 2 ^ 24 -> s64 0x10 = 0x10).
Proof.
  exact (processRelocation_addend_pair Example.getGenericEdgeKindName
      false Example.findSymbolByIndex
           Example.findSymbolByAddress
           (mkObjSection 0x1000 2 [Example.addendAt 4; Example.page21At 4]) 2 Example.G 0
           (Example.addendAt 4) (Example.page21At 4) Page21 0 0
           (mkSymbol (Some "f") (InBlock 0) 0 16 true true)
           (mkBlock 0 Example.text 0x1000 4 0 []) 0x90000000
           eq_refl eq_refl ltac:(lia) eq_refl eq_refl eq_refl eq_refl eq_refl eq_refl
           ltac:(vm_compute; discriminate) eq_refl).
Defined.

Lemma pointer_roundtrip_witness :
  exists G1 E,
    processRelocation Example.getGenericEdgeKindName
        false Example.findSymbolByIndex Example.findSymbolByAddress
      (mkObjSection 0x1040 1 [PointerExample.pointer64At 0]) 1 Example.G 0 =
      Success (G1, 0%nat) /\
    b_edges <$> blocks G1 !! 4%nat = Some [E] /\
    e_kind E = Pointer64 /\ e_offset E = 0 /\ e_target E = 1%nat /\
    exists mem',
      applyFixup Example.getGenericEdgeKindName
          false Example.G 4 E [4; 0; 0; 0; 0; 0; 0; 0] = Success mem' /\
      readLE 8 mem' 0 = Some 0x1104.
Proof.
  exact (pointer_roundtrip Example.getGenericEdgeKindName
      false Example.findSymbolByIndex Example.findSymbolByAddress false
           (mkObjSection 0x1040 1 [PointerExample.pointer64At 0]) 1 Example.G 0
           (PointerExample.pointer64At 0) 4 4 1
           (mkSymbol (Some "b") (InBlock 4) 0 8 false true)
           (mkBlock 1 [4; 0; 0; 0; 0; 0; 0; 0] 0x1040 8 0 []) 4
           Example.G (mkBlock 1 [4; 0; 0; 0; 0; 0; 0; 0] 0x1040 8 0 []) 0x1100
           [4; 0; 0; 0; 0; 0; 0; 0]
           eq_refl eq_refl eq_refl (or_introl (conj eq_refl eq_refl)) eq_refl eq_refl eq_refl
           eq_refl ltac:(vm_compute; discriminate) eq_refl eq_refl eq_refl eq_refl eq_refl
           eq_refl).
Defined.

Lemma Pointer64Anon_not_applied_witness :
  let E := mkEdge Pointer64Anon 0 2 2 in
  processRelocation Example.getGenericEdgeKindName
      false Example.findSymbolByIndex Example.findSymbolByAddress
    (mkObjSection 0x1100 1 [PointerExample.pointer64AnonAt 0]) 1 PointerExample.Gptr 0 =
    Success (addEdge PointerExample.Gptr 1 Pointer64Anon 0 2 2, 0%nat) /\
  b_edges <$> blocks (addEdge PointerExample.Gptr 1 Pointer64Anon 0 2 2) !! 1%nat = Some [E] /\
  forall NDEBUG' G' mem,
    is_Some (blocks G' !! 1%nat) -> applyFixup Example.getGenericEdgeKindName
        NDEBUG' G' 1 E mem = Abort Unreachable.
Proof.
  exact (Pointer64Anon_not_applied Example.getGenericEdgeKindName false Example.findSymbolByIndex
           Example.findSymbolByAddress
           (mkObjSection 0x1100 1 [PointerExample.pointer64AnonAt 0]) 1 PointerExample.Gptr 0
           (PointerExample.pointer64AnonAt 0) 1 1 2
           (mkSymbol (Some "a") (InBlock 1) 0 8 false true)
           (mkBlock 1 [0xfb; 0x3f; 0; 0; 0; 0; 0; 0] 0x1100 8 0 []) 0x3ffb 0x3ff9
           eq_refl eq_refl eq_refl eq_refl eq_refl eq_refl eq_refl eq_refl eq_refl
           ltac:(vm_compute; discriminate) eq_refl eq_refl eq_refl).
Defined.

Lemma applyFixup_frame_witness :
  let mem' := [0x40; 0x00; 0x00; 0x94;
               0x00; 0x00; 0x00; 0x90;
               0x00; 0x00; 0x40; 0xf9;
               0x10; 0x00; 0x00; 0x58] in
  length mem' = length Example.text /\
  forall i : nat, Z.of_nat i < 0 \/ 0 + 4 <= Z.of_nat i -> mem' !! i = Example.text !! i.
Proof.
  exact (applyFixup_frame Example.getGenericEdgeKindName
      false Example.G 0 (mkEdge Branch26 0 1 0) Example.text
           [0x40; 0x00; 0x00; 0x94;
            0x00; 0x00; 0x00; 0x90;
            0x00; 0x00; 0x40; 0xf9;
            0x10; 0x00; 0x00; 0x58] eq_refl).
Defined.

Lemma applyFixup_in_bounds_witness :
  stopsOnly (fun _ => True) (fun r => r <> BadAccess)
    (applyFixup Example.getGenericEdgeKindName
        false Example.G 0 (mkEdge Branch26 0 1 0) Example.text).
Proof.
  exact (applyFixup_in_bounds Example.getGenericEdgeKindName
      false Example.G 0 (mkBlock 0 Example.text 0x1000 4 0 [])
           (mkEdge Branch26 0 1 0) Example.text eq_refl (ex_intro _ 0x1100 eq_refl)
           eq_refl eq_refl).
Defined.

Lemma applyFixup_errors_witness :
  Branch26Misaligned = Branch26Misaligned \/
  Branch26Misaligned = TargetOutOfRange 0 (mkEdge Branch26 0 3 0).
Proof.
  exact (applyFixup_errors Example.getGenericEdgeKindName
      false Example.G 0 (mkEdge Branch26 0 3 0) Example.text
           Branch26Misaligned eq_refl).
Defined.

Lemma applyFixup_unhandled_kinds_witness :
  applyFixup Example.getGenericEdgeKindName
      false Example.G 0 (mkEdge PointerToGOT 0 1 0) Example.text = Abort Unreachable <->
  PointerToGOT = Pointer64Anon \/ PointerToGOT = PointerToGOT \/ PointerToGOT = PairedAddend.
Proof.
  exact (applyFixup_unhandled_kinds Example.getGenericEdgeKindName
      false Example.G 0 (mkEdge PointerToGOT 0 1 0)
           Example.text (ex_intro _ (mkBlock 0 Example.text 0x1000 4 0 []) eq_refl)).
Defined.

Lemma applyFixup_Page21_witness :
  exists mem' W,
    applyFixup Example.getGenericEdgeKindName
        false Example.G 0 (mkEdge Page21 4 2 0) Example.text = Success mem' /\
    readLE 4 mem' 4 = Some W /\
    Z.land W 0x9f00001f = 0x90000000 /\
    signed 21 (Z.lor (Z.shiftl (Z.land (Z.shiftr W 5) 0x7ffff) 2)
                     (Z.land (Z.shiftr W 29) 0x3)) * 4096 = 0x2000.
Proof.
  apply (proj2 (applyFixup_Page21 Example.getGenericEdgeKindName
      false Example.G 0 (mkBlock 0 Example.text 0x1000 4 0 [])
                  (mkEdge Page21 4 2 0) Example.text 0x3ff9 0x90000000
                  (or_introl eq_refl) eq_refl eq_refl eq_refl eq_refl (or_intror eq_refl))).
  vm_compute. split; [discriminate|reflexivity].
Defined.

Lemma applyFixup_StubContent_witness :
  applyFixup Example.getGenericEdgeKindName
      false Example.G 0 (mkEdge LDRLiteral19 0 1 0) StubContent =
    Success [0x10; 0x08; 0x00; 0x58; 0x00; 0x02; 0x1f; 0xd6].
Proof.
  exact (applyFixup_StubContent Example.getGenericEdgeKindName
      false Example.G 0 (mkBlock 0 Example.text 0x1000 4 0 []) 1 0x1100
           eq_refl eq_refl ltac:(cbn; lia) eq_refl ltac:(cbn; lia) eq_refl).
Defined.

Lemma processRelocation_extent_witness :
  processRelocation Example.getGenericEdgeKindName
      false Example.findSymbolByIndex Example.findSymbolByAddress
    (mkObjSection 0x8000fff 1 [PointerExample.pointer64At 0]) 1 Example.G 0 =
  Failure ContentPastEndOfBlock.
Proof.
  exact (processRelocation_extent Example.getGenericEdgeKindName false Example.findSymbolByIndex
           Example.findSymbolByAddress
           (mkObjSection 0x8000fff 1 [PointerExample.pointer64At 0]) 1 Example.G 0
           (PointerExample.pointer64At 0) Pointer64 3 3
           (mkSymbol (Some "far") (InBlock 3) 0 4 false true)
           (mkBlock 1 [0; 0; 0; 0] 0x8000fff 1 0 [])
           eq_refl eq_refl eq_refl eq_refl eq_refl eq_refl eq_refl).
Defined.

Lemma processRelocation_lone_subtractor_witness :
  processRelocation Example.getGenericEdgeKindName
      false Example.findSymbolByIndex Example.findSymbolByAddress
    (mkObjSection 0x1040 1 [Example.subtractorAt 0 2; Example.unsignedAt 0 2]) 1 Example.G 0 =
  Failure SubtractorWithoutUnsigned.
Proof.
  exact (processRelocation_lone_subtractor Example.getGenericEdgeKindName
      false Example.findSymbolByIndex
           Example.findSymbolByAddress
           (mkObjSection 0x1040 1 [Example.subtractorAt 0 2; Example.unsignedAt 0 2])
           Example.G 0 (Example.subtractorAt 0 2) Delta32 4 4
           (mkSymbol (Some "b") (InBlock 4) 0 8 false true)
           (mkBlock 1 [4; 0; 0; 0; 0; 0; 0; 0] 0x1040 8 0 [])
           eq_refl eq_refl (or_introl eq_refl) eq_refl eq_refl eq_refl eq_refl
           ltac:(vm_compute; discriminate)).
Defined.

(** ** Fixup applier: shifts and the GOT page offset *)

Section ShiftFacts.

Lemma land_pattern_field I mask pat field :
  Z.land I mask = pat -> Z.land mask field = field -> Z.land I field = Z.land pat field.
Proof. intros H Hf. rewrite <- H, <- Z.land_assoc, Hf. reflexivity. Qed.

Lemma land_pattern_bit I mask pat n :
  Z.land I mask = pat -> Z.testbit mask n = true -> Z.testbit I n = Z.testbit pat n.
Proof. intros H Hn. rewrite <- H, Z.land_spec, Hn, andb_true_r. reflexivity. Qed.

End ShiftFacts.

(** X22. [getPageOffset12Shift] is 0 for every word whose 12-bit immediate
    field (bits 10 to 21) is not zero, or whose bit 22 (set in the three
    load patterns) is clear: a shift is found only for a load with a zero
    embedded immediate. *)
Theorem getPageOffset12Shift_zero (I : Z) :
  Z.land I 0x3ffc00 <> 0 \/ Z.testbit I 22 = false ->
  getPageOffset12Shift I = 0.
Proof.
  intros H. unfold getPageOffset12Shift.
  destruct (Z.eqb_spec (Z.land I 0x3ffffc00) 0x39400000) as [H1|_].
  { exfalso. destruct H as [H|H].
    - apply H. rewrite (land_pattern_field I _ _ 0x3ffc00 H1); reflexivity.
    - rewrite (land_pattern_bit I _ _ 22 H1) in H by reflexivity. discriminate H. }
  destruct (Z.eqb_spec (Z.land I 0x3ffffc00) 0x3d400000) as [H2|_].
  { exfalso. destruct H as [H|H].
    - apply H. rewrite (land_pattern_field I _ _ 0x3ffc00 H2); reflexivity.
    - rewrite (land_pattern_bit I _ _ 22 H2) in H by reflexivity. discriminate H. }
  cbv zeta.
  destruct (Z.eqb_spec (Z.land I (Z.lor 0x3ffffc00 0xc0000000)) 0x3dc00000) as [H3|_];
    [|reflexivity].
  exfalso. destruct H as [H|H].
  - apply H. rewrite (land_pattern_field I _ _ 0x3ffc00 H3); reflexivity.
  - rewrite (land_pattern_bit I _ _ 22 H3) in H by reflexivity. discriminate H.
Qed.

Lemma getPageOffset12Shift_zero_witness :
  getPageOffset12Shift 0xf9000000 = 0 /\ getPageOffset12Shift 0xf9400400 = 0.
Proof.
  split.
  - exact (getPageOffset12Shift_zero 0xf9000000 (or_intror eq_refl)).
  - apply (getPageOffset12Shift_zero 0xf9400400). left. vm_compute. discriminate.
Defined.

Section GOTPageOffset12Facts.

(** A 64-bit LDR immediate word with a zero immediate: the ten opcode bits
    and the two registers. *)
Lemma ldr_word_shape I :
  0 <= I < 2 ^ 32 -> Z.land I 0xfffffc00 = 0xf9400000 ->
  I = Z.lor (Z.shiftl (Z.land 0x3e5 (Z.ones 10)) 22) (Z.land I (Z.ones 10)).
Proof.
  intros HI H.
  rewrite <- (Z.mod_small I (2 ^ 32)) at 1 by exact HI.
  rewrite <- Z.land_ones by lia.
  replace (Z.ones 32) with (Z.lor 0xfffffc00 (Z.ones 10)) by reflexivity.
  rewrite Z.land_lor_distr_r, H. reflexivity.
Qed.

Lemma ldr_fields op rn off :
  let I := Z.lor (Z.shiftl (Z.land op (Z.ones 10)) 22) (Z.land rn (Z.ones 10)) in
  let W := Z.land (Z.lor I (Z.land (Z.shiftl (Z.land off (Z.ones 12)) 10) (Z.ones 64)))
                  (Z.ones 32) in
  Z.land (Z.shiftr W 10) (Z.ones 12) = Z.land off (Z.ones 12) /\
  Z.land W (Z.lor (Z.shiftl (Z.ones 10) 22) (Z.ones 10)) = I.
Proof. intros I W. subst W I. split; Z.bitblast. Qed.

End GOTPageOffset12Facts.

(** X23. For a [GOTPageOffset12] edge on a 64-bit LDR immediate word with a
    zero immediate the applier returns no error: it stores the word that
    keeps the opcode and the registers of the instruction and whose 12-bit
    immediate field holds the page offset of the target in bytes as it
    stands (not divided by the size of the access). *)
Theorem applyFixup_GOTPageOffset12 (genericName : EdgeKind -> option string)
    (NDEBUG : bool) (G : LinkGraph) (b : nat) (B : Block)
    (E : Edge) (mem : list Z) (T I : Z) :
  e_kind E = GOTPageOffset12 ->
  blocks G !! b = Some B ->
  symbolAddress G (e_target E) = Some T ->
  readLE 4 mem (e_offset E) = Some I ->
  Z.land I 0xfffffc00 = 0xf9400000 ->
  NDEBUG = true \/ e_addend E = 0 ->
  exists mem' W,
    applyFixup genericName NDEBUG G b E mem = Success mem' /\
    readLE 4 mem' (e_offset E) = Some W /\
    Z.land W 0xffc003ff = I /\
    Z.land (Z.shiftr W 10) 0xfff = Z.land T 0xfff.
Proof.
  intros HK HB HT HI Hinstr Hassert.
  pose proof (readLE_range _ _ _ _ HI) as HIr. change (8 * Z.of_nat 4) with 32 in HIr.
  set (W := u32 (Z.lor I (u64 (Z.shiftl (Z.land T 0xfff) 10)))).
  assert (applyFixup genericName NDEBUG G b E mem = access (writeLE 4 mem (e_offset E) W)) as Hrun.
  { unfold applyFixup, targetOutOfRangeError. rewrite HB, HK. cbn [access mbind Outcome_bind].
    assert (assert NDEBUG (e_addend E =? 0) = Success tt) as ->.
    { unfold assert. destruct Hassert as [->| ->]; [reflexivity|].
      rewrite Z.eqb_refl, orb_true_r. reflexivity. }
    cbn [mbind Outcome_bind]. rewrite HT, HI. cbn [access mbind Outcome_bind].
    rewrite assert_true by (rewrite Hinstr; reflexivity). reflexivity. }
  destruct (readLE_writeLE_defined 4 mem (e_offset E) I W HI) as [mem' Hw].
  exists mem', W. rewrite Hrun, Hw. split; [reflexivity|].
  split.
  { rewrite (readLE_writeLE _ _ _ _ _ Hw). f_equal. apply Z.mod_small. apply u32_range. }
  unfold W, u32, u64, wrap. rewrite <- !Z.land_ones by lia.
  rewrite (ldr_word_shape I HIr Hinstr).
  change 0xfff with (Z.ones 12).
  change 0xffc003ff with (Z.lor (Z.shiftl (Z.ones 10) 22) (Z.ones 10)).
  destruct (ldr_fields 0x3e5 I T) as [F1 F2]. cbv zeta in F1, F2.
  split; [exact F2|exact F1].
Qed.

Lemma applyFixup_GOTPageOffset12_witness :
  exists mem' W,
    applyFixup Example.getGenericEdgeKindName
        false Example.G 0 (mkEdge GOTPageOffset12 8 2 0) Example.text = Success mem' /\
    readLE 4 mem' 8 = Some W /\
    Z.land W 0xffc003ff = 0xf9400000 /\
    Z.land (Z.shiftr W 10) 0xfff = Z.land 0x3ff9 0xfff.
Proof.
  exact (applyFixup_GOTPageOffset12 Example.getGenericEdgeKindName
      false Example.G 0 (mkBlock 0 Example.text 0x1000 4 0 [])
           (mkEdge GOTPageOffset12 8 2 0) Example.text 0x3ff9 0xf9400000
           eq_refl eq_refl eq_refl eq_refl eq_refl (or_intror eq_refl)).
Defined.

(** ** Relocation parser: records that name an instruction *)

Section InstructionRecords.

Variable genericName : EdgeKind -> option string.
Variable NDEBUG : bool.
Variables fbi fba : Z -> option nat.

(** X24. A BRANCH26, PAGE21, GOT_LOAD_PAGE21 or GOT_LOAD_PAGEOFF12 record on
    its own: the parser reads the instruction word at the fixup and adds an
    edge of the record's kind, with addend 0, to the symbol with the
    record's symbol number exactly when the word is a B or BL, an ADRP, or a
    64-bit LDR immediate, with a zero immediate; otherwise it fails with an
    error of kind BadInstr. The graph with the edge added is the graph as
    it was with that edge after the edges of the block of the fixup. *)
Theorem processRelocation_instruction_record
    (Sec : ObjSection) (RelEnd : nat) (G : LinkGraph) (RelItr : nat) (RI : relocation_info)
    (K : EdgeKind) (fixsym b t : nat) (SymbolToFix : Symbol) (B : Block) (I : Z) :
  let FixupAddress := u64 (os_address Sec + u32 (r_address RI)) in
  let Offset := u64 (FixupAddress - b_address B) in
  reloc_data Sec !! RelItr = Some RI ->
  getRelocationKind RI = Success K ->
  K = Branch26 \/ K = Page21 \/ K = GOTPage21 \/ K = GOTPageOffset12 ->
  fba FixupAddress = Some fixsym ->
  symbols G !! fixsym = Some SymbolToFix ->
  s_base SymbolToFix = InBlock b ->
  blocks G !! b = Some B ->
  u64 (FixupAddress + u64 (Z.shiftl 1 (r_length RI))) <=
    u64 (b_address B + Z.of_nat (length (b_content B))) ->
  fbi (r_symbolnum RI) = Some t ->
  readLE 4 (b_content B) Offset = Some I ->
  let '(mask, pattern, error) :=
    match K with
    | Branch26 => (0x7fffffff, 0x14000000, Branch26NotBranch)
    | GOTPageOffset12 => (0xfffffc00, 0xf9400000, GOTPageOff12NotLDR)
    | _ => (0xffffffe0, 0x90000000, Page21NotADRP)
    end in
  processRelocation genericName NDEBUG fbi fba Sec RelEnd G RelItr =
    (if Z.land I mask =? pattern
     then Success (addEdge G b K Offset t 0, RelItr)
     else Failure error) /\
  errorKind error = BadInstr /\
  blocks (addEdge G b K Offset t 0) !! b =
    Some (mkBlock (b_section B) (b_content B) (b_address B) (b_alignment B)
                  (b_alignmentOffset B) (b_edges B ++ [mkEdge K (u32 Offset) t 0])) /\
  (forall k, k <> b -> blocks (addEdge G b K Offset t 0) !! k = blocks G !! k) /\
  sections (addEdge G b K Offset t 0) = sections G /\
  externals (addEdge G b K Offset t 0) = externals G /\
  symbols (addEdge G b K Offset t 0) = symbols G.
Proof.
  intros FixupAddress Offset HRI HK HKs Hfix Hsym Hbase HB Hext Ht HI.
  subst Offset FixupAddress.
  unfold processRelocation.
  rewrite (getRelocationInfo_lookup _ _ _ HRI). cbn [mbind Outcome_bind].
  rewrite HK. cbn [mbind Outcome_bind].
  rewrite (symbolByAddress_Some fba _ _ Hfix). cbn [mbind Outcome_bind].
  rewrite Hsym. cbn [access mbind Outcome_bind].
  unfold getBlock. rewrite Hbase. cbn [mbind Outcome_bind].
  rewrite HB. cbn [access mbind Outcome_bind].
  match goal with
  | |- context [?x >? ?y] => destruct (Z.gtb_spec x y) as [?|_]; [lia|]
  end.
  cbn [fst snd]. rewrite HI.
  destruct HKs as [-> |[-> |[-> | ->]]]; eval_kind_tests; cbn [mbind Outcome_bind];
    rewrite (symbolByIndex_Some fbi _ _ Ht); cbn [access mbind Outcome_bind];
    (split; [|split; [reflexivity|apply (addEdge_block G b B _ _ t 0 HB)]]);
    match goal with |- context [?a =? ?p] => destruct (a =? p) end; reflexivity.
Qed.

End InstructionRecords.

Lemma processRelocation_instruction_record_witness :
  processRelocation Example.getGenericEdgeKindName
      false Example.findSymbolByIndex Example.findSymbolByAddress
    (mkObjSection 0x1000 1 [Example.branch26At 4]) 1 Example.G 0 =
    Failure Branch26NotBranch /\
  errorKind Branch26NotBranch = BadInstr.
Proof.
  destruct (processRelocation_instruction_record Example.getGenericEdgeKindName false
           Example.findSymbolByIndex
           Example.findSymbolByAddress
           (mkObjSection 0x1000 1 [Example.branch26At 4]) 1 Example.G 0
           (Example.branch26At 4) Branch26 0 0 1
           (mkSymbol (Some "f") (InBlock 0) 0 16 true true)
           (mkBlock 0 Example.text 0x1000 4 0 []) 0x90000000
           eq_refl eq_refl (or_introl eq_refl) eq_refl eq_refl eq_refl eq_refl
           ltac:(vm_compute; discriminate) eq_refl eq_refl)
    as (Hrun & Hkind & _).
  split; [exact Hrun|exact Hkind].
Defined.
